(** * Timeline engine of the editor (src/App.tsx): a shallow embedding

    The development follows the video workspace of [App.tsx]: the time
    quantisation [roundTime], the fade curves, the derived extent [maxTime],
    the edit history ([pushVideoHistory], [handleVideoUndo],
    [handleVideoRedo]), the clip editor handlers (split, razor, drop, move
    with magnet snap, delete, mute toggle, property update) and the
    active-clip resolver [getAllActiveClips].

    Modelling conventions.
    - A JavaScript [number] holding a time, a pixel count or a percentage is
      the rational ([Q]) it denotes; numeric comparison ([<], [>=], [===] on
      numbers) is comparison of rationals.
    - Where the last bit of a number decides what a handler does (the guard
      of a split, the fragments it stores, the grid of [roundTime], the
      threshold tests of the magnet, the look-ahead of the resolver) the
      arithmetic is IEEE 754 binary64: module [Double] rounds every sum,
      difference, product and quotient to the nearest double, ties to even,
      and [Binary64] compares it with the kernel's primitive floats.  The
      modules [DoublePointer], [DoubleMagnet] and [DoubleResolver] are the
      pointer position, the magnet and the resolver in that arithmetic.
    - Elsewhere (fade curves, extent, drop, move, clock, audio parameters)
      sums and products are exact, and statements are about equalities and
      orders that do not depend on the last bit.  NaN, the infinities and
      the sign of zero are outside the model.  The only division by zero
      the fade code can perform has a negative numerator, which JavaScript
      sends to -Infinity and [Qdiv] to [0]; both are clamped to [0] by
      [calculateFadeFactor].
    - An array is a [list]; array indices and the history cursor are [Z].
    - The React state of the component is one record [State]; a handler is a
      function on it.  The refs [videoTracksRef], [videoHistoryRef], ... are
      re-synchronised with the state after every render, so at the entry of a
      handler they hold the state the handler starts from.
    - [Date.now()] is an argument [now] of the handlers that read the clock.
    - The text produced by [JSON.stringify] is a [Snapshot]; a text that
      [JSON.parse] rejects is the constructor [Unparseable]. *)

From Stdlib Require Import List String Ascii ZArith QArith Qround Qabs Qminmax.
From Stdlib Require Import Qpower Qreduction DecimalPos DecimalZ.
From Stdlib Require Import Bool Lia Lqa DecimalString Sorted.
From Stdlib Require Floats.
Import ListNotations.

Local Open Scope Q_scope.

(** ** Numbers *)

(** Boolean comparisons of numbers, as the handlers test them. *)
Definition Qltb (x y : Q) : bool := negb (Qle_bool y x).
Definition Qleb (x y : Q) : bool := Qle_bool x y.
Definition Qgeb (x y : Q) : bool := Qle_bool y x.

(** [Math.round]: the nearest integer, a tie going up. *)
Definition Math_round (x : Q) : Z := Qfloor (x + (1 # 2)).

(** [const roundTime = (val) => Math.round(val * 10000) / 10000] *)
Definition roundTime (val : Q) : Q := inject_Z (Math_round (val * 10000)) / 10000.

(** *** Double precision

    The arithmetic of the source is that of IEEE 754 binary64: every sum,
    difference, product and quotient is the exact result rounded to the
    nearest double, a tie going to the even significand.  A finite double
    is held as the rational it denotes; [rnd] is that rounding on the
    rationals, with 53 bits of significand and the subnormals down to
    [2^-1074].  Overflow to an infinity, NaN and the sign of zero are
    outside the model.  Comparisons and [Math.round] are exact on doubles
    and need no rounding. *)
Module Double.

Definition pow2 (k : Z) : Q := 2 ^ k.

(** [floor (log2 (n / d))] *)
Definition ilog2 (n d : positive) : Z :=
  let k := (Z.log2 (Zpos n) - Z.log2 (Zpos d))%Z in
  if Qle_bool (pow2 k) (Zpos n # d) then k else (k - 1)%Z.

(** The integer nearest to [n / d], a tie going to the even one. *)
Definition nearest_even (n : Z) (d : positive) : Z :=
  let q := (n / Zpos d)%Z in
  let r := (n mod Zpos d)%Z in
  match (2 * r ?= Zpos d)%Z with
  | Lt => q
  | Gt => (q + 1)%Z
  | Eq => if Z.even q then q else (q + 1)%Z
  end.

(** The exponent of the unit in the last place of the doubles around
    [n / d]. *)
Definition ulp_exponent (n d : positive) : Z := Z.max (ilog2 n d - 52) (-1074).

Definition rnd_pos (n d : positive) : Q :=
  let e := ulp_exponent n d in
  let s := (Zpos n # d) / pow2 e in
  Qred (inject_Z (nearest_even (Qnum s) (Qden s)) * pow2 e).

(** The double nearest to [x]. *)
Definition rnd (x : Q) : Q :=
  match Qnum x with
  | Z0 => 0
  | Zpos n => rnd_pos n (Qden x)
  | Zneg n => - rnd_pos n (Qden x)
  end.

(** [x + y], [x - y], [x * y] and [x / y] of two doubles. *)
Definition add (x y : Q) : Q := rnd (x + y).
Definition sub (x y : Q) : Q := rnd (x - y).
Definition mul (x y : Q) : Q := rnd (x * y).
Definition div (x y : Q) : Q := rnd (x / y).

(** A decimal literal of the source text, such as [0.1]. *)
Definition literal (q : Q) : Q := rnd q.

(** [const roundTime = (val) => Math.round(val * 10000) / 10000] *)
Definition roundTime (val : Q) : Q :=
  div (inject_Z (Math_round (mul val 10000))) 10000.

End Double.

(** The kernel's primitive floats are binary64 with round to nearest, ties
    to even: the arithmetic of a JavaScript number.  [toQ] reads the
    rational a finite float denotes; [agree] compares one operation of
    [Double] with the machine's on a pair of floats, leaving aside the
    results that overflow or are not numbers. *)
Module Binary64.
Import Floats.

Definition toQ (f : float) : Q :=
  match Prim2SF f with
  | S754_finite s m e =>
      (if s then -1 else 1) * inject_Z (Zpos m) * Double.pow2 e
  | _ => 0
  end.

Definition finite (f : float) : bool :=
  match Prim2SF f with
  | S754_finite _ _ _ | S754_zero _ => true
  | _ => false
  end.

Definition agree (op : Q -> Q -> Q) (fop : float -> float -> float)
    (a b : float) : bool :=
  if finite (fop a b) then Qeq_bool (op (toQ a) (toQ b)) (toQ (fop a b))
  else true.

#[warnings="-inexact-float"]
Definition samples : list float :=
  [0.1; 0.2; 0.3; 4.9; 5; 0.35; 0.05; 0.4; 2.05; 1.3; 0.75; 0.09995; 10000;
   0.00035; 10.00015; 999.5; 123456789.123; 9007199254740993; 20]%float.

(** Subnormal floats and one next to the smallest normal one. *)
#[warnings="-inexact-float"]
Definition extremes : list float := [4.9e-324; 1e-320; 2.5e-308]%float.

Definition agreeOn (xs : list float) (op : Q -> Q -> Q)
    (fop : float -> float -> float) : bool :=
  forallb (fun a =>
             forallb (fun b => agree op fop a b && agree op fop (- a) b) xs)
          xs.

(** Decimal literals of the source and of the sample data, as the machine
    reads them and as [Double.literal] does. *)
#[warnings="-inexact-float"]
Definition literals : list (float * Q) :=
  [(0.1, 1 # 10); (0.2, 2 # 10); (0.3, 3 # 10); (4.9, 49 # 10);
   (0.05, 5 # 100); (0.35, 35 # 100); (0.4, 4 # 10); (1.3, 13 # 10);
   (2.05, 205 # 100); (0.75, 75 # 100); (0.09995, 9995 # 100000);
   (0.00035, 35 # 100000); (0.0004, 4 # 10000); (10.00015, 1000015 # 100000);
   (10.0002, 100002 # 10000)]%float.

Definition literalsAgree : bool :=
  forallb (fun p => Qeq_bool (toQ (fst p)) (Double.literal (snd p))) literals.

End Binary64.

(** [Math.max(a, ...xs)] *)
Definition Math_max (a : Q) (xs : list Q) : Q := fold_left Qmax xs a.

(** [Number.prototype.toString] of an integer, and [Date.now().toString()]. *)
Definition toString (n : Z) : string := NilZero.string_of_int (Z.to_int n).

(** ** Data model (types.ts) *)

Inductive ClipType := video | image | text.
Inductive BlendMode := normal | screen | multiply | overlay | darken | lighten.
Inductive FilterPreset :=
  none | grayscale | sepia | vintage | cyberpunk | warm | cool | drama.
Inductive FadeCurve := linear | smooth | buttery.

Module VideoClip.
Record t := mk {
  id : string;
  name : string;
  url : string;
  type : ClipType;
  originalDuration : Q;
  width : Q;
  height : Q;
  duration : Q;
  startTime : Q;
  trimStart : Q;
  trimEnd : Q;
  opacity : Q;
  scale : Q;
  rotation : Q;
  positionX : Q;
  positionY : Q;
  blendMode : BlendMode;
  brightness : Q;
  contrast : Q;
  saturation : Q;
  hueRotate : Q;
  blur : Q;
  filterPreset : FilterPreset;
  fadeIn : Q;
  fadeOut : Q;
  fadeCurve : FadeCurve;
  textContent : option string;
  fontSize : option Q;
  textColor : option string;
  fontFamily : option string;
  backgroundColor : option string;
  volume : Q;
  speed : Q;
  (** Not declared by [types.ts]: the two properties [handleSplitAtPlayhead]
      spreads into its copies of the clips, and so into the fragments it
      stores; [None] on a clip that has not got them. *)
  trackId : option string;
  isAudio : option bool
}.

(** The object spreads [{...clip, f: v}] of the handlers, one per field
    they overwrite. *)
Definition with_id (v : string) (c : t) : t :=
  mk v (name c) (url c) (type c) (originalDuration c) (width c) (height c)
     (duration c) (startTime c) (trimStart c) (trimEnd c)
     (opacity c) (scale c) (rotation c) (positionX c) (positionY c) (blendMode c)
     (brightness c) (contrast c) (saturation c) (hueRotate c) (blur c) (filterPreset c)
     (fadeIn c) (fadeOut c) (fadeCurve c)
     (textContent c) (fontSize c) (textColor c) (fontFamily c) (backgroundColor c)
     (volume c) (speed c) (trackId c) (isAudio c).

Definition with_duration (v : Q) (c : t) : t :=
  mk (id c) (name c) (url c) (type c) (originalDuration c) (width c) (height c)
     v (startTime c) (trimStart c) (trimEnd c)
     (opacity c) (scale c) (rotation c) (positionX c) (positionY c) (blendMode c)
     (brightness c) (contrast c) (saturation c) (hueRotate c) (blur c) (filterPreset c)
     (fadeIn c) (fadeOut c) (fadeCurve c)
     (textContent c) (fontSize c) (textColor c) (fontFamily c) (backgroundColor c)
     (volume c) (speed c) (trackId c) (isAudio c).

Definition with_startTime (v : Q) (c : t) : t :=
  mk (id c) (name c) (url c) (type c) (originalDuration c) (width c) (height c)
     (duration c) v (trimStart c) (trimEnd c)
     (opacity c) (scale c) (rotation c) (positionX c) (positionY c) (blendMode c)
     (brightness c) (contrast c) (saturation c) (hueRotate c) (blur c) (filterPreset c)
     (fadeIn c) (fadeOut c) (fadeCurve c)
     (textContent c) (fontSize c) (textColor c) (fontFamily c) (backgroundColor c)
     (volume c) (speed c) (trackId c) (isAudio c).

Definition with_trimStart (v : Q) (c : t) : t :=
  mk (id c) (name c) (url c) (type c) (originalDuration c) (width c) (height c)
     (duration c) (startTime c) v (trimEnd c)
     (opacity c) (scale c) (rotation c) (positionX c) (positionY c) (blendMode c)
     (brightness c) (contrast c) (saturation c) (hueRotate c) (blur c) (filterPreset c)
     (fadeIn c) (fadeOut c) (fadeCurve c)
     (textContent c) (fontSize c) (textColor c) (fontFamily c) (backgroundColor c)
     (volume c) (speed c) (trackId c) (isAudio c).

Definition with_trimEnd (v : Q) (c : t) : t :=
  mk (id c) (name c) (url c) (type c) (originalDuration c) (width c) (height c)
     (duration c) (startTime c) (trimStart c) v
     (opacity c) (scale c) (rotation c) (positionX c) (positionY c) (blendMode c)
     (brightness c) (contrast c) (saturation c) (hueRotate c) (blur c) (filterPreset c)
     (fadeIn c) (fadeOut c) (fadeCurve c)
     (textContent c) (fontSize c) (textColor c) (fontFamily c) (backgroundColor c)
     (volume c) (speed c) (trackId c) (isAudio c).

Definition with_trackId (v : option string) (c : t) : t :=
  mk (id c) (name c) (url c) (type c) (originalDuration c) (width c) (height c)
     (duration c) (startTime c) (trimStart c) (trimEnd c)
     (opacity c) (scale c) (rotation c) (positionX c) (positionY c) (blendMode c)
     (brightness c) (contrast c) (saturation c) (hueRotate c) (blur c) (filterPreset c)
     (fadeIn c) (fadeOut c) (fadeCurve c)
     (textContent c) (fontSize c) (textColor c) (fontFamily c) (backgroundColor c)
     (volume c) (speed c) v (isAudio c).

Definition with_isAudio (v : option bool) (c : t) : t :=
  mk (id c) (name c) (url c) (type c) (originalDuration c) (width c) (height c)
     (duration c) (startTime c) (trimStart c) (trimEnd c)
     (opacity c) (scale c) (rotation c) (positionX c) (positionY c) (blendMode c)
     (brightness c) (contrast c) (saturation c) (hueRotate c) (blur c) (filterPreset c)
     (fadeIn c) (fadeOut c) (fadeCurve c)
     (textContent c) (fontSize c) (textColor c) (fontFamily c) (backgroundColor c)
     (volume c) (speed c) (trackId c) v.

(** [Partial<VideoClip>]: each declared field present or absent. *)
Record partial := mkPartial {
  p_id : option string;
  p_name : option string;
  p_url : option string;
  p_type : option ClipType;
  p_originalDuration : option Q;
  p_width : option Q;
  p_height : option Q;
  p_duration : option Q;
  p_startTime : option Q;
  p_trimStart : option Q;
  p_trimEnd : option Q;
  p_opacity : option Q;
  p_scale : option Q;
  p_rotation : option Q;
  p_positionX : option Q;
  p_positionY : option Q;
  p_blendMode : option BlendMode;
  p_brightness : option Q;
  p_contrast : option Q;
  p_saturation : option Q;
  p_hueRotate : option Q;
  p_blur : option Q;
  p_filterPreset : option FilterPreset;
  p_fadeIn : option Q;
  p_fadeOut : option Q;
  p_fadeCurve : option FadeCurve;
  p_textContent : option string;
  p_fontSize : option Q;
  p_textColor : option string;
  p_fontFamily : option string;
  p_backgroundColor : option string;
  p_volume : option Q;
  p_speed : option Q
}.

Definition over {A} (u : option A) (v : A) : A :=
  match u with Some w => w | None => v end.

Definition over_opt {A} (u : option A) (v : option A) : option A :=
  match u with Some w => Some w | None => v end.

(** [{ ...c, ...updates }] *)
Definition merge (c : t) (u : partial) : t :=
  mk (over (p_id u) (id c)) (over (p_name u) (name c)) (over (p_url u) (url c))
     (over (p_type u) (type c))
     (over (p_originalDuration u) (originalDuration c))
     (over (p_width u) (width c)) (over (p_height u) (height c))
     (over (p_duration u) (duration c)) (over (p_startTime u) (startTime c))
     (over (p_trimStart u) (trimStart c)) (over (p_trimEnd u) (trimEnd c))
     (over (p_opacity u) (opacity c)) (over (p_scale u) (scale c))
     (over (p_rotation u) (rotation c))
     (over (p_positionX u) (positionX c)) (over (p_positionY u) (positionY c))
     (over (p_blendMode u) (blendMode c))
     (over (p_brightness u) (brightness c)) (over (p_contrast u) (contrast c))
     (over (p_saturation u) (saturation c)) (over (p_hueRotate u) (hueRotate c))
     (over (p_blur u) (blur c)) (over (p_filterPreset u) (filterPreset c))
     (over (p_fadeIn u) (fadeIn c)) (over (p_fadeOut u) (fadeOut c))
     (over (p_fadeCurve u) (fadeCurve c))
     (over_opt (p_textContent u) (textContent c))
     (over_opt (p_fontSize u) (fontSize c))
     (over_opt (p_textColor u) (textColor c))
     (over_opt (p_fontFamily u) (fontFamily c))
     (over_opt (p_backgroundColor u) (backgroundColor c))
     (over (p_volume u) (volume c)) (over (p_speed u) (speed c))
     (trackId c) (isAudio c).

(** The empty update [{}] and the update [{opacity: v}]. *)
Definition noUpdates : partial :=
  mkPartial None None None None None None None None None None None
    None None None None None None None None None None None None
    None None None None None None None None None None.

Definition onlyOpacity (v : Q) : partial :=
  mkPartial None None None None None None None None None None None
    (Some v) None None None None None None None None None None None
    None None None None None None None None None None.

(** The end of the clip's interval on the timeline. *)
Definition endTime (c : t) : Q := startTime c + duration c.
End VideoClip.

Module VideoTrack.
Record t := mk {
  id : string;
  name : string;
  clips : list VideoClip.t;
  isMuted : bool;
  isLocked : bool
}.

Definition with_clips (v : list VideoClip.t) (tr : t) : t :=
  mk (id tr) (name tr) v (isMuted tr) (isLocked tr).
Definition with_isMuted (v : bool) (tr : t) : t :=
  mk (id tr) (name tr) (clips tr) v (isLocked tr).
Definition with_isLocked (v : bool) (tr : t) : t :=
  mk (id tr) (name tr) (clips tr) (isMuted tr) v.
End VideoTrack.

(** ** Fade curves *)

(** [calculateFadeFactor(t, type)] *)
Definition calculateFadeFactor (t : Q) (type : FadeCurve) : Q :=
  if Qleb t 0 then 0
  else if Qgeb t 1 then 1
  else match type with
       | linear => t
       | buttery => t * t * t * (t * (t * 6 - 15) + 10)
       | smooth => t * t * (3 - 2 * t)
       end.

(** The fade application of the media-sync effect and of the stage render:
    [fadeFactor = 1], overwritten inside the fade-in window, else inside the
    fade-out window.  [clip.fadeCurve || 'smooth'] is [clip.fadeCurve]: the
    field is required by the type and its three values are truthy. *)
Definition fadeFactor (currentVideoTime : Q) (clip : VideoClip.t) : Q :=
  let timeInClip := currentVideoTime - VideoClip.startTime clip in
  let timeFromEnd :=
    (VideoClip.startTime clip + VideoClip.duration clip) - currentVideoTime in
  let curveType := VideoClip.fadeCurve clip in
  if Qltb timeInClip (VideoClip.fadeIn clip) then
    calculateFadeFactor (timeInClip / VideoClip.fadeIn clip) curveType
  else if Qltb timeFromEnd (VideoClip.fadeOut clip) then
    calculateFadeFactor (timeFromEnd / VideoClip.fadeOut clip) curveType
  else 1.

(** ** Component state *)

(** A history entry: the text [JSON.stringify] produced from the two track
    collections, or a text that [JSON.parse] rejects. *)
Inductive Snapshot :=
| Stringified (videoTracks timelineAudioTracks : list VideoTrack.t)
| Unparseable (text : string).

Definition JSON_stringify (videoTracks timelineAudioTracks : list VideoTrack.t)
  : Snapshot := Stringified videoTracks timelineAudioTracks.

(** [JSON.parse(text)]; [None] stands for the [SyntaxError] it throws, also
    on [undefined] (an index outside the array). *)
Definition JSON_parse (text : option Snapshot)
  : option (list VideoTrack.t * list VideoTrack.t) :=
  match text with
  | Some (Stringified v a) => Some (v, a)
  | Some (Unparseable _) => None
  | None => None
  end.

Inductive EditTool := move | razor.
Inductive InspectorTab := tab_props | tab_effects | tab_ai | tab_text.

Record State := mkState {
  videoTracks : list VideoTrack.t;
  timelineAudioTracks : list VideoTrack.t;
  videoHistory : list Snapshot;
  videoHistoryIndex : Z;
  currentVideoTime : Q;
  isVideoPlaying : bool;
  selectedClipId : option string;
  videoEditTool : EditTool;
  isMagnetEnabled : bool;
  activeInspectorTab : InspectorTab;
  timelineScale : Q;
  draggingClipId : option string;
  isScrubbing : bool;
  dragStartX : Q;
  dragOriginalStartTime : Q;
  (** [timelineContainerRef.current], as the left edge of its bounding
      rectangle; [None] while the container is not mounted. *)
  timelineContainerLeft : option Q
}.

Definition setVideoTracks (v : list VideoTrack.t) (s : State) : State :=
  mkState v (timelineAudioTracks s) (videoHistory s) (videoHistoryIndex s)
    (currentVideoTime s) (isVideoPlaying s) (selectedClipId s) (videoEditTool s)
    (isMagnetEnabled s) (activeInspectorTab s) (timelineScale s) (draggingClipId s)
    (isScrubbing s) (dragStartX s) (dragOriginalStartTime s) (timelineContainerLeft s).

Definition setTimelineAudioTracks (v : list VideoTrack.t) (s : State) : State :=
  mkState (videoTracks s) v (videoHistory s) (videoHistoryIndex s)
    (currentVideoTime s) (isVideoPlaying s) (selectedClipId s) (videoEditTool s)
    (isMagnetEnabled s) (activeInspectorTab s) (timelineScale s) (draggingClipId s)
    (isScrubbing s) (dragStartX s) (dragOriginalStartTime s) (timelineContainerLeft s).

Definition setVideoHistory (v : list Snapshot) (s : State) : State :=
  mkState (videoTracks s) (timelineAudioTracks s) v (videoHistoryIndex s)
    (currentVideoTime s) (isVideoPlaying s) (selectedClipId s) (videoEditTool s)
    (isMagnetEnabled s) (activeInspectorTab s) (timelineScale s) (draggingClipId s)
    (isScrubbing s) (dragStartX s) (dragOriginalStartTime s) (timelineContainerLeft s).

Definition setVideoHistoryIndex (v : Z) (s : State) : State :=
  mkState (videoTracks s) (timelineAudioTracks s) (videoHistory s) v
    (currentVideoTime s) (isVideoPlaying s) (selectedClipId s) (videoEditTool s)
    (isMagnetEnabled s) (activeInspectorTab s) (timelineScale s) (draggingClipId s)
    (isScrubbing s) (dragStartX s) (dragOriginalStartTime s) (timelineContainerLeft s).

Definition setCurrentVideoTime (v : Q) (s : State) : State :=
  mkState (videoTracks s) (timelineAudioTracks s) (videoHistory s) (videoHistoryIndex s)
    v (isVideoPlaying s) (selectedClipId s) (videoEditTool s)
    (isMagnetEnabled s) (activeInspectorTab s) (timelineScale s) (draggingClipId s)
    (isScrubbing s) (dragStartX s) (dragOriginalStartTime s) (timelineContainerLeft s).

Definition setSelectedClipId (v : option string) (s : State) : State :=
  mkState (videoTracks s) (timelineAudioTracks s) (videoHistory s) (videoHistoryIndex s)
    (currentVideoTime s) (isVideoPlaying s) v (videoEditTool s)
    (isMagnetEnabled s) (activeInspectorTab s) (timelineScale s) (draggingClipId s)
    (isScrubbing s) (dragStartX s) (dragOriginalStartTime s) (timelineContainerLeft s).

Definition setActiveInspectorTab (v : InspectorTab) (s : State) : State :=
  mkState (videoTracks s) (timelineAudioTracks s) (videoHistory s) (videoHistoryIndex s)
    (currentVideoTime s) (isVideoPlaying s) (selectedClipId s) (videoEditTool s)
    (isMagnetEnabled s) v (timelineScale s) (draggingClipId s)
    (isScrubbing s) (dragStartX s) (dragOriginalStartTime s) (timelineContainerLeft s).

Definition setDraggingClipId (v : option string) (s : State) : State :=
  mkState (videoTracks s) (timelineAudioTracks s) (videoHistory s) (videoHistoryIndex s)
    (currentVideoTime s) (isVideoPlaying s) (selectedClipId s) (videoEditTool s)
    (isMagnetEnabled s) (activeInspectorTab s) (timelineScale s) v
    (isScrubbing s) (dragStartX s) (dragOriginalStartTime s) (timelineContainerLeft s).

Definition setIsScrubbing (v : bool) (s : State) : State :=
  mkState (videoTracks s) (timelineAudioTracks s) (videoHistory s) (videoHistoryIndex s)
    (currentVideoTime s) (isVideoPlaying s) (selectedClipId s) (videoEditTool s)
    (isMagnetEnabled s) (activeInspectorTab s) (timelineScale s) (draggingClipId s)
    v (dragStartX s) (dragOriginalStartTime s) (timelineContainerLeft s).

Definition setDragStartX (v : Q) (s : State) : State :=
  mkState (videoTracks s) (timelineAudioTracks s) (videoHistory s) (videoHistoryIndex s)
    (currentVideoTime s) (isVideoPlaying s) (selectedClipId s) (videoEditTool s)
    (isMagnetEnabled s) (activeInspectorTab s) (timelineScale s) (draggingClipId s)
    (isScrubbing s) v (dragOriginalStartTime s) (timelineContainerLeft s).

Definition setDragOriginalStartTime (v : Q) (s : State) : State :=
  mkState (videoTracks s) (timelineAudioTracks s) (videoHistory s) (videoHistoryIndex s)
    (currentVideoTime s) (isVideoPlaying s) (selectedClipId s) (videoEditTool s)
    (isMagnetEnabled s) (activeInspectorTab s) (timelineScale s) (draggingClipId s)
    (isScrubbing s) (dragStartX s) v (timelineContainerLeft s).

Definition setVideoEditTool (v : EditTool) (s : State) : State :=
  mkState (videoTracks s) (timelineAudioTracks s) (videoHistory s) (videoHistoryIndex s)
    (currentVideoTime s) (isVideoPlaying s) (selectedClipId s) v
    (isMagnetEnabled s) (activeInspectorTab s) (timelineScale s) (draggingClipId s)
    (isScrubbing s) (dragStartX s) (dragOriginalStartTime s) (timelineContainerLeft s).

Definition setIsMagnetEnabled (v : bool) (s : State) : State :=
  mkState (videoTracks s) (timelineAudioTracks s) (videoHistory s) (videoHistoryIndex s)
    (currentVideoTime s) (isVideoPlaying s) (selectedClipId s) (videoEditTool s)
    v (activeInspectorTab s) (timelineScale s) (draggingClipId s)
    (isScrubbing s) (dragStartX s) (dragOriginalStartTime s) (timelineContainerLeft s).

Definition setTimelineScale (v : Q) (s : State) : State :=
  mkState (videoTracks s) (timelineAudioTracks s) (videoHistory s) (videoHistoryIndex s)
    (currentVideoTime s) (isVideoPlaying s) (selectedClipId s) (videoEditTool s)
    (isMagnetEnabled s) (activeInspectorTab s) v (draggingClipId s)
    (isScrubbing s) (dragStartX s) (dragOriginalStartTime s) (timelineContainerLeft s).

(** The timeline container mounting with its left edge at pixel [v]. *)
Definition setTimelineContainerLeft (v : option Q) (s : State) : State :=
  mkState (videoTracks s) (timelineAudioTracks s) (videoHistory s) (videoHistoryIndex s)
    (currentVideoTime s) (isVideoPlaying s) (selectedClipId s) (videoEditTool s)
    (isMagnetEnabled s) (activeInspectorTab s) (timelineScale s) (draggingClipId s)
    (isScrubbing s) (dragStartX s) (dragOriginalStartTime s) v.

(** The state of the first render ([useState] initial values). *)
Definition emptyTrack (id name : string) : VideoTrack.t :=
  VideoTrack.mk id name [] false false.

Definition initialState : State :=
  mkState
    [ emptyTrack "v1" "فيديو 1"; emptyTrack "v2" "فيديو 2"; emptyTrack "v3" "نصوص/FX" ]
    [ emptyTrack "a1" "صوت 1" ]
    [] (-1)%Z 0 false None move true tab_props 20 None false 0 0 None.

(** The result of a handler that can let an exception escape: [Thrown]
    carries the state updates queued before the [throw]. *)
Inductive Outcome :=
| Returned (st : State)
| Thrown (st : State).

Definition stateOf (o : Outcome) : State :=
  match o with Returned st => st | Thrown st => st end.

(** Truthiness of an id ([!selectedClipId], [!draggingClipId]): [null] and
    the empty string are falsy. *)
Definition truthy (o : option string) : bool :=
  match o with
  | Some s => negb (String.eqb s "")
  | None => false
  end.

(** [x === o] of a string and a [string | null]. *)
Definition eq_id (x : string) (o : option string) : bool :=
  match o with
  | Some s => String.eqb x s
  | None => false
  end.

(** ** Timeline extent *)

(** [[...videoTracks, ...timelineAudioTracks].flatMap(t => t.clips)] *)
Definition allClips (st : State) : list VideoClip.t :=
  flat_map VideoTrack.clips (videoTracks st ++ timelineAudioTracks st).

Definition maxTime (st : State) : Q :=
  let allClips := allClips st in
  if Nat.eqb (List.length allClips) 0 then 60
  else Math_max 60
         (map (fun c => VideoClip.startTime c + VideoClip.duration c) allClips) + 2.

(** ** Edit history *)

(** [xs.slice(0, e)] *)
Definition slice0 {A} (xs : list A) (e : Z) : list A :=
  let len := Z.of_nat (List.length xs) in
  let k := if (e <? 0)%Z then Z.max (len + e) 0 else Z.min e len in
  firstn (Z.to_nat k) xs.

(** [xs[i]]: [None] is [undefined]. *)
Definition at_index {A} (xs : list A) (i : Z) : option A :=
  if (i <? 0)%Z then None else nth_error xs (Z.to_nat i).

Definition pushVideoHistory (st : State) : State :=
  let state := JSON_stringify (videoTracks st) (timelineAudioTracks st) in
  let currentHistory := videoHistory st in
  let currentIndex := videoHistoryIndex st in
  let newHistory := slice0 currentHistory (currentIndex + 1) ++ [state] in
  let newHistory :=
    if (20 <? Z.of_nat (List.length newHistory))%Z then tl newHistory else newHistory in
  setVideoHistoryIndex (Z.of_nat (List.length newHistory) - 1)
    (setVideoHistory newHistory st).

Definition handleVideoUndo (st : State) : Outcome :=
  let currentIndex := videoHistoryIndex st in
  if (0 <? currentIndex)%Z then
    let newIndex := (currentIndex - 1)%Z in
    let st1 := setVideoHistoryIndex newIndex st in
    match JSON_parse (at_index (videoHistory st) newIndex) with
    | None => Thrown st1
    | Some (v, a) => Returned (setTimelineAudioTracks a (setVideoTracks v st1))
    end
  else Returned st.

Definition handleVideoRedo (st : State) : Outcome :=
  let currentIndex := videoHistoryIndex st in
  let history := videoHistory st in
  if (currentIndex <? Z.of_nat (List.length history) - 1)%Z then
    let newIndex := (currentIndex + 1)%Z in
    let st1 := setVideoHistoryIndex newIndex st in
    match JSON_parse (at_index history newIndex) with
    | None => Thrown st1
    | Some (v, a) => Returned (setTimelineAudioTracks a (setVideoTracks v st1))
    end
  else Returned st.

(** The mount effect: [if (videoHistory.length === 0) pushVideoHistory()]. *)
Definition mountEffect (st : State) : State :=
  if Nat.eqb (List.length (videoHistory st)) 0 then pushVideoHistory st else st.

(** ** Pointer events *)

Definition HEADER_WIDTH : Q := 120.

Record MouseEvent := mkMouseEvent { clientX : Q }.

(** [e.dataTransfer.getData('clip')]: nothing (the empty string), the text
    [handleDragStart] stored for a clip, or a text [JSON.parse] rejects. *)
Inductive ClipData :=
| NoData
| ClipJSON (sourceClip : VideoClip.t)
| BadJSON (text : string).

Record DragEvent := mkDragEvent { mouse : MouseEvent; clipData : ClipData }.

Definition getTimelineTimeFromEvent (st : State) (e : MouseEvent) : Q :=
  match timelineContainerLeft st with
  | None => 0
  | Some rectLeft =>
      let pixelX := clientX e - rectLeft in
      let contentX := pixelX - HEADER_WIDTH in
      let time := Math_max 0 [contentX / timelineScale st] in
      roundTime time
  end.

(** [getTimelineTimeFromEvent] in double precision. *)
Module DoublePointer.

Definition getTimelineTimeFromEvent (st : State) (e : MouseEvent) : Q :=
  match timelineContainerLeft st with
  | None => 0
  | Some rectLeft =>
      let pixelX := Double.sub (clientX e) rectLeft in
      let contentX := Double.sub pixelX HEADER_WIDTH in
      let time := Math_max 0 [Double.div contentX (timelineScale st)] in
      Double.roundTime time
  end.

End DoublePointer.

(** ** Clip editor *)

Definition handleDeleteClip (st : State) : State :=
  if negb (truthy (selectedClipId st)) then st
  else
    let st1 := pushVideoHistory st in
    let drop (prev : list VideoTrack.t) :=
      map (fun t =>
             VideoTrack.with_clips
               (filter (fun c => negb (eq_id (VideoClip.id c) (selectedClipId st)))
                       (VideoTrack.clips t)) t) prev in
    let st2 := setVideoTracks (drop (videoTracks st1)) st1 in
    let st3 := setTimelineAudioTracks (drop (timelineAudioTracks st2)) st2 in
    setSelectedClipId None st3.

(** The split handlers are in double precision: their guard decides at
    the boundary 0.1, where the last bit counts. *)

(** The minimum fragment guard, written the same in both split handlers:
    [relativeTime < 0.1 || (clip.duration - relativeTime) < 0.1]. *)
Definition splitRejected (clip : VideoClip.t) (relativeTime : Q) : bool :=
  Qltb relativeTime (Double.literal (1 # 10))
  || Qltb (Double.sub (VideoClip.duration clip) relativeTime) (Double.literal (1 # 10)).

(** The two fragments, written the same in both split handlers. *)
Definition clipA (clip : VideoClip.t) (splitTime : Q) : VideoClip.t :=
  VideoClip.with_trimEnd (Double.add (VideoClip.trimStart clip) splitTime)
    (VideoClip.with_duration splitTime clip).

Definition clipB (now : Z) (clip : VideoClip.t) (splitTime : Q) : VideoClip.t :=
  VideoClip.with_id (VideoClip.id clip ++ "_split_" ++ toString now)%string
    (VideoClip.with_duration
       (Double.roundTime (Double.sub (VideoClip.duration clip) splitTime))
       (VideoClip.with_trimStart (Double.add (VideoClip.trimStart clip) splitTime)
          (VideoClip.with_startTime (Double.add (VideoClip.startTime clip) splitTime)
             clip))).

(** [updateTracks], written the same in both split handlers. *)
Definition updateTracks (trackId : string) (clip a b : VideoClip.t)
    (tracks : list VideoTrack.t) : list VideoTrack.t :=
  map (fun t =>
         if negb (String.eqb (VideoTrack.id t) trackId) then t
         else VideoTrack.with_clips
                (map (fun c =>
                        if String.eqb (VideoClip.id c) (VideoClip.id clip) then a else c)
                     (VideoTrack.clips t) ++ [b]) t) tracks.

(** [{...c, trackId: t.id, isAudio: timelineAudioTracks.includes(t)}] *)
Definition tagged (trackId : string) (isAudio : bool) (c : VideoClip.t) : VideoClip.t :=
  VideoClip.with_isAudio (Some isAudio) (VideoClip.with_trackId (Some trackId) c).

(** The copies [handleSplitAtPlayhead] makes of the clips, video tracks
    first; beside each copy, the values of its [trackId] and [isAudio]. *)
Definition taggedClips (st : State) : list (VideoClip.t * string * bool) :=
  flat_map (fun t => map (fun c => (tagged (VideoTrack.id t) false c, VideoTrack.id t, false))
                         (VideoTrack.clips t))
           (videoTracks st)
  ++ flat_map (fun t => map (fun c => (tagged (VideoTrack.id t) true c, VideoTrack.id t, true))
                            (VideoTrack.clips t))
              (timelineAudioTracks st).

Definition findSelected (st : State) : option (VideoClip.t * string * bool) :=
  find (fun '(c, _, _) => eq_id (VideoClip.id c) (selectedClipId st)) (taggedClips st).

(** The part both split handlers share word for word, from the guard to the
    state update: the playhead handler runs it with [clip.trackId] and
    [clip.isAudio], the razor with its arguments [trackId], [isAudioTrack]. *)
Definition performSplit (now : Z) (clip : VideoClip.t) (trackId : string)
    (isAudio : bool) (relativeTime : Q) (st : State) : State :=
  if splitRejected clip relativeTime then st
  else
    let st1 := pushVideoHistory st in
    let splitTime := relativeTime in
    let a := clipA clip splitTime in
    let b := clipB now clip splitTime in
    if isAudio
    then setTimelineAudioTracks
           (updateTracks trackId clip a b (timelineAudioTracks st1)) st1
    else setVideoTracks (updateTracks trackId clip a b (videoTracks st1)) st1.

Definition handleSplitAtPlayhead (now : Z) (st : State) : State :=
  if negb (truthy (selectedClipId st)) then st
  else
    match findSelected st with
    | None => st
    | Some (clip, trackId, isAudio) =>
        let relativeTime :=
          Double.roundTime (Double.sub (currentVideoTime st) (VideoClip.startTime clip)) in
        performSplit now clip trackId isAudio relativeTime st
    end.

Definition handleClipMouseDown (now : Z) (e : MouseEvent) (clip : VideoClip.t)
    (trackId : string) (isAudioTrack : bool) (st : State) : State :=
  match videoEditTool st with
  | razor =>
      let globalTime := DoublePointer.getTimelineTimeFromEvent st e in
      let relativeTime :=
        Double.roundTime (Double.sub globalTime (VideoClip.startTime clip)) in
      performSplit now clip trackId isAudioTrack relativeTime st
  | move =>
      let st1 := setSelectedClipId (Some (VideoClip.id clip)) st in
      let st2 :=
        match VideoClip.type clip with
        | text => setActiveInspectorTab tab_text st1
        | _ => setActiveInspectorTab tab_props st1
        end in
      let st3 := setDraggingClipId (Some (VideoClip.id clip)) st2 in
      let st4 := setDragStartX (clientX e) st3 in
      setDragOriginalStartTime (VideoClip.startTime clip) st4
  end.

Definition handleTrackDrop (now : Z) (e : DragEvent) (trackId : string)
    (isAudioTrack : bool) (st : State) : Outcome :=
  match clipData e with
  | NoData => Returned st
  | BadJSON _ => Thrown st
  | ClipJSON sourceClip =>
      let dropTime := getTimelineTimeFromEvent st (mouse e) in
      let tracks := if isAudioTrack then timelineAudioTracks st else videoTracks st in
      let isTrackEmpty :=
        match find (fun t => String.eqb (VideoTrack.id t) trackId) tracks with
        | Some track => Nat.eqb (List.length (VideoTrack.clips track)) 0
        | None => false
        end in
      let finalTime := if isTrackEmpty then 0 else dropTime in
      let newClip :=
        VideoClip.with_startTime finalTime
          (VideoClip.with_id (toString now) sourceClip) in
      let st1 := pushVideoHistory st in
      let add (prev : list VideoTrack.t) :=
        map (fun t =>
               if String.eqb (VideoTrack.id t) trackId
               then VideoTrack.with_clips (VideoTrack.clips t ++ [newClip]) t
               else t) prev in
      if isAudioTrack
      then Returned (setTimelineAudioTracks (add (timelineAudioTracks st1)) st1)
      else Returned (setVideoTracks (add (videoTracks st1)) st1)
  end.

Definition updateSelectedClip (updates : VideoClip.partial) (st : State) : State :=
  if negb (truthy (selectedClipId st)) then st
  else
    let applyUpdate (tracks : list VideoTrack.t) :=
      map (fun t =>
             VideoTrack.with_clips
               (map (fun c =>
                       if eq_id (VideoClip.id c) (selectedClipId st)
                       then VideoClip.merge c updates else c)
                    (VideoTrack.clips t)) t) tracks in
    let st1 := setVideoTracks (applyUpdate (videoTracks st)) st in
    setTimelineAudioTracks (applyUpdate (timelineAudioTracks st1)) st1.

Definition toggleTrackMute (trackId : string) (isAudioTrack : bool) (st : State)
  : State :=
  let st1 := pushVideoHistory st in
  let toggle (prev : list VideoTrack.t) :=
    map (fun t =>
           if String.eqb (VideoTrack.id t) trackId
           then VideoTrack.with_isMuted (negb (VideoTrack.isMuted t)) t
           else t) prev in
  if isAudioTrack
  then setTimelineAudioTracks (toggle (timelineAudioTracks st1)) st1
  else setVideoTracks (toggle (videoTracks st1)) st1.

(** *** Move with magnet snap *)

(** One turn of [for (const other of allClips)]: the clip being dragged is
    skipped; the end boundary is tested first, then the start boundary,
    each against the value the variable holds at that point. *)
Definition snapStep (draggingClipId : option string) (snapThreshold : Q)
    (newStartTime : Q) (other : VideoClip.t) : Q :=
  if eq_id (VideoClip.id other) draggingClipId then newStartTime
  else
    let newStartTime :=
      if Qltb (Qabs (newStartTime - (VideoClip.startTime other + VideoClip.duration other)))
              snapThreshold
      then VideoClip.startTime other + VideoClip.duration other
      else newStartTime in
    if Qltb (Qabs (newStartTime - VideoClip.startTime other)) snapThreshold
    then VideoClip.startTime other
    else newStartTime.

Definition snapLoop (draggingClipId : option string) (snapThreshold : Q)
    (clips : list VideoClip.t) (newStartTime : Q) : Q :=
  fold_left (snapStep draggingClipId snapThreshold) clips newStartTime.

(** The body of [if (isMagnetEnabled) { ... }]. *)
Definition magnetSnap (draggingClipId : option string) (snapThreshold : Q)
    (clips : list VideoClip.t) (newStartTime : Q) : Q :=
  let newStartTime := snapLoop draggingClipId snapThreshold clips newStartTime in
  if Qltb newStartTime snapThreshold then 0 else newStartTime.

(** The start time [handleTimelineMouseMove] computes for the dragged clip. *)
Definition dragStartTime (st : State) (e : MouseEvent) : Q :=
  let deltaPixels := clientX e - dragStartX st in
  let deltaSeconds := deltaPixels / timelineScale st in
  let newStartTime := dragOriginalStartTime st + deltaSeconds in
  let newStartTime := roundTime newStartTime in
  let newStartTime := if Qltb newStartTime 0 then 0 else newStartTime in
  if isMagnetEnabled st then
    let snapThreshold := 15 / timelineScale st in
    magnetSnap (draggingClipId st) snapThreshold (allClips st) newStartTime
  else newStartTime.

Definition handleTimelineMouseMove (e : MouseEvent) (st : State) : State :=
  if isScrubbing st then setCurrentVideoTime (getTimelineTimeFromEvent st e) st
  else if negb (truthy (draggingClipId st)) then st
  else
    match videoEditTool st with
    | razor => st
    | move =>
        let newStartTime := dragStartTime st e in
        let updateClipInTracks (tracks : list VideoTrack.t) :=
          map (fun t =>
                 VideoTrack.with_clips
                   (map (fun c =>
                           if eq_id (VideoClip.id c) (draggingClipId st)
                           then VideoClip.with_startTime newStartTime c else c)
                        (VideoTrack.clips t)) t) tracks in
        let st1 := setVideoTracks (updateClipInTracks (videoTracks st)) st in
        setTimelineAudioTracks (updateClipInTracks (timelineAudioTracks st1)) st1
    end.

Definition handleTimelineMouseUp (st : State) : State :=
  let st1 := if truthy (draggingClipId st) then pushVideoHistory st else st in
  setIsScrubbing false (setDraggingClipId None st1).

(** ** Active-clip resolver *)

Record VisibleClip := mkVisibleClip {
  clip : VideoClip.t;
  track : VideoTrack.t;
  trackIndex : nat
}.

Record ActiveClips := mkActiveClips {
  visibleClips : list VisibleClip;
  activeAudioClip : option VideoClip.t;
  activeAudioTrack : option VideoTrack.t
}.

Definition lookAhead : Q := 5 # 100.

(** The predicate of [track.clips.find] on a video track. *)
Definition visibleAt (currentVideoTime : Q) (c : VideoClip.t) : bool :=
  Qgeb (currentVideoTime + lookAhead) (VideoClip.startTime c)
  && Qltb currentVideoTime (VideoClip.startTime c + VideoClip.duration c).

(** The predicate of [track.clips.find] on a timeline audio track. *)
Definition audibleAt (currentVideoTime : Q) (c : VideoClip.t) : bool :=
  Qgeb currentVideoTime (VideoClip.startTime c)
  && Qltb currentVideoTime (VideoClip.startTime c + VideoClip.duration c).

(** [videoTracks.forEach((track, idx) => ...)], from index [idx] on. *)
Fixpoint collectVisible (currentVideoTime : Q) (idx : nat)
    (tracks : list VideoTrack.t) : list VisibleClip :=
  match tracks with
  | [] => []
  | track :: rest =>
      let more := collectVisible currentVideoTime (S idx) rest in
      if VideoTrack.isMuted track then more
      else match find (visibleAt currentVideoTime) (VideoTrack.clips track) with
           | Some clip => mkVisibleClip clip track idx :: more
           | None => more
           end
  end.

(** [visibleClips.sort((a, b) => a.trackIndex - b.trackIndex)]: a stable
    sort, here by insertion. *)
Fixpoint insertByTrackIndex (x : VisibleClip) (xs : list VisibleClip)
  : list VisibleClip :=
  match xs with
  | [] => [x]
  | y :: ys =>
      if Nat.ltb (trackIndex x) (trackIndex y) then x :: xs
      else y :: insertByTrackIndex x ys
  end.

Definition sortByTrackIndex (xs : list VisibleClip) : list VisibleClip :=
  fold_left (fun acc x => insertByTrackIndex x acc) xs [].

(** [for (const track of timelineAudioTracks) { ... break; }] *)
Fixpoint firstAudible (currentVideoTime : Q) (tracks : list VideoTrack.t)
  : option (VideoClip.t * VideoTrack.t) :=
  match tracks with
  | [] => None
  | track :: rest =>
      if VideoTrack.isMuted track then firstAudible currentVideoTime rest
      else match find (audibleAt currentVideoTime) (VideoTrack.clips track) with
           | Some clip => Some (clip, track)
           | None => firstAudible currentVideoTime rest
           end
  end.

Definition getAllActiveClips (st : State) : ActiveClips :=
  let visible :=
    sortByTrackIndex (collectVisible (currentVideoTime st) 0 (videoTracks st)) in
  match firstAudible (currentVideoTime st) (timelineAudioTracks st) with
  | Some (c, t) => mkActiveClips visible (Some c) (Some t)
  | None => mkActiveClips visible None None
  end.

(** ** The magnet and the resolver in double precision

    The threshold tests of the magnet and the look-ahead test of the
    resolver decide at boundaries where the last bit counts; these are
    the same loops with every sum and difference rounded. *)
Module DoubleMagnet.

Definition snapStep (draggingClipId : option string) (snapThreshold : Q)
    (newStartTime : Q) (other : VideoClip.t) : Q :=
  if eq_id (VideoClip.id other) draggingClipId then newStartTime
  else
    let otherEnd := Double.add (VideoClip.startTime other) (VideoClip.duration other) in
    let newStartTime :=
      if Qltb (Qabs (Double.sub newStartTime otherEnd)) snapThreshold
      then otherEnd
      else newStartTime in
    if Qltb (Qabs (Double.sub newStartTime (VideoClip.startTime other))) snapThreshold
    then VideoClip.startTime other
    else newStartTime.

Definition snapLoop (draggingClipId : option string) (snapThreshold : Q)
    (clips : list VideoClip.t) (newStartTime : Q) : Q :=
  fold_left (snapStep draggingClipId snapThreshold) clips newStartTime.

(** The body of [if (isMagnetEnabled) { ... }]. *)
Definition magnetSnap (draggingClipId : option string) (snapThreshold : Q)
    (clips : list VideoClip.t) (newStartTime : Q) : Q :=
  let newStartTime := snapLoop draggingClipId snapThreshold clips newStartTime in
  if Qltb newStartTime snapThreshold then 0 else newStartTime.

End DoubleMagnet.

Module DoubleResolver.

Definition lookAhead : Q := Double.literal (5 # 100).

Definition visibleAt (currentVideoTime : Q) (c : VideoClip.t) : bool :=
  Qgeb (Double.add currentVideoTime lookAhead) (VideoClip.startTime c)
  && Qltb currentVideoTime (Double.add (VideoClip.startTime c) (VideoClip.duration c)).

Definition audibleAt (currentVideoTime : Q) (c : VideoClip.t) : bool :=
  Qgeb currentVideoTime (VideoClip.startTime c)
  && Qltb currentVideoTime (Double.add (VideoClip.startTime c) (VideoClip.duration c)).

Fixpoint collectVisible (currentVideoTime : Q) (idx : nat)
    (tracks : list VideoTrack.t) : list VisibleClip :=
  match tracks with
  | [] => []
  | track :: rest =>
      let more := collectVisible currentVideoTime (S idx) rest in
      if VideoTrack.isMuted track then more
      else match find (visibleAt currentVideoTime) (VideoTrack.clips track) with
           | Some clip => mkVisibleClip clip track idx :: more
           | None => more
           end
  end.

Fixpoint firstAudible (currentVideoTime : Q) (tracks : list VideoTrack.t)
  : option (VideoClip.t * VideoTrack.t) :=
  match tracks with
  | [] => None
  | track :: rest =>
      if VideoTrack.isMuted track then firstAudible currentVideoTime rest
      else match find (audibleAt currentVideoTime) (VideoTrack.clips track) with
           | Some clip => Some (clip, track)
           | None => firstAudible currentVideoTime rest
           end
  end.

Definition getAllActiveClips (st : State) : ActiveClips :=
  let visible :=
    sortByTrackIndex (collectVisible (currentVideoTime st) 0 (videoTracks st)) in
  match firstAudible (currentVideoTime st) (timelineAudioTracks st) with
  | Some (c, t) => mkActiveClips visible (Some c) (Some t)
  | None => mkActiveClips visible None None
  end.

End DoubleResolver.

(** ** Playhead and clock *)

Definition setIsVideoPlaying (v : bool) (s : State) : State :=
  mkState (videoTracks s) (timelineAudioTracks s) (videoHistory s) (videoHistoryIndex s)
    (currentVideoTime s) v (selectedClipId s) (videoEditTool s)
    (isMagnetEnabled s) (activeInspectorTab s) (timelineScale s) (draggingClipId s)
    (isScrubbing s) (dragStartX s) (dragOriginalStartTime s) (timelineContainerLeft s).

Definition updatePlayheadPosition (e : MouseEvent) (st : State) : State :=
  setCurrentVideoTime (getTimelineTimeFromEvent st e) st.

Definition handleTimelineMouseDownWrapper (e : MouseEvent) (st : State) : State :=
  let st1 := setIsScrubbing true st in
  let st2 := setIsVideoPlaying false st1 in
  setCurrentVideoTime (getTimelineTimeFromEvent st e) st2.

(** What one call of [animate] leaves: the state, the value of
    [lastTimeRef.current], and whether [handleStopRecording] was called. *)
Record Frame := mkFrame {
  frameState : State;
  lastTimeRef : Q;
  stopRecordingCalled : bool
}.

(** [animate(time)], in milliseconds, with [lastTimeRef.current = lastTime]
    (a number from the first render on, so the test against [undefined]
    passes) and [recording] for [recordingState === 'recording'].  The call
    of [requestAnimationFrame] that re-arms the loop is not part of the
    state. *)
Definition animate (recording : bool) (time lastTime : Q) (st : State) : Frame :=
  let deltaTime := (time - lastTime) / 1000 in
  let safeDelta := Qmin deltaTime (1 # 10) in
  let nextTime := currentVideoTime st + safeDelta in
  if Qgeb nextTime (maxTime st)
  then mkFrame (setCurrentVideoTime (maxTime st) (setIsVideoPlaying false st))
         time recording
  else mkFrame (setCurrentVideoTime nextTime st) time false.

(** ** Media synchroniser *)

(** What the effect reads and writes of an [HTMLVideoElement]. *)
Record MediaElement := mkMediaElement {
  el_currentTime : Q;
  el_playbackRate : Q;
  el_paused : bool;
  el_muted : bool;
  el_volume : Q;
  el_readyState : nat
}.

(** [x || d] on numbers: 0 is falsy. *)
Definition orNumber (x d : Q) : Q := if Qeq_bool x 0 then d else x.

(** [Math.max(0, Math.min(1, x))] *)
Definition clamp01 (x : Q) : Q := Qmax 0 (Qmin 1 x).

(** The body of [visibleClips.forEach] in the media-sync effect, for a clip
    whose element [el] is in [videoRefs].  [playAllowed] says whether the
    browser lets [el.play()] start playback (its rejection is swallowed by
    the empty [catch]). *)
Definition syncVideoElement (playAllowed : bool) (st : State) (clip : VideoClip.t)
    (track : VideoTrack.t) (el : MediaElement) : MediaElement :=
  match VideoClip.type clip with
  | video =>
      if Nat.leb 1 (el_readyState el) then
        let clipTime :=
          (currentVideoTime st - VideoClip.startTime clip) + VideoClip.trimStart clip in
        let tolerance := if isVideoPlaying st then 4 # 10 else 5 # 100 in
        let currentTime :=
          if Qltb tolerance (Qabs (el_currentTime el - clipTime))
          then clipTime else el_currentTime el in
        let rate := orNumber (VideoClip.speed clip) 100 / 100 in
        let playbackRate :=
          if negb (Qeq_bool (el_playbackRate el) rate) then rate else el_playbackRate el in
        let paused :=
          if isVideoPlaying st && el_paused el then negb playAllowed
          else if negb (isVideoPlaying st) && negb (el_paused el) then true
          else el_paused el in
        let muted := VideoTrack.isMuted track in
        let volume :=
          clamp01 ((orNumber (VideoClip.volume clip) 100 / 100)
                   * fadeFactor (currentVideoTime st) clip) in
        mkMediaElement currentTime playbackRate paused muted volume (el_readyState el)
      else el
  | _ => el
  end.

(** ** Audio studio (types.ts, class AudioGraph) *)

Module AudioTrack.
Record eq_t := mkEq { low : Q; mid : Q; high : Q }.

Record t := mk {
  id : string;
  name : string;
  url : string;
  duration : Q;
  volume : Q;
  pan : Q;
  isMuted : bool;
  isSolo : bool;
  eq : eq_t;
  reverb : Q
}.
End AudioTrack.

(** A [Map<string, V>]: the entries in insertion order, one per key. *)
Definition JsMap (V : Type) : Type := list (string * V).

Definition map_get {V} (m : JsMap V) (k : string) : option V :=
  match find (fun kv => String.eqb (fst kv) k) m with
  | Some kv => Some (snd kv)
  | None => None
  end.

Definition map_has {V} (m : JsMap V) (k : string) : bool :=
  match map_get m k with Some _ => true | None => false end.

Fixpoint map_set {V} (m : JsMap V) (k : string) (v : V) : JsMap V :=
  match m with
  | [] => [(k, v)]
  | (k', v') :: rest =>
      if String.eqb k' k then (k, v) :: rest else (k', v') :: map_set rest k v
  end.

Definition map_delete {V} (m : JsMap V) (k : string) : JsMap V :=
  filter (fun kv => negb (String.eqb (fst kv) k)) m.

(** The nodes of the graph a [connect] can name. *)
Inductive NodeRef :=
| LowOf (id : string)
| MidOf (id : string)
| HighOf (id : string)
| PanOf (id : string)
| GainOf (id : string)
| MasterGain
| Destination.

Inductive BiquadFilterType := lowpass | lowshelf | peaking | highshelf.

Record MediaElementAudioSourceNode := mkSource {
  mediaElement : string;
  source_outputs : list NodeRef
}.

Record BiquadFilterNode := mkBiquad {
  biquad_type : BiquadFilterType;
  frequency : Q;
  Q_value : Q;
  biquad_gain : Q;
  biquad_outputs : list NodeRef
}.

Record StereoPannerNode := mkPanner {
  pan_value : Q;
  panner_outputs : list NodeRef
}.

Record GainNode := mkGain {
  gain_value : Q;
  gain_outputs : list NodeRef
}.

Record EqNodes := mkEqNodes {
  eq_low : BiquadFilterNode;
  eq_mid : BiquadFilterNode;
  eq_high : BiquadFilterNode
}.

Record AudioGraph := mkAudioGraph {
  sources : JsMap MediaElementAudioSourceNode;
  gains : JsMap GainNode;
  eqs : JsMap EqNodes;
  pans : JsMap StereoPannerNode;
  masterGain : GainNode
}.

(** The nodes as the Web Audio factory methods make them. *)
Definition createBiquadFilter : BiquadFilterNode := mkBiquad lowpass 350 1 0 [].
Definition createStereoPanner : StereoPannerNode := mkPanner 0 [].
Definition createGain : GainNode := mkGain 1 [].

(** [new AudioGraph()] *)
Definition newAudioGraph : AudioGraph :=
  mkAudioGraph [] [] [] [] (mkGain 1 [Destination]).

(** [addTrack(id, element)] *)
Definition addTrack (id : string) (element : string) (g : AudioGraph) : AudioGraph :=
  if map_has (sources g) id then g
  else
    let source := mkSource element [LowOf id] in
    let low := mkBiquad lowshelf 320 (Q_value createBiquadFilter)
                 (biquad_gain createBiquadFilter) [MidOf id] in
    let mid := mkBiquad peaking 1000 (1 # 2) (biquad_gain createBiquadFilter) [HighOf id] in
    let high := mkBiquad highshelf 3200 (Q_value createBiquadFilter)
                  (biquad_gain createBiquadFilter) [PanOf id] in
    let pan := mkPanner (pan_value createStereoPanner) [GainOf id] in
    let gain := mkGain (gain_value createGain) [MasterGain] in
    mkAudioGraph (map_set (sources g) id source)
                 (map_set (gains g) id gain)
                 (map_set (eqs g) id (mkEqNodes low mid high))
                 (map_set (pans g) id pan)
                 (masterGain g).

Definition setBiquadGain (v : Q) (n : BiquadFilterNode) : BiquadFilterNode :=
  mkBiquad (biquad_type n) (frequency n) (Q_value n) v (biquad_outputs n).

(** [updateTrack(id, params)] *)
Definition updateTrack (id : string) (params : AudioTrack.t) (g : AudioGraph)
  : AudioGraph :=
  let eqs' :=
    match map_get (eqs g) id with
    | Some eq =>
        map_set (eqs g) id
          (mkEqNodes
             (setBiquadGain (AudioTrack.low (AudioTrack.eq params)) (eq_low eq))
             (setBiquadGain (AudioTrack.mid (AudioTrack.eq params)) (eq_mid eq))
             (setBiquadGain (AudioTrack.high (AudioTrack.eq params)) (eq_high eq)))
    | None => eqs g
    end in
  let pans' :=
    match map_get (pans g) id with
    | Some pan => map_set (pans g) id (mkPanner (AudioTrack.pan params) (panner_outputs pan))
    | None => pans g
    end in
  let gains' :=
    match map_get (gains g) id with
    | Some gain =>
        map_set (gains g) id
          (mkGain (if AudioTrack.isMuted params then 0 else AudioTrack.volume params / 100)
                  (gain_outputs gain))
    | None => gains g
    end in
  mkAudioGraph (sources g) gains' eqs' pans' (masterGain g).

(** [removeTrack(id)]: the two [disconnect] calls empty the outputs of nodes
    that the four [delete] calls then drop. *)
Definition removeTrack (id : string) (g : AudioGraph) : AudioGraph :=
  mkAudioGraph (map_delete (sources g) id) (map_delete (gains g) id)
               (map_delete (eqs g) id) (map_delete (pans g) id) (masterGain g).

(** The effect that keeps the graph in step with [audioStudioTracks]:
    [refs] is [audioStudioRefs.current.get]. *)
Definition syncAudioEngine (refs : string -> option string)
    (audioStudioTracks : list AudioTrack.t) (g : AudioGraph) : AudioGraph :=
  fold_left
    (fun graph track =>
       match refs (AudioTrack.id track) with
       | Some el => updateTrack (AudioTrack.id track) track
                      (addTrack (AudioTrack.id track) el graph)
       | None => graph
       end)
    audioStudioTracks g.

(** The track [handleAudioStudioUpload] appends for a file. *)
Definition uploadedTrack (now : Z) (fileName objectUrl : string) : AudioTrack.t :=
  AudioTrack.mk (toString now) fileName objectUrl 60 80 0 false false
    (AudioTrack.mkEq 0 0 0) 0.

(** ** Image workspace (types.ts and the gallery handlers) *)

Inductive ToolMode :=
| GENERATION | REMOVE_BG | OBJECT_REMOVAL | REPLACE_BG | UPSCALE | RELIGHT
| NANO_BANANA | MANUAL | VISION | SMART_DASHBOARD.

Module ManualFilters.
Record t := mk {
  brightness : Q;
  contrast : Q;
  saturation : Q;
  blur : Q;
  grayscale : Q;
  sepia : Q
}.
End ManualFilters.

Definition DEFAULT_FILTERS : ManualFilters.t := ManualFilters.mk 100 100 100 0 0 0.

Record SmartSuggestion := mkSmartSuggestion {
  suggestion_id : string;
  suggestion_label : string;
  suggestion_description : string;
  suggestion_tool : ToolMode;
  suggestion_prompt : string
}.

Module GalleryImage.
(** [currentData] is [None] when it holds [undefined], which an index
    outside [history] puts there. *)
Record t := mk {
  id : string;
  originalData : string;
  currentData : option string;
  history : list string;
  historyIndex : Z;
  filters : ManualFilters.t;
  isProcessing : bool;
  suggestions : list SmartSuggestion
}.

Definition with_isProcessing (v : bool) (img : t) : t :=
  mk (id img) (originalData img) (currentData img) (history img) (historyIndex img)
     (filters img) v (suggestions img).

Definition with_filters (v : ManualFilters.t) (img : t) : t :=
  mk (id img) (originalData img) (currentData img) (history img) (historyIndex img)
     v (isProcessing img) (suggestions img).

Definition with_history (v : list string) (img : t) : t :=
  mk (id img) (originalData img) (currentData img) v (historyIndex img)
     (filters img) (isProcessing img) (suggestions img).
End GalleryImage.

Definition MAX_HISTORY_STACK : Z := 10.

Record ImageState := mkImageState {
  gallery : list GalleryImage.t;
  activeImageId : option string
}.

(** [gallery.find(img => img.id === activeImageId)] *)
Definition activeImage (st : ImageState) : option GalleryImage.t :=
  find (fun img => eq_id (GalleryImage.id img) (activeImageId st)) (gallery st).

(** The image [handleFileUpload] and the generation branch of
    [handleExecuteActive] make from image data; [newId] is the random id. *)
Definition newImage (newId result : string) : GalleryImage.t :=
  GalleryImage.mk newId result (Some result) [result] 0 DEFAULT_FILTERS false [].

(** The [onloadend] update of [handleFileUpload]; [seen] is the
    [activeImageId] of the render that made the handler. *)
Definition uploadImage (seen : option string) (newId result : string)
    (st : ImageState) : ImageState :=
  mkImageState (gallery st ++ [newImage newId result])
    (if negb (truthy seen) then Some newId else activeImageId st).

(** [processSingleImage] before its [await]: nothing for an image that is
    being processed, else the processing flag set. *)
Definition startProcessing (image : GalleryImage.t) (st : ImageState) : ImageState :=
  if GalleryImage.isProcessing image then st
  else mkImageState
         (map (fun img => if String.eqb (GalleryImage.id img) (GalleryImage.id image)
                          then GalleryImage.with_isProcessing true img else img)
              (gallery st))
         (activeImageId st).

(** The update of one image when [action] resolves with [result]. *)
Definition recordResult (result : string) (img : GalleryImage.t) : GalleryImage.t :=
  let newHistory :=
    slice0 (GalleryImage.history img) (GalleryImage.historyIndex img + 1) ++ [result] in
  let newHistory :=
    if (MAX_HISTORY_STACK <? Z.of_nat (List.length newHistory))%Z
    then tl newHistory else newHistory in
  GalleryImage.mk (GalleryImage.id img) (GalleryImage.originalData img) (Some result)
    newHistory (Z.of_nat (List.length newHistory) - 1) (GalleryImage.filters img)
    false (GalleryImage.suggestions img).

(** [processSingleImage] after its [await], [action] resolved. *)
Definition finishProcessing (image : GalleryImage.t) (result : string)
    (st : ImageState) : ImageState :=
  mkImageState
    (map (fun img => if negb (String.eqb (GalleryImage.id img) (GalleryImage.id image))
                     then img else recordResult result img)
         (gallery st))
    (activeImageId st).

(** [processSingleImage] after its [await], [action] rejected. *)
Definition failProcessing (image : GalleryImage.t) (st : ImageState) : ImageState :=
  mkImageState
    (map (fun img => if String.eqb (GalleryImage.id img) (GalleryImage.id image)
                     then GalleryImage.with_isProcessing false img else img)
         (gallery st))
    (activeImageId st).

(** [{ ...img, historyIndex: newIndex, currentData: img.history[newIndex] }] *)
Definition goTo (newIndex : Z) (img : GalleryImage.t) : GalleryImage.t :=
  GalleryImage.mk (GalleryImage.id img) (GalleryImage.originalData img)
    (at_index (GalleryImage.history img) newIndex) (GalleryImage.history img)
    newIndex (GalleryImage.filters img) (GalleryImage.isProcessing img)
    (GalleryImage.suggestions img).

Definition handleUndo (st : ImageState) : ImageState :=
  match activeImage st with
  | None => st
  | Some active =>
      if (GalleryImage.historyIndex active <=? 0)%Z then st
      else mkImageState
             (map (fun img =>
                     if negb (String.eqb (GalleryImage.id img) (GalleryImage.id active))
                     then img else goTo (GalleryImage.historyIndex img - 1) img)
                  (gallery st))
             (activeImageId st)
  end.

Definition handleRedo (st : ImageState) : ImageState :=
  match activeImage st with
  | None => st
  | Some active =>
      if (Z.of_nat (List.length (GalleryImage.history active)) - 1
          <=? GalleryImage.historyIndex active)%Z then st
      else mkImageState
             (map (fun img =>
                     if negb (String.eqb (GalleryImage.id img) (GalleryImage.id active))
                     then img else goTo (GalleryImage.historyIndex img + 1) img)
                  (gallery st))
             (activeImageId st)
  end.


(** The gallery of the project object [handleSaveProject] writes:
    [gallery.map(g => ({...g, history: []}))]. *)
Definition savedGallery (st : ImageState) : list GalleryImage.t :=
  map (GalleryImage.with_history []) (gallery st).

(** [if (json.gallery) setGallery(json.gallery)] of [handleLoadProject], on
    a parsed project whose [gallery] field is [saved]; an array is truthy.
    The JSON text in between is taken to give back the strings, numbers and
    booleans it was made from. *)
Definition loadGallery (saved : list GalleryImage.t) (st : ImageState) : ImageState :=
  mkImageState saved (activeImageId st).

(** Sample galleries. *)
Definition emptyGallery : ImageState := mkImageState [] None.

Definition oneImage : ImageState :=
  uploadImage None "img1" "data0" emptyGallery.

Definition editedImage : ImageState :=
  finishProcessing (newImage "img1" "data0") "data1" oneImage.

Definition steppedBack : ImageState := handleUndo editedImage.

(** [keyof ManualFilters] *)
Inductive FilterKey :=
| key_brightness | key_contrast | key_saturation | key_blur | key_grayscale | key_sepia.

(** [{ ...filters, [key]: value }] *)
Definition setFilter (key : FilterKey) (value : Q) (f : ManualFilters.t)
  : ManualFilters.t :=
  match key with
  | key_brightness =>
      ManualFilters.mk value (ManualFilters.contrast f) (ManualFilters.saturation f)
        (ManualFilters.blur f) (ManualFilters.grayscale f) (ManualFilters.sepia f)
  | key_contrast =>
      ManualFilters.mk (ManualFilters.brightness f) value (ManualFilters.saturation f)
        (ManualFilters.blur f) (ManualFilters.grayscale f) (ManualFilters.sepia f)
  | key_saturation =>
      ManualFilters.mk (ManualFilters.brightness f) (ManualFilters.contrast f) value
        (ManualFilters.blur f) (ManualFilters.grayscale f) (ManualFilters.sepia f)
  | key_blur =>
      ManualFilters.mk (ManualFilters.brightness f) (ManualFilters.contrast f)
        (ManualFilters.saturation f) value (ManualFilters.grayscale f)
        (ManualFilters.sepia f)
  | key_grayscale =>
      ManualFilters.mk (ManualFilters.brightness f) (ManualFilters.contrast f)
        (ManualFilters.saturation f) (ManualFilters.blur f) value
        (ManualFilters.sepia f)
  | key_sepia =>
      ManualFilters.mk (ManualFilters.brightness f) (ManualFilters.contrast f)
        (ManualFilters.saturation f) (ManualFilters.blur f)
        (ManualFilters.grayscale f) value
  end.

(** [filters[key]] *)
Definition getFilter (key : FilterKey) (f : ManualFilters.t) : Q :=
  match key with
  | key_brightness => ManualFilters.brightness f
  | key_contrast => ManualFilters.contrast f
  | key_saturation => ManualFilters.saturation f
  | key_blur => ManualFilters.blur f
  | key_grayscale => ManualFilters.grayscale f
  | key_sepia => ManualFilters.sepia f
  end.

Definition updateFilters (key : FilterKey) (value : Q) (st : ImageState) : ImageState :=
  match activeImage st with
  | None => st
  | Some active =>
      mkImageState
        (map (fun img =>
                if String.eqb (GalleryImage.id img) (GalleryImage.id active)
                then GalleryImage.with_filters
                       (setFilter key value (GalleryImage.filters img)) img
                else img)
             (gallery st))
        (activeImageId st)
  end.

Definition applyFiltersToAll (st : ImageState) : ImageState :=
  match activeImage st with
  | None => st
  | Some active =>
      let currentFilters := GalleryImage.filters active in
      mkImageState (map (GalleryImage.with_filters currentFilters) (gallery st))
        (activeImageId st)
  end.

(** ** Sample data *)

(** The clip [handleAddText] puts in the pool. *)
Definition newTextClip (now : Z) : VideoClip.t :=
  VideoClip.mk ("txt_" ++ toString now) "نص جديد" "" text 5 1920 1080
    5 0 0 5
    100 100 0 0 0 normal
    100 100 100 0 0 none
    0 0 smooth
    (Some "اكتب النص هنا"%string) (Some 80) (Some "#ffffff"%string)
    (Some "Cairo, sans-serif"%string) None
    0 100 None None.

(** The component after its mount effect, the timeline container laid out
    with its left edge at pixel 0. *)
Definition mounted : State :=
  setTimelineContainerLeft (Some 0) (mountEffect initialState).

(** A pool clip (5 seconds long) and the drag of it to pixel [x]. *)
Definition poolClip : VideoClip.t := newTextClip 1.

Definition dragTo (x : Q) (c : VideoClip.t) : DragEvent :=
  mkDragEvent (mkMouseEvent x) (ClipJSON c).

(** The pool clip as [handleTrackDrop] places it at clock reading [2] on an
    empty track: id ["2"], interval [0, 5). *)
Definition placedClip : VideoClip.t :=
  VideoClip.with_startTime 0 (VideoClip.with_id (toString 2) poolClip).

(** The timeline after that drop on track ["v1"]. *)
Definition oneClip : State :=
  stateOf (handleTrackDrop 2 (dragTo 120 poolClip) "v1" false mounted).

(** The scenario of the drop: clip A over [0, 5) alone on track ["v1"], the
    magnet on, 5 pixels per second, so that the snap threshold is 3 seconds
    and a drop at pixel 135 asks for time 3. *)
Definition dropScenario : State := setTimelineScale 5 oneClip.

(** A history whose first entry does not parse, the cursor on the second. *)
Definition corruptBelow : State :=
  setVideoHistoryIndex 1
    (setVideoHistory [Unparseable "{"; Stringified (videoTracks oneClip) []] oneClip).

(** A history whose second entry does not parse, the cursor on the first. *)
Definition corruptAbove : State :=
  setVideoHistoryIndex 0
    (setVideoHistory [Stringified (videoTracks oneClip) []; Unparseable "{"] oneClip).

(** Two mute toggles in a row from the mounted component. *)
Definition mutedOnce : State := toggleTrackMute "v1" false mounted.
Definition mutedTwice : State := toggleTrackMute "v2" false mutedOnce.

(** The sample timeline with its clip selected, and the opacity slider moved. *)
Definition selectedOne : State := setSelectedClipId (Some (toString 2)) oneClip.
Definition dimmed : State := updateSelectedClip (VideoClip.onlyOpacity 50) selectedOne.

(** The sample timeline with the lock flag of every video track set. *)
Definition lockedOne : State :=
  setVideoTracks (map (VideoTrack.with_isLocked true) (videoTracks oneClip)) oneClip.

(** An imported clip 0.3 s long, placed at 0. *)
Definition shortClip : VideoClip.t :=
  VideoClip.with_trimEnd (Double.literal (3 # 10))
    (VideoClip.with_duration (Double.literal (3 # 10)) placedClip).

(** The sample timeline with the razor in hand. *)
Definition razorOne : State := setVideoEditTool razor oneClip.

(** The sample timeline, its clip selected, the playhead on the double
    0.09995. *)
Definition nearStart : State :=
  setCurrentVideoTime (Double.literal (9995 # 100000)) selectedOne.

(** The clip of the locked timeline grabbed with the move tool at pixel 120. *)
Definition lockedGrabbed : State :=
  handleClipMouseDown 3 (mkMouseEvent 120) placedClip "v1" false lockedOne.

(** The sample timeline with a second copy of the pool clip dropped at
    pixel 160 (time 2) on the same track: two clips over [0, 5) and [2, 7),
    the playhead at 3. *)
Definition overlapping : State :=
  setCurrentVideoTime 3
    (stateOf (handleTrackDrop 8 (dragTo 160 poolClip) "v1" false oneClip)).

(** A pool clip placed by hand: id, start and duration given. *)
Definition clipAt (id : string) (start duration : Q) : VideoClip.t :=
  VideoClip.with_duration duration
    (VideoClip.with_startTime start (VideoClip.with_id id poolClip)).

(** Three clips on track ["v1"] at 20 pixels per second (snap threshold
    0.75): X over [10.1, 15.1), Y over [9, 10.5) and the clip D that is
    dragged, grabbed at its start 10 with the move tool. *)
Definition snapTracks : list VideoTrack.t :=
  [ VideoTrack.mk "v1" "فيديو 1"
      [ clipAt "X" (101 # 10) 5; clipAt "Y" 9 (3 # 2); clipAt "D" 10 1 ] false false ].

Definition snapGrabbed : State :=
  handleClipMouseDown 9 (mkMouseEvent 320) (clipAt "D" 10 1) "v1" false
    (setVideoTracks snapTracks mounted).

(** A clip over [1.3, 2.05): exactly one snap threshold long at 20 pixels
    per second. *)
Definition thresholdLong : VideoClip.t :=
  clipAt "T" (Double.literal (13 # 10)) (Double.literal (75 # 100)).

(** A clip that starts at 0.4. *)
Definition startsLate : VideoClip.t := clipAt "L" (Double.literal (4 # 10)) 5.

(** ** Statement vocabulary *)

(** The track collection a handler is told to work on. *)
Definition collection (isAudioTrack : bool) (st : State) : list VideoTrack.t :=
  if isAudioTrack then timelineAudioTracks st else videoTracks st.

(** [st'] has the history and the cursor [pushVideoHistory] leaves from [st]. *)
Definition pushedFrom (st st' : State) : Prop :=
  videoHistory st' = videoHistory (pushVideoHistory st)
  /\ videoHistoryIndex st' = videoHistoryIndex (pushVideoHistory st).

(** [st'] is [st] apart from its two track collections and its history. *)
Definition elsewhereUntouched (st st' : State) : Prop :=
  setVideoHistoryIndex (videoHistoryIndex st)
    (setVideoHistory (videoHistory st)
       (setTimelineAudioTracks (timelineAudioTracks st)
          (setVideoTracks (videoTracks st) st'))) = st.

(** The clips of a track after the split of [c] into [a] and [b]: place by
    place the clip that was there, or [a] where it had the id of [c]; then
    [b]. *)
Definition fragmentsIn (c a b : VideoClip.t) (clips clips' : list VideoClip.t) : Prop :=
  exists front,
    clips' = front ++ [b]
    /\ Forall2 (fun x x' =>
                  x' = if String.eqb (VideoClip.id x) (VideoClip.id c) then a else x)
               clips front.

(** A track after that split on the tracks of id [trackId]: its clips
    rewritten if it has that id and as they were if not, and nothing else
    of it changed. *)
Definition trackSplit (trackId : string) (c a b : VideoClip.t)
    (t t' : VideoTrack.t) : Prop :=
  VideoTrack.with_clips (VideoTrack.clips t) t' = t
  /\ if String.eqb (VideoTrack.id t) trackId
     then fragmentsIn c a b (VideoTrack.clips t) (VideoTrack.clips t')
     else VideoTrack.clips t' = VideoTrack.clips t.

(** What a performed split leaves: the collection it works on rewritten
    track by track, the other collection and the rest of the state as they
    were, and a snapshot pushed. *)
Definition splitOf (trackId : string) (isAudio : bool) (c a b : VideoClip.t)
    (st st' : State) : Prop :=
  Forall2 (trackSplit trackId c a b) (collection isAudio st) (collection isAudio st')
  /\ collection (negb isAudio) st' = collection (negb isAudio) st
  /\ pushedFrom st st'
  /\ elsewhereUntouched st st'.




(** A clip of the scenario of the fades: 4 seconds long from [start], one
    second of fade at either end. *)
Definition fadingClip (start : Q) (k : FadeCurve) : VideoClip.t :=
  VideoClip.mk "f" "fade" "" image 4 1920 1080
    4 start 0 4
    100 100 0 0 0 normal
    100 100 100 0 0 none
    1 1 k
    None None None None None
    100 100 None None.

(** The clips of the first track of the given id. *)
Definition clipsOf (trackId : string) (tracks : list VideoTrack.t) : list VideoClip.t :=
  match find (fun t => String.eqb (VideoTrack.id t) trackId) tracks with
  | Some t => VideoTrack.clips t
  | None => []
  end.

(** The two history moves, the cursor each of them goes to and the test
    that lets it go there. *)
Inductive HistoryMove := Undo | Redo.

Definition historyStep (m : HistoryMove) (st : State) : Outcome :=
  match m with
  | Undo => handleVideoUndo st
  | Redo => handleVideoRedo st
  end.

Definition historyTarget (m : HistoryMove) (st : State) : Z :=
  match m with
  | Undo => (videoHistoryIndex st - 1)%Z
  | Redo => (videoHistoryIndex st + 1)%Z
  end.

Definition historyEnabled (m : HistoryMove) (st : State) : bool :=
  match m with
  | Undo => (0 <? videoHistoryIndex st)%Z
  | Redo => (videoHistoryIndex st <? Z.of_nat (List.length (videoHistory st)) - 1)%Z
  end.

(** The snapshot under the history cursor. *)
Definition cursorSnapshot (st : State) : option Snapshot :=
  at_index (videoHistory st) (videoHistoryIndex st).

(** The snapshot [pushVideoHistory] takes of a state. *)
Definition snapshotOf (st : State) : Snapshot :=
  JSON_stringify (videoTracks st) (timelineAudioTracks st).

Definition historyUntouched (st st' : State) : Prop :=
  videoHistory st' = videoHistory st
  /\ videoHistoryIndex st' = videoHistoryIndex st.

Definition timelineUntouched (st st' : State) : Prop :=
  videoTracks st' = videoTracks st
  /\ timelineAudioTracks st' = timelineAudioTracks st.

(** The handlers that call [pushVideoHistory] before their state updates. *)
Inductive PushingEdit :=
| DropOnTrack (now : Z) (e : DragEvent) (trackId : string) (isAudioTrack : bool)
| SplitAtPlayhead (now : Z)
| ClipMouseDown (now : Z) (e : MouseEvent) (clip : VideoClip.t) (trackId : string)
    (isAudioTrack : bool)
| DeleteSelected
| ToggleMute (trackId : string) (isAudioTrack : bool).

Definition runEdit (op : PushingEdit) (st : State) : State :=
  match op with
  | DropOnTrack now e trackId isAudioTrack =>
      stateOf (handleTrackDrop now e trackId isAudioTrack st)
  | SplitAtPlayhead now => handleSplitAtPlayhead now st
  | ClipMouseDown now e clip trackId isAudioTrack =>
      handleClipMouseDown now e clip trackId isAudioTrack st
  | DeleteSelected => handleDeleteClip st
  | ToggleMute trackId isAudioTrack => toggleTrackMute trackId isAudioTrack st
  end.

(** The lock flags of a timeline set anew, track by track. *)
Definition relockTracks (f : VideoTrack.t -> bool) (tracks : list VideoTrack.t)
  : list VideoTrack.t :=
  map (fun t => VideoTrack.with_isLocked (f t) t) tracks.

Definition relock (f : VideoTrack.t -> bool) (st : State) : State :=
  setTimelineAudioTracks (relockTracks f (timelineAudioTracks st))
    (setVideoTracks (relockTracks f (videoTracks st)) st).

(** The three edits of a track the lock flag is meant to guard. *)
Inductive TrackEdit :=
| MoveDrag (e : MouseEvent)
| RazorSplit (now : Z) (e : MouseEvent) (clip : VideoClip.t) (trackId : string)
    (isAudioTrack : bool)
| DropClip (now : Z) (e : DragEvent) (trackId : string) (isAudioTrack : bool).

Definition runTrackEdit (ed : TrackEdit) (st : State) : State :=
  match ed with
  | MoveDrag e => handleTimelineMouseMove e st
  | RazorSplit now e clip trackId isAudioTrack =>
      handleClipMouseDown now e clip trackId isAudioTrack st
  | DropClip now e trackId isAudioTrack =>
      stateOf (handleTrackDrop now e trackId isAudioTrack st)
  end.


(** Some test of the loop turn for clip [c] succeeds when the variable
    holds [v]: [c] is not the dragged clip, and its end or, failing that,
    its start is nearer to [v] than the threshold. *)
Definition snapsOn (draggingClipId : option string) (snapThreshold v : Q)
    (c : VideoClip.t) : bool :=
  negb (eq_id (VideoClip.id c) draggingClipId)
  && (Qltb (Qabs (v - VideoClip.endTime c)) snapThreshold
      || Qltb (Qabs (v - VideoClip.startTime c)) snapThreshold).

(** Some test of the loop turn for clip [c] succeeds, in double precision,
    when the variable holds [v]. *)
Definition snapsOnDouble (draggingClipId : option string) (snapThreshold v : Q)
    (c : VideoClip.t) : bool :=
  negb (eq_id (VideoClip.id c) draggingClipId)
  && (Qltb (Qabs (Double.sub v
                    (Double.add (VideoClip.startTime c) (VideoClip.duration c))))
           snapThreshold
      || Qltb (Qabs (Double.sub v (VideoClip.startTime c))) snapThreshold).

(** The start time a move asks for before the magnet: rounded, not below 0. *)
Definition dragCandidate (st : State) (e : MouseEvent) : Q :=
  let newStartTime :=
    roundTime (dragOriginalStartTime st + (clientX e - dragStartX st) / timelineScale st) in
  if Qltb newStartTime 0 then 0 else newStartTime.

(** [JSON.parse] accepts the text. *)
Definition parses (s : Snapshot) : bool :=
  match s with
  | Stringified _ _ => true
  | Unparseable _ => false
  end.

(** The events of a session in the video workspace. *)
Inductive Action :=
| Mount
| DropOn (now : Z) (e : DragEvent) (trackId : string) (isAudioTrack : bool)
| SplitKey (now : Z)
| ClipDown (now : Z) (e : MouseEvent) (clip : VideoClip.t) (trackId : string)
    (isAudioTrack : bool)
| DeleteKey
| MuteButton (trackId : string) (isAudioTrack : bool)
| Inspector (updates : VideoClip.partial)
| PointerMove (e : MouseEvent)
| PointerUp
| RulerDown (e : MouseEvent)
| UndoKey
| RedoKey
| ToolButton (tool : EditTool)
| ZoomSlider (scale : Q)
| Tick (recording : bool) (time lastTime : Q).

Definition perform (a : Action) (st : State) : State :=
  match a with
  | Mount => mountEffect st
  | DropOn now e trackId isAudioTrack =>
      stateOf (handleTrackDrop now e trackId isAudioTrack st)
  | SplitKey now => handleSplitAtPlayhead now st
  | ClipDown now e clip trackId isAudioTrack =>
      handleClipMouseDown now e clip trackId isAudioTrack st
  | DeleteKey => handleDeleteClip st
  | MuteButton trackId isAudioTrack => toggleTrackMute trackId isAudioTrack st
  | Inspector updates => updateSelectedClip updates st
  | PointerMove e => handleTimelineMouseMove e st
  | PointerUp => handleTimelineMouseUp st
  | RulerDown e => handleTimelineMouseDownWrapper e st
  | UndoKey => stateOf (handleVideoUndo st)
  | RedoKey => stateOf (handleVideoRedo st)
  | ToolButton tool => setVideoEditTool tool st
  | ZoomSlider scale => setTimelineScale scale st
  | Tick recording time lastTime => frameState (animate recording time lastTime st)
  end.

Definition run (actions : list Action) (st : State) : State :=
  fold_left (fun s a => perform a s) actions st.

(** The history is within its cap, the cursor is on an entry (or is -1 with
    no entry) and every entry parses. *)
Definition historyWellFormed (st : State) : Prop :=
  (List.length (videoHistory st) <= 20)%nat
  /\ (-1 <= videoHistoryIndex st < Z.of_nat (List.length (videoHistory st)))%Z
  /\ Forall (fun s => parses s = true) (videoHistory st).

(** Nineteen mute toggles after the mount: a history of 20 snapshots, the
    cursor on the last. *)
Definition fullHistory : State :=
  run (repeat (MuteButton "v1" false) 19) mounted.

(** The sample timeline after a second drop and one undo: three snapshots,
    the cursor on the second. *)
Definition undoneOnce : State :=
  stateOf (handleVideoUndo
             (stateOf (handleTrackDrop 8 (dragTo 160 poolClip) "v1" false oneClip))).


(** The update [{volume: v}] of the volume slider. *)
Definition volumeUpdate (v : Q) : VideoClip.partial :=
  VideoClip.mkPartial None None None None None None None None None None None
    None None None None None None None None None None None None
    None None None None None None None None (Some v) None.

(** Every table of the graph has an entry for the track. *)
Definition wired (g : AudioGraph) (id : string) : Prop :=
  map_has (sources g) id = true /\ map_has (gains g) id = true
  /\ map_has (eqs g) id = true /\ map_has (pans g) id = true.

(** No table of the graph has an entry for the track. *)
Definition unwired (g : AudioGraph) (id : string) : Prop :=
  map_has (sources g) id = false /\ map_has (gains g) id = false
  /\ map_has (eqs g) id = false /\ map_has (pans g) id = false.

(** The four tables of the graph have the same keys. *)
Definition tablesAgree (g : AudioGraph) : Prop :=
  forall id, wired g id \/ unwired g id.

(** The calls a session makes on the graph. *)
Inductive GraphCall :=
| AddTrack (id element : string)
| UpdateTrack (id : string) (params : AudioTrack.t)
| RemoveTrack (id : string).

Definition call (c : GraphCall) (g : AudioGraph) : AudioGraph :=
  match c with
  | AddTrack id element => addTrack id element g
  | UpdateTrack id params => updateTrack id params g
  | RemoveTrack id => removeTrack id g
  end.

(** The history of an image is within its cap, its cursor is on an entry
    and its current data is that entry. *)
Definition imageWellFormed (img : GalleryImage.t) : Prop :=
  (List.length (GalleryImage.history img) <= 10)%nat
  /\ (0 <= GalleryImage.historyIndex img
      < Z.of_nat (List.length (GalleryImage.history img)))%Z
  /\ GalleryImage.currentData img
     = at_index (GalleryImage.history img) (GalleryImage.historyIndex img)
  /\ GalleryImage.currentData img <> None.

(** The ids of the gallery are distinct and every image is well formed. *)
Definition galleryWellFormed (st : ImageState) : Prop :=
  NoDup (map GalleryImage.id (gallery st))
  /\ Forall imageWellFormed (gallery st).

(** What an image is apart from its filters. *)
Definition withoutFilters (img : GalleryImage.t) : GalleryImage.t :=
  GalleryImage.with_filters DEFAULT_FILTERS img.

(** * Properties *)

(** ** Comparisons *)

Lemma Qltb_lt (x y : Q) : Qltb x y = true <-> x < y.
Proof.
  unfold Qltb. rewrite negb_true_iff.
  split; intro H.
  - apply Qnot_le_lt. intro Hle. apply Qle_bool_iff in Hle. congruence.
  - destruct (Qle_bool y x) eqn:E; trivial.
    apply Qle_bool_iff in E. exfalso. apply (Qlt_not_le _ _ H E).
Qed.

Lemma Qltb_ge (x y : Q) : Qltb x y = false <-> y <= x.
Proof.
  unfold Qltb. rewrite negb_false_iff. apply Qle_bool_iff.
Qed.

Lemma Qgeb_ge (x y : Q) : Qgeb x y = true <-> y <= x.
Proof. unfold Qgeb. apply Qle_bool_iff. Qed.

Lemma Qgeb_lt (x y : Q) : Qgeb x y = false <-> x < y.
Proof.
  unfold Qgeb. split; intro H.
  - apply Qnot_le_lt. intro Hle. apply Qle_bool_iff in Hle. congruence.
  - destruct (Qle_bool y x) eqn:E; trivial.
    apply Qle_bool_iff in E. exfalso. apply (Qlt_not_le _ _ H E).
Qed.

(** ** Double precision *)

Lemma pow2_pos (k : Z) : 0 < Double.pow2 k.
Proof. apply Qpower_0_lt. reflexivity. Qed.

Lemma pow2_add (a b : Z) : Double.pow2 (a + b) == Double.pow2 a * Double.pow2 b.
Proof. apply Qpower_plus. discriminate. Qed.

Lemma pow2_le (a b : Z) : (a <= b)%Z -> Double.pow2 a <= Double.pow2 b.
Proof. intro H. apply Qpower_le_compat_l; [exact H | discriminate]. Qed.

Lemma pow2_le_inv (a b : Z) : Double.pow2 a <= Double.pow2 b -> (a <= b)%Z.
Proof. intro H. apply (Qpower_le_compat_l_inv 2); [exact H | reflexivity]. Qed.

Lemma pow2_nat (k : Z) : (0 <= k)%Z -> Double.pow2 k == inject_Z (2 ^ k).
Proof. intro H. unfold Double.pow2. now rewrite Zpower_Qpower. Qed.

Lemma Qdiv_le_cross (a b c d : Q) :
  0 <= a -> a <= b -> 0 < c -> c <= d -> a / d <= b / c.
Proof.
  intros Ha Hab Hc Hcd.
  assert (Hd : 0 < d) by (eapply Qlt_le_trans; eauto).
  apply Qle_shift_div_l; [exact Hc|].
  apply Qle_trans with a; [|exact Hab].
  assert (E : a / d * c == c / d * a) by (field; intro Z; rewrite Z in Hd; discriminate).
  rewrite E. rewrite <- (Qmult_1_l a) at 2.
  apply Qmult_le_compat_r; [|exact Ha].
  apply Qle_shift_div_r; [exact Hd|]. now rewrite Qmult_1_l.
Qed.

(** [ilog2] is not above the logarithm. *)
Lemma ilog2_lower (n d : positive) : Double.pow2 (Double.ilog2 n d) <= Zpos n # d.
Proof.
  unfold Double.ilog2.
  set (ln := Z.log2 (Zpos n)). set (ld := Z.log2 (Zpos d)).
  destruct (Qle_bool (Double.pow2 (ln - ld)) (Zpos n # d)) eqn:E.
  - now apply Qle_bool_iff.
  - clear E.
    assert (Hn : (2 ^ ln <= Zpos n)%Z) by (apply Z.log2_spec; lia).
    assert (Hd : (Zpos d < 2 ^ Z.succ ld)%Z) by (apply Z.log2_spec; lia).
    assert (Hln : (0 <= ln)%Z) by apply Z.log2_nonneg.
    assert (Hld : (0 <= ld)%Z) by apply Z.log2_nonneg.
    replace (ln - ld - 1)%Z with (ln + - (ld + 1))%Z by lia.
    rewrite pow2_add. unfold Double.pow2 at 2. rewrite Qpower_opp.
    fold (Double.pow2 (ld + 1)). rewrite !pow2_nat by lia.
    rewrite (Qmake_Qdiv (Zpos n) d).
    assert (Hd' : inject_Z (Zpos d) <= inject_Z (2 ^ (ld + 1))).
    { rewrite <- Zle_Qle. unfold Z.succ in Hd. lia. }
    assert (Hn' : inject_Z (2 ^ ln) <= inject_Z (Zpos n)) by (now rewrite <- Zle_Qle).
    apply Qdiv_le_cross; [|exact Hn'|reflexivity|exact Hd'].
    rewrite <- pow2_nat by lia. apply Qlt_le_weak, pow2_pos.
Qed.

Lemma nearest_even_error (n : Z) (d : positive) :
  Qabs (inject_Z (Double.nearest_even n d) - (n # d)) <= 1 # 2.
Proof.
  unfold Double.nearest_even.
  pose proof (Z.div_mod n (Zpos d) ltac:(lia)) as Hdm.
  pose proof (Z.mod_pos_bound n (Zpos d) ltac:(lia)) as Hr.
  set (q := (n / Zpos d)%Z) in *. set (r := (n mod Zpos d)%Z) in *.
  apply Qabs_Qle_condition.
  assert (C : forall m : Z, (2 * Z.abs (m * Zpos d - n) <= Zpos d)%Z ->
              - (1 # 2) <= inject_Z m - (n # d) <= 1 # 2).
  { intros m Hm. unfold Qle, Qminus, Qplus, Qopp, inject_Z. cbn [Qnum Qden].
    rewrite ?Pos2Z.inj_mul. split; nia. }
  destruct (Z.compare_spec (2 * r) (Zpos d)).
  - destruct (Z.even q); apply C; nia.
  - apply C; nia.
  - apply C; nia.
Qed.

Lemma ulp_exponent_le (n d : positive) (K : Z) :
  Zpos n # d <= Double.pow2 K -> (-1022 <= K)%Z ->
  (Double.ulp_exponent n d <= K - 52)%Z.
Proof.
  intros Hx HK. unfold Double.ulp_exponent.
  assert (Double.ilog2 n d <= K)%Z.
  { apply pow2_le_inv. eapply Qle_trans; [apply ilog2_lower | exact Hx]. }
  lia.
Qed.

(** The rounding of a positive number is an integer multiple of the unit
    in the last place, within half a unit of the number. *)
Lemma rnd_pos_scaled (n d : positive) :
  exists m : Z,
    Double.rnd_pos n d == inject_Z m * Double.pow2 (Double.ulp_exponent n d)
    /\ (0 <= m)%Z
    /\ Qabs (inject_Z m - (Zpos n # d) / Double.pow2 (Double.ulp_exponent n d)) <= 1 # 2.
Proof.
  unfold Double.rnd_pos. set (e := Double.ulp_exponent n d).
  set (s := (Zpos n # d) / Double.pow2 e).
  exists (Double.nearest_even (Qnum s) (Qden s)). split; [apply Qred_correct|]. split.
  - assert (Hs : 0 <= s).
    { unfold s. apply Qle_shift_div_l; [apply pow2_pos|]. rewrite Qmult_0_l. discriminate. }
    assert (Hn : (0 <= Qnum s)%Z).
    { unfold Qle in Hs. cbn [Qnum Qden] in Hs. lia. }
    unfold Double.nearest_even.
    pose proof (Z.div_pos (Qnum s) (Zpos (Qden s)) Hn ltac:(lia)).
    destruct (2 * (Qnum s mod Zpos (Qden s)) ?= Zpos (Qden s))%Z; [|lia|lia].
    destruct (Z.even _); lia.
  - pose proof (nearest_even_error (Qnum s) (Qden s)) as H.
    now destruct s.
Qed.

Lemma rnd_pos_error (n d : positive) (K : Z) :
  Zpos n # d <= Double.pow2 K -> (-1022 <= K)%Z ->
  Qabs (Double.rnd_pos n d - (Zpos n # d)) <= Double.pow2 (K - 53).
Proof.
  intros Hx HK.
  destruct (rnd_pos_scaled n d) as (m & Hm & _ & Herr).
  pose proof (ulp_exponent_le n d K Hx HK) as He.
  set (e := Double.ulp_exponent n d) in *. set (x := Zpos n # d) in *.
  pose proof (pow2_pos e) as Pe.
  assert (E : Double.rnd_pos n d - x == (inject_Z m - x / Double.pow2 e) * Double.pow2 e).
  { rewrite Hm. field. intro Z. rewrite Z in Pe. discriminate. }
  rewrite E, Qabs_Qmult, (Qabs_pos (Double.pow2 e)) by (now apply Qlt_le_weak).
  apply Qle_trans with ((1 # 2) * Double.pow2 e).
  - apply Qmult_le_compat_r; [exact Herr | now apply Qlt_le_weak].
  - apply Qle_trans with ((1 # 2) * Double.pow2 (K - 52)).
    + apply Qmult_le_l; [reflexivity | now apply pow2_le].
    + replace (K - 52)%Z with (1 + (K - 53))%Z by lia.
      rewrite pow2_add. change (Double.pow2 1) with 2. ring_simplify. apply Qle_refl.
Qed.

(** The rounding error of a number of magnitude at most [2^K], above the
    subnormal range, is at most [2^(K-53)]. *)
Lemma rnd_error (x : Q) (K : Z) :
  Qabs x <= Double.pow2 K -> (-1022 <= K)%Z ->
  Qabs (Double.rnd x - x) <= Double.pow2 (K - 53).
Proof.
  intros Hx HK. destruct x as [[|n|n] d]; unfold Double.rnd; cbn [Qnum Qden].
  - setoid_replace (0 - (0 # d)) with 0 by reflexivity.
    apply Qlt_le_weak, pow2_pos.
  - apply rnd_pos_error; [|exact HK]. exact Hx.
  - change (Z.neg n # d) with (- (Zpos n # d)).
    setoid_replace (- Double.rnd_pos n d - - (Zpos n # d))
      with (- (Double.rnd_pos n d - (Zpos n # d))) by ring.
    rewrite Qabs_opp. apply rnd_pos_error; [|exact HK]. exact Hx.
Qed.

Lemma rnd_pos_nonneg (n d : positive) : 0 <= Double.rnd_pos n d.
Proof.
  destruct (rnd_pos_scaled n d) as (m & Hm & Hpos & _). rewrite Hm.
  apply Qmult_le_0_compat; [|apply Qlt_le_weak, pow2_pos].
  change 0 with (inject_Z 0). now rewrite <- Zle_Qle.
Qed.

Lemma rnd_nonneg (x : Q) : 0 <= x -> 0 <= Double.rnd x.
Proof.
  intro H. destruct x as [[|n|n] d]; unfold Double.rnd; cbn [Qnum Qden].
  - apply Qle_refl.
  - apply rnd_pos_nonneg.
  - exfalso. unfold Qle in H. cbn in H. lia.
Qed.

Lemma rnd_nonpos (x : Q) : x <= 0 -> Double.rnd x <= 0.
Proof.
  intro H. destruct x as [[|n|n] d]; unfold Double.rnd; cbn [Qnum Qden].
  - apply Qle_refl.
  - exfalso. unfold Qle in H. cbn in H. lia.
  - pose proof (rnd_pos_nonneg n d). lra.
Qed.

(** The rounding error in the ranges the timeline works in. *)
Lemma rnd_error_within (x bound : Q) (K : Z) :
  - bound <= x -> x <= bound -> bound <= Double.pow2 K -> (-1022 <= K)%Z ->
  - Double.pow2 (K - 53) <= Double.rnd x - x /\ Double.rnd x - x <= Double.pow2 (K - 53).
Proof.
  intros Hlo Hhi Hb HK. apply Qabs_Qle_condition. apply rnd_error; [|exact HK].
  apply Qabs_Qle_condition. split; lra.
Qed.

Lemma Qfloor_unique (q : Q) (n : Z) :
  inject_Z n <= q -> q < inject_Z n + 1 -> Qfloor q = n.
Proof.
  intros Hlo Hhi.
  pose proof (Qfloor_le q) as H1. pose proof (Qlt_floor q) as H2.
  rewrite inject_Z_plus in H2. change (inject_Z 1) with 1 in H2.
  assert (A : inject_Z (Qfloor q) < inject_Z (n + 1)).
  { rewrite inject_Z_plus. change (inject_Z 1) with 1. lra. }
  assert (B : inject_Z n < inject_Z (Qfloor q + 1)).
  { rewrite inject_Z_plus. change (inject_Z 1) with 1. lra. }
  rewrite <- Zlt_Qlt in A, B. lia.
Qed.

Lemma Math_round_near (y : Q) :
  y - (1 # 2) < inject_Z (Math_round y) /\ inject_Z (Math_round y) <= y + (1 # 2).
Proof.
  unfold Math_round.
  pose proof (Qfloor_le (y + (1 # 2))) as H1. pose proof (Qlt_floor (y + (1 # 2))) as H2.
  rewrite inject_Z_plus in H2. change (inject_Z 1) with 1 in H2. split; lra.
Qed.

(** [roundTime] in double precision moves a time of the timeline by half a
    grid step and the rounding of its two operations. *)
Lemma Double_roundTime_near (x : Q) :
  - (4294967297 # 1) <= x -> x <= 4294967297 ->
  Qabs (Double.roundTime x - x) <= 52 # 1000000.
Proof.
  intros Hlo Hhi. unfold Double.roundTime, Double.div, Double.mul.
  destruct (rnd_error_within (x * 10000) 70368744177664 46) as [Y1 Y2];
    [lra | lra | vm_compute; discriminate | lia |].
  set (y := Double.rnd (x * 10000)) in *.
  destruct (Math_round_near y) as [N1 N2].
  set (n := inject_Z (Math_round y)) in *.
  change (Double.pow2 (46 - 53)) with (1 # 128) in Y1, Y2.
  destruct (rnd_error_within (n / 10000) 8589934592 33) as [Z1 Z2];
    [ unfold Qdiv; change (/ 10000) with (1 # 10000); lra
    | unfold Qdiv; change (/ 10000) with (1 # 10000); lra
    | vm_compute; discriminate | lia |].
  set (z := Double.rnd (n / 10000)) in *.
  change (Double.pow2 (33 - 53)) with (1 # 1048576) in Z1, Z2.
  unfold Qdiv in Z1, Z2. change (/ 10000) with (1 # 10000) in Z1, Z2.
  apply Qabs_Qle_condition. split; lra.
Qed.

(** In that range a second [roundTime] changes nothing. *)
Lemma Double_roundTime_fixed (x : Q) :
  - (4294967296 # 1) <= x -> x <= 4294967296 ->
  Double.roundTime (Double.roundTime x) = Double.roundTime x.
Proof.
  intros Hlo Hhi.
  pose proof (Double_roundTime_near x ltac:(lra) ltac:(lra)) as Hn.
  apply Qabs_Qle_condition in Hn. destruct Hn as [Hn1 Hn2].
  unfold Double.roundTime at 1. unfold Double.div at 1, Double.mul at 1.
  set (z := Double.roundTime x) in *.
  assert (Hz : z = Double.rnd (inject_Z (Math_round (Double.rnd (x * 10000))) / 10000))
    by reflexivity.
  destruct (rnd_error_within (x * 10000) 70368744177664 46) as [Y1 Y2];
    [lra | lra | vm_compute; discriminate | lia |].
  set (y := Double.rnd (x * 10000)) in *.
  destruct (Math_round_near y) as [N1 N2].
  set (k := Math_round y) in *. set (n := inject_Z k) in *.
  change (Double.pow2 (46 - 53)) with (1 # 128) in Y1, Y2.
  destruct (rnd_error_within (n / 10000) 8589934592 33) as [Z1 Z2];
    [ unfold Qdiv; change (/ 10000) with (1 # 10000); lra
    | unfold Qdiv; change (/ 10000) with (1 # 10000); lra
    | vm_compute; discriminate | lia |].
  rewrite <- Hz in Z1, Z2.
  change (Double.pow2 (33 - 53)) with (1 # 1048576) in Z1, Z2.
  unfold Qdiv in Z1, Z2. change (/ 10000) with (1 # 10000) in Z1, Z2.
  destruct (rnd_error_within (z * 10000) 70368744177664 46) as [W1 W2];
    [lra | lra | vm_compute; discriminate | lia |].
  change (Double.pow2 (46 - 53)) with (1 # 128) in W1, W2.
  assert (Hk : Math_round (Double.rnd (z * 10000)) = k).
  { unfold Math_round. apply Qfloor_unique; fold n; lra. }
  rewrite Hk. symmetry. exact Hz.
Qed.

Lemma Double_roundTime_nonneg (x : Q) : 0 <= x -> 0 <= Double.roundTime x.
Proof.
  intro H. unfold Double.roundTime, Double.div, Double.mul.
  apply rnd_nonneg.
  assert (0 <= Double.rnd (x * 10000)) by (apply rnd_nonneg; lra).
  destruct (Math_round_near (Double.rnd (x * 10000))) as [N1 _].
  set (k := Math_round (Double.rnd (x * 10000))) in *.
  assert (Hk : (0 <= k)%Z).
  { assert (A : inject_Z (-1) < inject_Z k) by (change (inject_Z (-1)) with (-1#1); lra).
    rewrite <- Zlt_Qlt in A. lia. }
  apply Qle_shift_div_l; [reflexivity|]. rewrite Qmult_0_l.
  change 0 with (inject_Z 0). now rewrite <- Zle_Qle.
Qed.

(** Where the unit in the last place is at most 1, rounding does not take
    a number below an integer it is not below. *)
Lemma rnd_ge_int (k : Z) (y : Q) :
  (1 <= k)%Z -> inject_Z k <= y -> y <= Double.pow2 52 -> inject_Z k <= Double.rnd y.
Proof.
  intros Hk Hky Hy.
  assert (Hpos : 0 < y).
  { apply Qlt_le_trans with (inject_Z k); [|exact Hky].
    change 0 with (inject_Z 0). rewrite <- Zlt_Qlt. lia. }
  destruct y as [[|n|n] d]; [discriminate Hpos | | discriminate Hpos].
  unfold Double.rnd. cbn [Qnum Qden].
  destruct (rnd_pos_scaled n d) as (m & Hm & _ & Herr).
  pose proof (ulp_exponent_le n d 52 Hy ltac:(lia)) as He.
  set (e := Double.ulp_exponent n d) in *. set (y := Zpos n # d) in *.
  pose proof (pow2_pos e) as Pu.
  assert (Hinv : Double.pow2 e * inject_Z (2 ^ (- e)) == 1).
  { rewrite <- pow2_nat by lia. rewrite <- pow2_add.
    replace (e + - e)%Z with 0%Z by lia. reflexivity. }
  assert (HP : 0 < inject_Z (2 ^ (- e))).
  { change 0 with (inject_Z 0). rewrite <- Zlt_Qlt. apply Z.pow_pos_nonneg; lia. }
  set (u := Double.pow2 e) in *. set (P := (2 ^ (- e))%Z) in *.
  assert (Hdiv : y / u == y * inject_Z P).
  { setoid_replace (y * inject_Z P) with (y * (u * inject_Z P) / u)
      by (field; intro Z; rewrite Z in Pu; discriminate).
    rewrite Hinv. now rewrite Qmult_1_r. }
  apply Qabs_Qle_condition in Herr. rewrite Hdiv in Herr. destruct Herr as [E1 _].
  assert (Hprod : inject_Z k * inject_Z P <= y * inject_Z P).
  { apply Qmult_le_compat_r; [exact Hky | now apply Qlt_le_weak]. }
  assert (Hm' : (k * P <= m)%Z).
  { assert (A : inject_Z (2 * (k * P)) <= inject_Z (2 * m + 1)).
    { rewrite inject_Z_plus, !inject_Z_mult. change (inject_Z 2) with 2.
      change (inject_Z 1) with 1. lra. }
    rewrite <- Zle_Qle in A. lia. }
  rewrite Hm.
  setoid_replace (inject_Z k) with (inject_Z (k * P) * u).
  - apply Qmult_le_compat_r; [now rewrite <- Zle_Qle | now apply Qlt_le_weak].
  - rewrite inject_Z_mult, <- Qmult_assoc, (Qmult_comm (inject_Z P)), Hinv. ring.
Qed.

(** A time that is not below the double 0.1 is not below it after
    [roundTime] either. *)
Lemma Double_roundTime_ge_tenth (x : Q) :
  Double.literal (1 # 10) <= x -> x <= 4294967297 ->
  Double.literal (1 # 10) <= Double.roundTime x.
Proof.
  intros Hlo Hhi.
  assert (Hlit : Double.literal (1 # 10) = 3602879701896397 # 36028797018963968)
    by (vm_compute; reflexivity).
  rewrite Hlit in Hlo |- *.
  assert (H01 : (1 # 10) <= x).
  { eapply Qle_trans; [|exact Hlo]. vm_compute. discriminate. }
  unfold Double.roundTime, Double.div, Double.mul.
  assert (Hy : inject_Z 1000 <= Double.rnd (x * 10000)).
  { apply rnd_ge_int; [lia | change (inject_Z 1000) with 1000; lra |].
    apply Qle_trans with 70368744177664; [lra | vm_compute; discriminate]. }
  destruct (rnd_error_within (x * 10000) 70368744177664 46) as [Y1 Y2];
    [lra | lra | vm_compute; discriminate | lia |].
  set (y := Double.rnd (x * 10000)) in *.
  change (Double.pow2 (46 - 53)) with (1 # 128) in Y1, Y2.
  change (inject_Z 1000) with 1000 in Hy.
  destruct (Math_round_near y) as [N1 N2].
  set (k := Math_round y) in *.
  assert (Hk : (1000 <= k)%Z).
  { assert (A : inject_Z 999 < inject_Z k) by (change (inject_Z 999) with 999; lra).
    rewrite <- Zlt_Qlt in A. lia. }
  destruct (Z.eq_dec k 1000) as [->|Hne].
  - vm_compute. discriminate.
  - assert (Hk' : inject_Z 1001 <= inject_Z k) by (rewrite <- Zle_Qle; lia).
    change (inject_Z 1001) with 1001 in Hk'.
    destruct (rnd_error_within (inject_Z k / 10000) 8589934592 33) as [Z1 Z2];
      [ unfold Qdiv; change (/ 10000) with (1 # 10000); lra
      | unfold Qdiv; change (/ 10000) with (1 # 10000); lra
      | vm_compute; discriminate | lia |].
    change (Double.pow2 (33 - 53)) with (1 # 1048576) in Z1, Z2.
    unfold Qdiv in *. change (/ 10000) with (1 # 10000) in *. lra.
Qed.

(** [Double] computes what the machine computes: on the sample floats, in
    both signs, the four operations agree bit for bit with the primitive
    ones, and the decimal literals are read alike. *)
Example Double_agrees_with_binary64 :
  Binary64.agreeOn Binary64.samples Double.add PrimFloat.add = true
  /\ Binary64.agreeOn Binary64.samples Double.sub PrimFloat.sub = true
  /\ Binary64.agreeOn Binary64.samples Double.mul PrimFloat.mul = true
  /\ Binary64.agreeOn Binary64.samples Double.div PrimFloat.div = true
  /\ Binary64.agreeOn Binary64.extremes Double.add PrimFloat.add = true
  /\ Binary64.agreeOn Binary64.extremes Double.sub PrimFloat.sub = true
  /\ Binary64.agreeOn Binary64.extremes Double.mul PrimFloat.mul = true
  /\ Binary64.agreeOn Binary64.extremes Double.div PrimFloat.div = true
  /\ Binary64.literalsAgree = true.
Proof. repeat apply conj; vm_compute; reflexivity. Qed.

(** ** Time quantisation *)


(** ** Split *)

Lemma string_length_app (a b : string) :
  String.length (a ++ b) = (String.length a + String.length b)%nat.
Proof. induction a as [|ch a IH]; simpl; [reflexivity | now rewrite IH]. Qed.

Lemma suffixed_id_differs (i : string) (now : Z) :
  (i ++ "_split_" ++ toString now)%string <> i.
Proof.
  intro H. apply (f_equal String.length) in H.
  rewrite !string_length_app in H. simpl in H. lia.
Qed.

(** The decimal text of a clock reading determines the reading. *)
Lemma toString_inj (n n' : Z) : toString n = toString n' -> n = n'.
Proof.
  unfold toString. intro H.
  assert (P : forall z,
            NilZero.int_of_string (NilZero.string_of_int (Z.to_int z)) = Some (Z.to_int z)).
  { intro z. apply NilZero.isi; destruct z as [|p|p]; cbn; intro E; try discriminate;
      injection E; apply DecimalPos.Unsigned.to_uint_nonnil. }
  apply DecimalZ.to_int_inj.
  pose proof (P n) as Pn. rewrite H, P in Pn. congruence.
Qed.

Lemma list_ascii_of_string_app (a b : string) :
  list_ascii_of_string (a ++ b)
  = (list_ascii_of_string a ++ list_ascii_of_string b)%list.
Proof. induction a as [|ch a IH]; simpl; [reflexivity | now rewrite IH]. Qed.

Lemma first_occurrence_unique {A : Type} (x : A) (p1 p2 r1 r2 : list A) :
  ~ In x p1 -> ~ In x p2 -> (p1 ++ x :: r1 = p2 ++ x :: r2)%list ->
  p1 = p2 /\ r1 = r2.
Proof.
  revert p2. induction p1 as [|y p1 IH]; intros [|z p2] H1 H2 E; simpl in *.
  - injection E as E. now split.
  - injection E as E _. exfalso. apply H2. now left.
  - injection E as E _. exfalso. apply H1. now left.
  - injection E as E1 E2. subst z.
    destruct (IH p2 (fun K => H1 (or_intror K)) (fun K => H2 (or_intror K)) E2)
      as [-> ->].
    now split.
Qed.

(** The decimal text of a clock reading has no underscore. *)
Lemma toString_no_underscore (n : Z) :
  ~ In "_"%char (list_ascii_of_string (toString n)).
Proof.
  assert (V : forall d, ~ In "_"%char (list_ascii_of_string (NilEmpty.string_of_uint d))).
  { induction d; simpl; [tauto | intros [H|H]; [discriminate | auto] ..]. }
  assert (U : forall d, ~ In "_"%char (list_ascii_of_string (NilZero.string_of_uint d))).
  { intro d. unfold NilZero.string_of_uint.
    destruct d; try apply V. simpl. intros [H|[]]. discriminate. }
  unfold toString, NilZero.string_of_int.
  destruct (Z.to_int n) as [d|d]; [apply U|].
  simpl. intros [H|H]; [discriminate | exact (U d H)].
Qed.

(** A suffixed id determines the id it extends and the clock reading. *)
Lemma split_id_unique (i i' : string) (n n' : Z) :
  (i ++ "_split_" ++ toString n)%string = (i' ++ "_split_" ++ toString n')%string ->
  i = i' /\ n = n'.
Proof.
  intro E. apply (f_equal list_ascii_of_string) in E.
  rewrite !list_ascii_of_string_app in E.
  apply (f_equal (@rev ascii)) in E.
  rewrite !rev_app_distr in E. cbn [list_ascii_of_string rev app] in E.
  rewrite <- !app_assoc in E. cbn [app] in E.
  destruct (first_occurrence_unique "_"%char _ _ _ _
              (fun K => toString_no_underscore n (proj2 (in_rev _ _) K))
              (fun K => toString_no_underscore n' (proj2 (in_rev _ _) K)) E)
    as [Ed Ei].
  injection Ei as Ei.
  apply (f_equal (@rev ascii)) in Ed, Ei. rewrite !rev_involutive in Ed, Ei.
  apply (f_equal string_of_list_ascii) in Ed, Ei.
  rewrite !string_of_list_ascii_of_string in Ed, Ei.
  split; [exact Ei | now apply toString_inj].
Qed.

Lemma tenth_positive : 0 < Double.literal (1 # 10).
Proof. vm_compute. reflexivity. Qed.

Lemma splitRejected_false (c : VideoClip.t) (relative : Q) :
  Double.literal (1 # 10) <= relative ->
  Double.literal (1 # 10) <= Double.sub (VideoClip.duration c) relative ->
  splitRejected c relative = false.
Proof.
  intros Hlo Hhi. unfold splitRejected.
  apply orb_false_iff. split; apply Qltb_ge; assumption.
Qed.

Lemma splitRejected_true (c : VideoClip.t) (relative : Q) :
  relative < Double.literal (1 # 10)
  \/ Double.sub (VideoClip.duration c) relative < Double.literal (1 # 10) ->
  splitRejected c relative = true.
Proof.
  intro H. unfold splitRejected. apply orb_true_iff.
  destruct H as [H|H]; [left|right]; now apply Qltb_lt.
Qed.

Lemma updateTracks_trackSplit (trackId : string) (c a b : VideoClip.t)
    (tracks : list VideoTrack.t) :
  Forall2 (trackSplit trackId c a b) tracks (updateTracks trackId c a b tracks).
Proof.
  unfold updateTracks. induction tracks as [|t ts IH]; cbn [map]; constructor; [|exact IH].
  unfold trackSplit.
  destruct (String.eqb (VideoTrack.id t) trackId); cbn [negb].
  - split; [now destruct t|].
    cbn [VideoTrack.with_clips VideoTrack.clips].
    exists (map (fun x => if String.eqb (VideoClip.id x) (VideoClip.id c) then a else x)
                (VideoTrack.clips t)).
    split; [reflexivity|].
    induction (VideoTrack.clips t) as [|x xs IHx]; cbn [map]; constructor; trivial.
  - split; [now destruct t | reflexivity].
Qed.

Lemma state_eta (st : State) :
  setVideoHistoryIndex (videoHistoryIndex st)
    (setVideoHistory (videoHistory st)
       (setTimelineAudioTracks (timelineAudioTracks st)
          (setVideoTracks (videoTracks st) st))) = st.
Proof. now destruct st. Qed.

Lemma performSplit_valid (now : Z) (c : VideoClip.t) (trackId : string)
    (isAudio : bool) (relative : Q) (st : State) :
  splitRejected c relative = false ->
  splitOf trackId isAudio c (clipA c relative) (clipB now c relative) st
    (performSplit now c trackId isAudio relative st).
Proof.
  intro Hg. unfold performSplit, splitOf. rewrite Hg.
  destruct isAudio; cbn [collection negb].
  - split; [apply updateTracks_trackSplit|].
    split; [reflexivity|]. split; [split; reflexivity|].
    unfold elsewhereUntouched. now destruct st.
  - split; [apply updateTracks_trackSplit|].
    split; [reflexivity|]. split; [split; reflexivity|].
    unfold elsewhereUntouched. now destruct st.
Qed.

Lemma find_unique {A} (p : A -> bool) (l : list A) (x : A) :
  In x l -> p x = true -> (forall y, In y l -> p y = true -> y = x) ->
  find p l = Some x.
Proof.
  intros Hin Hp Hu. destruct (find p l) as [y|] eqn:E.
  - apply find_some in E. destruct E as [Hy Hpy]. now rewrite (Hu y Hy Hpy).
  - exfalso. pose proof (find_none p l E x Hin). congruence.
Qed.

Lemma NoDup_map_unique {A B} (f : A -> B) (l : list A) (x y : A) :
  NoDup (map f l) -> In x l -> In y l -> f x = f y -> x = y.
Proof.
  induction l as [|z zs IH]; cbn [map]; [intros _ []|].
  intros Hnd Hx Hy E. inversion Hnd as [|? ? Hnotin Hnd']; subst.
  destruct Hx as [<-|Hx], Hy as [<-|Hy]; trivial.
  - exfalso. apply Hnotin. rewrite E. now apply in_map.
  - exfalso. apply Hnotin. rewrite <- E. now apply in_map.
  - now apply IH.
Qed.

(** The copies carry the ids of the clips, in the order of [allClips]. *)
Lemma taggedClips_ids (st : State) :
  map (fun x : VideoClip.t * string * bool => VideoClip.id (fst (fst x))) (taggedClips st)
  = map VideoClip.id (allClips st).
Proof.
  unfold taggedClips, allClips. rewrite flat_map_app, !map_app. f_equal.
  - induction (videoTracks st) as [|t ts IH]; [reflexivity|].
    cbn [flat_map]. rewrite !map_app, IH, map_map. reflexivity.
  - induction (timelineAudioTracks st) as [|t ts IH]; [reflexivity|].
    cbn [flat_map]. rewrite !map_app, IH, map_map. reflexivity.
Qed.

Lemma taggedClips_in (st : State) (isAudio : bool) (t : VideoTrack.t) (c0 : VideoClip.t) :
  In t (collection isAudio st) -> In c0 (VideoTrack.clips t) ->
  In (tagged (VideoTrack.id t) isAudio c0, VideoTrack.id t, isAudio) (taggedClips st).
Proof.
  intros Ht Hc. unfold taggedClips. apply in_or_app.
  destruct isAudio; [right|left]; apply in_flat_map; exists t; split; trivial;
    apply in_map_iff; exists c0; split; trivial.
Qed.

(** Every copy is the copy of a clip of the timeline. *)
Lemma taggedClips_origin (st : State) (c : VideoClip.t) (trackId : string)
    (isAudio : bool) :
  In (c, trackId, isAudio) (taggedClips st) ->
  exists t c0,
    In t (collection isAudio st) /\ In c0 (VideoTrack.clips t)
    /\ c = tagged (VideoTrack.id t) isAudio c0 /\ trackId = VideoTrack.id t.
Proof.
  unfold taggedClips. intro H. apply in_app_or in H.
  destruct H as [H|H]; apply in_flat_map in H; destruct H as (t & Ht & H);
    apply in_map_iff in H; destruct H as (c0 & E & Hc); injection E as <- <- <-;
    exists t, c0; repeat split; trivial.
Qed.

Lemma findSelected_unique (st : State) (isAudio : bool) (t : VideoTrack.t)
    (c0 : VideoClip.t) :
  In t (collection isAudio st) -> In c0 (VideoTrack.clips t) ->
  selectedClipId st = Some (VideoClip.id c0) ->
  NoDup (map VideoClip.id (allClips st)) ->
  findSelected st = Some (tagged (VideoTrack.id t) isAudio c0, VideoTrack.id t, isAudio).
Proof.
  intros Ht Hc Hsel Hnd. unfold findSelected.
  pose proof (taggedClips_in st isAudio t c0 Ht Hc) as Hin.
  apply find_unique; [exact Hin | |].
  - cbn. rewrite Hsel. cbn. apply String.eqb_refl.
  - intros [[y yt] ya] Hy Hp. rewrite Hsel in Hp. cbn in Hp.
    apply String.eqb_eq in Hp.
    rewrite <- taggedClips_ids in Hnd.
    apply (NoDup_map_unique _ _ _ _ Hnd Hy Hin). cbn. exact Hp.
Qed.

Lemma fragmentsIn_single (c a b : VideoClip.t) (pre post : list VideoClip.t)
    (x : VideoClip.t) (clips' : list VideoClip.t) :
  VideoClip.id x = VideoClip.id c ->
  Forall (fun y => VideoClip.id y <> VideoClip.id c) (pre ++ post) ->
  fragmentsIn c a b (pre ++ x :: post) clips' ->
  clips' = pre ++ a :: post ++ [b].
Proof.
  intros Hx Hother (front & -> & HF).
  assert (K : forall l, Forall (fun y => VideoClip.id y <> VideoClip.id c) l ->
              forall l', Forall2 (fun y y' =>
                           y' = if String.eqb (VideoClip.id y) (VideoClip.id c)
                                then a else y) l l' -> l' = l).
  { induction l as [|y ys IH]; intros Hl l' H2; inversion H2; subst; [reflexivity|].
    inversion Hl; subst.
    destruct (String.eqb_spec (VideoClip.id y) (VideoClip.id c)); [contradiction|].
    f_equal. now apply IH. }
  apply Forall_app in Hother. destruct Hother as [Hpre Hpost].
  apply Forall2_app_inv_l in HF. destruct HF as (f1 & f2 & H1 & H2 & ->).
  inversion H2 as [|? x' ? f3 Hx' H3]; subst.
  rewrite Hx, String.eqb_refl.
  rewrite (K pre Hpre f1 H1), (K post Hpost f3 H3).
  now rewrite <- app_assoc.
Qed.

(** C1. A split at a relative time that passes the guard as the handlers
    evaluate it (0.1 <= relative and 0.1 <= duration - relative, in double
    precision) makes fragment A, the clip with [duration = relative] and
    [trimEnd = trimStart + relative], and fragment B, the clip with
    [startTime] and [trimStart] advanced by [relative],
    [duration = roundTime (duration - relative)] and the id
    [id ++ "_split_" ++ now].  A keeps the id of the clip; the id of B
    differs from it and is the suffixed id of no other pair of an id and a
    clock reading; A's [trimEnd] is B's [trimStart]; for a clip no longer
    than 2^32 seconds the two durations add up to the original one within
    1e-4.  The razor, on the clip it is
    handed, and the playhead split, on its copy of the selected clip of a
    timeline with distinct clip ids, leave the clip's track with A at the
    place of the clip and B appended, every other track and the rest of
    the state as they were, and a snapshot pushed. *)
Theorem split_valid_fragments (now : Z) (c : VideoClip.t) (relative : Q)
    (Hlo : Double.literal (1 # 10) <= relative)
    (Hhi : Double.literal (1 # 10) <= Double.sub (VideoClip.duration c) relative) :
  let a :=
    VideoClip.with_trimEnd (Double.add (VideoClip.trimStart c) relative)
      (VideoClip.with_duration relative c) in
  let b :=
    VideoClip.with_id (VideoClip.id c ++ "_split_" ++ toString now)%string
      (VideoClip.with_duration
         (Double.roundTime (Double.sub (VideoClip.duration c) relative))
         (VideoClip.with_trimStart (Double.add (VideoClip.trimStart c) relative)
            (VideoClip.with_startTime (Double.add (VideoClip.startTime c) relative) c))) in
  (VideoClip.duration c <= 4294967296 ->
   Qabs (VideoClip.duration a + VideoClip.duration b - VideoClip.duration c)
   <= 1 # 10000)
  /\ VideoClip.trimEnd a = VideoClip.trimStart b
  /\ VideoClip.id a = VideoClip.id c
  /\ VideoClip.id b <> VideoClip.id c
  /\ (forall id' now',
        (id' ++ "_split_" ++ toString now')%string = VideoClip.id b ->
        id' = VideoClip.id c /\ now' = now)
  /\ (forall e trackId isAudioTrack st,
        videoEditTool st = razor ->
        Double.roundTime
          (Double.sub (DoublePointer.getTimelineTimeFromEvent st e) (VideoClip.startTime c))
        = relative ->
        splitOf trackId isAudioTrack c a b st
          (handleClipMouseDown now e c trackId isAudioTrack st))
  /\ (forall isAudio t c0 st,
        c = tagged (VideoTrack.id t) isAudio c0 ->
        In t (collection isAudio st) -> In c0 (VideoTrack.clips t) ->
        selectedClipId st = Some (VideoClip.id c0) -> VideoClip.id c0 <> ""%string ->
        NoDup (map VideoClip.id (allClips st)) ->
        Double.roundTime (Double.sub (currentVideoTime st) (VideoClip.startTime c0))
        = relative ->
        splitOf (VideoTrack.id t) isAudio c a b st (handleSplitAtPlayhead now st))
  /\ (forall pre post x clips',
        VideoClip.id x = VideoClip.id c ->
        Forall (fun y => VideoClip.id y <> VideoClip.id c) (pre ++ post) ->
        fragmentsIn c a b (pre ++ x :: post) clips' ->
        clips' = pre ++ a :: post ++ [b]).
Proof.
  intros a b.
  assert (Hg : splitRejected c relative = false) by now apply splitRejected_false.
  split.
  { intro Hbig.
    change (VideoClip.duration a) with relative.
    change (VideoClip.duration b)
      with (Double.roundTime (Double.sub (VideoClip.duration c) relative)).
    pose proof tenth_positive as P.
    set (d := VideoClip.duration c) in *.
    assert (Hpos : 0 < d - relative).
    { apply Qnot_le_lt. intro Hle. pose proof (rnd_nonpos _ Hle) as Hn.
      unfold Double.sub in Hhi. lra. }
    destruct (rnd_error_within (d - relative) 4294967296 32) as [X1 X2];
      [lra | lra | vm_compute; discriminate | lia |].
    fold (Double.sub d relative) in X1, X2.
    change (Double.pow2 (32 - 53)) with (1 # 2097152) in X1, X2.
    pose proof (Double_roundTime_near (Double.sub d relative) ltac:(lra) ltac:(lra)) as Hn.
    apply Qabs_Qle_condition in Hn. destruct Hn as [Hn1 Hn2].
    apply Qabs_Qle_condition. split; lra. }
  split; [reflexivity|]. split; [reflexivity|].
  split; [apply suffixed_id_differs|].
  split.
  { intros id' now' E. now apply split_id_unique. }
  split.
  { intros e trackId isAudioTrack st Htool Hrel.
    unfold handleClipMouseDown. rewrite Htool. cbv zeta. rewrite Hrel.
    now apply performSplit_valid. }
  split.
  { intros isAudio t c0 st Hc Ht Hc0 Hsel Hne Hnd Hrel.
    unfold handleSplitAtPlayhead.
    assert (Htr : truthy (selectedClipId st) = true).
    { rewrite Hsel. cbn. destruct (String.eqb_spec (VideoClip.id c0) ""); [contradiction|reflexivity]. }
    rewrite Htr. cbn [negb].
    rewrite (findSelected_unique st isAudio t c0 Ht Hc0 Hsel Hnd).
    rewrite <- Hc. cbv zeta.
    replace (VideoClip.startTime c) with (VideoClip.startTime c0) by (now rewrite Hc).
    rewrite Hrel. now apply performSplit_valid. }
  intros pre post x clips'. apply fragmentsIn_single.
Qed.

Example oneClip_videoTracks :
  videoTracks oneClip
  = [ VideoTrack.mk "v1" "فيديو 1" [placedClip] false false;
      emptyTrack "v2" "فيديو 2"; emptyTrack "v3" "نصوص/FX" ].
Proof. reflexivity. Qed.

(** The razor at pixel 160 (timeline time 2) on the placed clip, and the
    playhead on the double 0.09995 over the selected clip: the product
    0.09995 * 10000 is the double 999.5, which [Math.round] takes to 1000,
    so that the relative time is the double 0.1 and the split is made. *)
Lemma split_valid_fragments_witness :
  splitOf "v1" false placedClip (clipA placedClip 2) (clipB 3 placedClip 2) razorOne
    (handleClipMouseDown 3 (mkMouseEvent 160) placedClip "v1" false razorOne)
  /\ Qabs (VideoClip.duration (clipA placedClip 2)
           + VideoClip.duration (clipB 3 placedClip 2)
           - VideoClip.duration placedClip) <= 1 # 10000
  /\ splitOf "v1" false (tagged "v1" false placedClip)
       (clipA (tagged "v1" false placedClip) (Double.literal (1 # 10)))
       (clipB 3 (tagged "v1" false placedClip) (Double.literal (1 # 10)))
       nearStart (handleSplitAtPlayhead 3 nearStart).
Proof.
  assert (Hlo : Double.literal (1 # 10) <= 2) by (vm_compute; discriminate).
  assert (Hhi : Double.literal (1 # 10) <= Double.sub (VideoClip.duration placedClip) 2)
    by (vm_compute; discriminate).
  pose proof (split_valid_fragments 3 placedClip 2 Hlo Hhi) as T.
  cbv zeta in T.
  destruct T as (Hsum & _ & _ & _ & _ & Hrazor & _).
  split; [apply Hrazor; vm_compute; reflexivity|].
  split; [apply Hsum; vm_compute; discriminate|].
  assert (Hlo' : Double.literal (1 # 10) <= Double.literal (1 # 10)) by apply Qle_refl.
  assert (Hhi' : Double.literal (1 # 10)
                 <= Double.sub (VideoClip.duration (tagged "v1" false placedClip))
                      (Double.literal (1 # 10)))
    by (vm_compute; discriminate).
  pose proof (split_valid_fragments 3 (tagged "v1" false placedClip)
                (Double.literal (1 # 10)) Hlo' Hhi') as T.
  cbv zeta in T.
  destruct T as (_ & _ & _ & _ & _ & _ & Hplay & _).
  apply (Hplay false (VideoTrack.mk "v1" "فيديو 1" [placedClip] false false) placedClip).
  - reflexivity.
  - left. reflexivity.
  - left. reflexivity.
  - reflexivity.
  - discriminate.
  - vm_compute. constructor; [intros [] | constructor].
  - vm_compute. reflexivity.
Defined.

Lemma performSplit_rejected (now : Z) (c : VideoClip.t) (trackId : string)
    (isAudio : bool) (relative : Q) (st : State) :
  relative < Double.literal (1 # 10)
  \/ Double.sub (VideoClip.duration c) relative < Double.literal (1 # 10) ->
  performSplit now c trackId isAudio relative st = st.
Proof.
  intro H. unfold performSplit. now rewrite (splitRejected_true c relative H).
Qed.

(** C7. A split request whose relative time, quantised as the handlers
    quantise it, is less than 0.1 from either edge of the clip (the two
    comparisons in double precision, as the guard makes them) is declined:
    the razor returns the state it was given whatever clip it is handed,
    and the playhead split returns the state it was given when every clip
    that has the selected id fails the guard.  The handlers are total
    functions of the state, so nothing is thrown. *)
Theorem split_too_close_is_noop (now : Z) :
  (forall e c trackId isAudioTrack st,
      videoEditTool st = razor ->
      (let relative :=
         Double.roundTime
           (Double.sub (DoublePointer.getTimelineTimeFromEvent st e)
              (VideoClip.startTime c)) in
       relative < Double.literal (1 # 10)
       \/ Double.sub (VideoClip.duration c) relative < Double.literal (1 # 10)) ->
      handleClipMouseDown now e c trackId isAudioTrack st = st)
  /\ (forall st,
        (forall c, In c (allClips st) ->
           eq_id (VideoClip.id c) (selectedClipId st) = true ->
           let relative :=
             Double.roundTime
               (Double.sub (currentVideoTime st) (VideoClip.startTime c)) in
           relative < Double.literal (1 # 10)
           \/ Double.sub (VideoClip.duration c) relative < Double.literal (1 # 10)) ->
        handleSplitAtPlayhead now st = st).
Proof.
  split.
  - intros e c trackId isAudioTrack st Htool Hrel.
    unfold handleClipMouseDown. rewrite Htool.
    now apply performSplit_rejected.
  - intros st Hall. unfold handleSplitAtPlayhead.
    destruct (negb (truthy (selectedClipId st))); [reflexivity|].
    destruct (findSelected st) as [[[clip trackId] isAudio]|] eqn:E; [|reflexivity].
    unfold findSelected in E. apply find_some in E. destruct E as [Hin Hp].
    destruct (taggedClips_origin st clip trackId isAudio Hin) as (t & c0 & Ht & Hc0 & -> & ->).
    apply performSplit_rejected.
    apply (Hall c0); [|exact Hp].
    unfold allClips. apply in_flat_map. exists t. split; [|exact Hc0].
    apply in_or_app. destruct isAudio; [now right | now left].
Qed.

(** The razor at pixel 218 on the clip over [0, 5): the relative time is
    the double 4.9 and [5 - 4.9] is a double below the double 0.1, so the
    split is declined.  The playhead at 0.05 over the selected clip. *)
Lemma split_too_close_is_noop_witness :
  handleClipMouseDown 3 (mkMouseEvent 218) placedClip "v1" false razorOne = razorOne
  /\ Double.sub 5 (Double.literal (49 # 10)) < Double.literal (1 # 10)
  /\ handleSplitAtPlayhead 3 (setCurrentVideoTime (Double.literal (5 # 100)) selectedOne)
     = setCurrentVideoTime (Double.literal (5 # 100)) selectedOne.
Proof.
  destruct (split_too_close_is_noop 3) as [Hrazor Hplay].
  split; [|split].
  - apply Hrazor; [reflexivity|]. right. vm_compute. reflexivity.
  - vm_compute. reflexivity.
  - apply Hplay. intros c Hc _.
    assert (E : c = placedClip).
    { vm_compute in Hc. destruct Hc as [<-|[]]. reflexivity. }
    rewrite E. left. vm_compute. reflexivity.
Defined.

(** The playhead at 2 over the selected clip [0, 5): the track then holds
    the clip cut to [0, 2) and, appended, the rest over [2, 5); both carry
    the two properties of the copy they were made from. *)
Example playhead_split_example :
  let st' := handleSplitAtPlayhead 3 (setCurrentVideoTime 2 selectedOne) in
  map VideoClip.id (clipsOf "v1" (videoTracks st')) = ["2"; "2_split_3"]%string
  /\ map VideoClip.duration (clipsOf "v1" (videoTracks st')) = [2; 3]
  /\ map VideoClip.startTime (clipsOf "v1" (videoTracks st')) = [0; 2]
  /\ map VideoClip.trimEnd (clipsOf "v1" (videoTracks st')) = [2; 5]
  /\ map VideoClip.trackId (clipsOf "v1" (videoTracks st'))
     = [Some "v1"; Some "v1"]%string
  /\ map VideoClip.isAudio (clipsOf "v1" (videoTracks st')) = [Some false; Some false].
Proof. vm_compute. repeat split. Qed.

(** ** Fades *)



(** The scenario of the specification: linear fades of one second on a clip
    of four seconds give 1/2 half a second after the start and half a second
    before the end, and 1 in between. *)
Example fade_scenario (start : Q) :
  fadeFactor (start + (1 # 2)) (fadingClip start linear) == 1 # 2
  /\ fadeFactor (start + (7 # 2)) (fadingClip start linear) == 1 # 2
  /\ fadeFactor (start + 2) (fadingClip start linear) == 1.
Proof.
  unfold fadeFactor; simpl.
  assert (E1 : start + (1 # 2) - start == 1 # 2) by ring.
  assert (E2 : start + 4 - (start + (7 # 2)) == 1 # 2) by ring.
  assert (L1 : Qltb (start + (1 # 2) - start) 1 = true) by (apply Qltb_lt; lra).
  assert (L2 : Qltb (start + (7 # 2) - start) 1 = false) by (apply Qltb_ge; lra).
  assert (L3 : Qltb (start + 4 - (start + (7 # 2))) 1 = true) by (apply Qltb_lt; lra).
  assert (L4 : Qltb (start + 2 - start) 1 = false) by (apply Qltb_ge; lra).
  assert (L5 : Qltb (start + 4 - (start + 2)) 1 = false) by (apply Qltb_ge; lra).
  rewrite L1, L2, L3, L4, L5.
  repeat split; try reflexivity.
  - unfold calculateFadeFactor, Qleb, Qgeb.
    replace (Qle_bool ((start + (1 # 2) - start) / 1) 0) with false.
    2:{ symmetry. apply Qgeb_lt. unfold Qdiv. change (/ 1) with 1. lra. }
    replace (Qle_bool 1 ((start + (1 # 2) - start) / 1)) with false.
    2:{ symmetry. apply (Qgeb_lt _ 1). unfold Qdiv. change (/ 1) with 1. lra. }
    unfold Qdiv. change (/ 1) with 1. lra.
  - unfold calculateFadeFactor, Qleb, Qgeb.
    replace (Qle_bool ((start + 4 - (start + (7 # 2))) / 1) 0) with false.
    2:{ symmetry. apply Qgeb_lt. unfold Qdiv. change (/ 1) with 1. lra. }
    replace (Qle_bool 1 ((start + 4 - (start + (7 # 2))) / 1)) with false.
    2:{ symmetry. apply (Qgeb_lt _ 1). unfold Qdiv. change (/ 1) with 1. lra. }
    unfold Qdiv. change (/ 1) with 1. lra.
Qed.

(** ** Timeline extent *)

Lemma Math_max_ge_init (xs : list Q) (a : Q) : a <= Math_max a xs.
Proof.
  revert a. induction xs as [|x xs IH]; intro a; simpl.
  - apply Qle_refl.
  - eapply Qle_trans; [apply (Q.le_max_l a x) | apply IH].
Qed.

Lemma Math_max_ge_each (xs : list Q) (a x : Q) : In x xs -> x <= Math_max a xs.
Proof.
  revert a. induction xs as [|y xs IH]; intros a Hin; simpl in *.
  - contradiction.
  - destruct Hin as [->|Hin].
    + eapply Qle_trans; [apply (Q.le_max_r a x) | apply Math_max_ge_init].
    + now apply IH.
Qed.

Lemma Math_max_attained (xs : list Q) (a : Q) :
  Math_max a xs == a \/ exists x, In x xs /\ Math_max a xs == x.
Proof.
  revert a. induction xs as [|y xs IH]; intro a; simpl.
  - left. reflexivity.
  - destruct (IH (Qmax a y)) as [H|(x & Hin & H)].
    + destruct (Q.max_spec a y) as [[_ E]|[_ E]].
      * right. exists y. split; [now left|]. now rewrite H.
      * left. now rewrite H.
    + right. exists x. split; [now right | exact H].
Qed.

(** C6, as the code has it.  A timeline with no clip has extent 60; a
    timeline with a clip has extent max(60, every clip's
    [startTime + duration]) + 2: at least 62, at least every clip's end plus
    2, and equal to one of those values. *)
Theorem maxTime_extent (st : State) :
  (allClips st = [] /\ maxTime st = 60)
  \/ (allClips st <> []
      /\ 62 <= maxTime st
      /\ (forall c, In c (allClips st) -> VideoClip.endTime c + 2 <= maxTime st)
      /\ (maxTime st == 62
          \/ exists c, In c (allClips st) /\ maxTime st == VideoClip.endTime c + 2)).
Proof.
  unfold maxTime. destruct (allClips st) as [|c0 cs] eqn:E.
  - left. split; reflexivity.
  - right. split; [discriminate|].
    cbn [List.length Nat.eqb].
    set (ends := map _ (c0 :: cs)).
    split; [|split].
    + pose proof (Math_max_ge_init ends 60). lra.
    + intros c Hin.
      assert (Hc : In (VideoClip.endTime c) ends).
      { unfold ends. apply in_map_iff. exists c. split; [reflexivity | exact Hin]. }
      pose proof (Math_max_ge_each ends 60 _ Hc). lra.
    + destruct (Math_max_attained ends 60) as [H|(x & Hin & H)].
      * left. rewrite H. reflexivity.
      * right. unfold ends in Hin. apply in_map_iff in Hin.
        destruct Hin as (c & Hc & Hin). exists c. split; [exact Hin|].
        rewrite H, <- Hc. reflexivity.
Qed.

(** C6 as stated fails on the timeline of the first render: it has no clip,
    its extent is 60, and max(60, m) + 2 is at least 62 whatever value [m]
    the maximum over no clip is given. *)
Lemma maxTime_empty_is_60 :
  allClips initialState = []
  /\ maxTime initialState = 60
  /\ (forall m, ~ maxTime initialState == Qmax 60 m + 2).
Proof.
  split; [reflexivity|]. split; [reflexivity|].
  intros m H. change (maxTime initialState) with 60 in H.
  pose proof (Q.le_max_l 60 m). lra.
Qed.

(** The formula on the sample timeline with one clip over [0, 5). *)
Example maxTime_oneClip : maxTime oneClip == 62.
Proof. vm_compute. reflexivity. Qed.

(** ** Drop on a track *)

Lemma clipsOf_map_hit (trackId : string) (f : VideoTrack.t -> VideoTrack.t)
    (tracks : list VideoTrack.t) (t : VideoTrack.t) :
  (forall x, VideoTrack.id (f x) = VideoTrack.id x) ->
  find (fun x => String.eqb (VideoTrack.id x) trackId) tracks = Some t ->
  clipsOf trackId (map f tracks) = VideoTrack.clips (f t).
Proof.
  intros Hid. unfold clipsOf. induction tracks as [|x xs IH]; simpl; [discriminate|].
  rewrite Hid. destruct (String.eqb (VideoTrack.id x) trackId).
  - now intros [= ->].
  - exact IH.
Qed.

(** C5, as the code has it.  A drop of a clip on a track appends a copy of
    it whose [startTime] is 0 when the track has no clip and the computed
    drop time otherwise; the magnet setting has no part in it. *)
Theorem drop_uses_drop_time (now : Z) (e : DragEvent) (trackId : string)
    (isAudioTrack : bool) (st : State) (src : VideoClip.t) (t : VideoTrack.t)
    (Hdata : clipData e = ClipJSON src)
    (Htrack : find (fun x => String.eqb (VideoTrack.id x) trackId)
                (collection isAudioTrack st) = Some t) :
  let dropTime := getTimelineTimeFromEvent st (mouse e) in
  let finalTime := match VideoTrack.clips t with [] => 0 | _ => dropTime end in
  let newClip := VideoClip.with_startTime finalTime (VideoClip.with_id (toString now) src) in
  (exists st', handleTrackDrop now e trackId isAudioTrack st = Returned st'
               /\ clipsOf trackId (collection isAudioTrack st')
                  = VideoTrack.clips t ++ [newClip]
               /\ collection (negb isAudioTrack) st' = collection (negb isAudioTrack) st)
  /\ (forall b,
        collection isAudioTrack
          (stateOf (handleTrackDrop now e trackId isAudioTrack (setIsMagnetEnabled b st)))
        = collection isAudioTrack
            (stateOf (handleTrackDrop now e trackId isAudioTrack st))).
Proof.
  intros dropTime finalTime newClip. split.
  - unfold handleTrackDrop. rewrite Hdata.
    assert (Hfin : (if match find (fun x => String.eqb (VideoTrack.id x) trackId)
                                (if isAudioTrack then timelineAudioTracks st
                                 else videoTracks st) with
                       | Some track => Nat.eqb (List.length (VideoTrack.clips track)) 0
                       | None => false
                       end then 0 else getTimelineTimeFromEvent st (mouse e))
                   = finalTime).
    { unfold collection in Htrack. rewrite Htrack. unfold finalTime.
      destruct (VideoTrack.clips t); reflexivity. }
    rewrite Hfin. fold newClip.
    destruct isAudioTrack; simpl in *; eexists; (split; [reflexivity|]);
      (split; [|reflexivity]); simpl;
      (erewrite clipsOf_map_hit; [| |exact Htrack]);
      try (intro x; destruct (String.eqb (VideoTrack.id x) trackId); reflexivity);
      apply find_some in Htrack; destruct Htrack as [_ Ht]; rewrite Ht; reflexivity.
  - intro b. unfold handleTrackDrop. rewrite Hdata.
    destruct isAudioTrack; reflexivity.
Qed.

(** The scenario of the drop, run through the theorem: B lands at 3. *)
Lemma drop_uses_drop_time_witness :
  exists st',
    handleTrackDrop 7 (dragTo 135 poolClip) "v1" false dropScenario = Returned st'
    /\ clipsOf "v1" (videoTracks st')
       = [placedClip;
          VideoClip.with_startTime (roundTime 3) (VideoClip.with_id (toString 7) poolClip)].
Proof.
  destruct (drop_uses_drop_time 7 (dragTo 135 poolClip) "v1" false dropScenario
              poolClip (VideoTrack.mk "v1" "فيديو 1" [placedClip] false false)
              eq_refl eq_refl) as [(st' & Hret & Hclips & _) _].
  exists st'. split; [exact Hret | exact Hclips].
Defined.

(** C5 as stated fails: with A over [0, 5) on the track, the magnet on and a
    threshold of 3 seconds (so that 3 is within it of A's end), a drop at
    time 3 appends B at 3, not at 5. *)
Lemma drop_does_not_snap :
  clipsOf "v1" (videoTracks dropScenario) = [placedClip]
  /\ VideoClip.startTime placedClip == 0 /\ VideoClip.endTime placedClip == 5
  /\ isMagnetEnabled dropScenario = true
  /\ Qabs (3 - 5) < 15 / timelineScale dropScenario
  /\ getTimelineTimeFromEvent dropScenario (mkMouseEvent 135) == 3
  /\ exists B,
       clipsOf "v1"
         (videoTracks (stateOf (handleTrackDrop 7 (dragTo 135 poolClip) "v1" false
                                  dropScenario)))
       = [placedClip; B]
       /\ VideoClip.startTime B == 3
       /\ ~ VideoClip.startTime B == 5.
Proof.
  split; [reflexivity|]. split; [reflexivity|]. split; [reflexivity|].
  split; [reflexivity|]. split; [reflexivity|]. split; [reflexivity|].
  eexists. split; [reflexivity|]. split; [reflexivity|].
  intro H. vm_compute in H. discriminate.
Qed.

(** ** Undo and redo on a snapshot that does not parse *)

(** Every snapshot the component itself puts in the history parses. *)
Lemma pushVideoHistory_parses (st : State) :
  Forall (fun s => parses s = true) (videoHistory st) ->
  Forall (fun s => parses s = true) (videoHistory (pushVideoHistory st)).
Proof.
  intro H. unfold pushVideoHistory.
  cbn [videoHistory setVideoHistory setVideoHistoryIndex].
  set (kept := slice0 (videoHistory st) (videoHistoryIndex st + 1)).
  assert (Hk : Forall (fun s => parses s = true) (kept ++ [JSON_stringify (videoTracks st) (timelineAudioTracks st)])).
  { apply Forall_app. split.
    - unfold kept, slice0.
      match goal with |- Forall _ (firstn ?n _) =>
        rewrite <- (firstn_skipn n (videoHistory st)) in H
      end.
      apply Forall_app in H. exact (proj1 H).
    - constructor; [reflexivity | constructor]. }
  destruct (20 <? _)%Z; [|exact Hk].
  destruct (kept ++ _) as [|x xs]; [constructor|].
  simpl. now inversion Hk.
Qed.

(** The order of effects in undo and redo: the cursor is set before the
    snapshot is parsed.  On a history holding an entry that does not parse
    (which no handler writes, see [pushVideoHistory_parses]) the exception
    would leave the handler with the video tracks, the timeline audio
    tracks and the history as they were, and with the cursor already moved
    to that entry. *)
Lemma corrupt_snapshot_moves_cursor_only (m : HistoryMove) (st : State)
    (Hgo : historyEnabled m st = true)
    (Hbad : JSON_parse (at_index (videoHistory st) (historyTarget m st)) = None) :
  historyStep m st = Thrown (setVideoHistoryIndex (historyTarget m st) st)
  /\ videoTracks (stateOf (historyStep m st)) = videoTracks st
  /\ timelineAudioTracks (stateOf (historyStep m st)) = timelineAudioTracks st
  /\ videoHistory (stateOf (historyStep m st)) = videoHistory st
  /\ videoHistoryIndex (stateOf (historyStep m st)) = historyTarget m st.
Proof.
  assert (E : historyStep m st = Thrown (setVideoHistoryIndex (historyTarget m st) st)).
  { destruct m; simpl in *.
    - unfold handleVideoUndo. rewrite Hgo, Hbad. reflexivity.
    - unfold handleVideoRedo. rewrite Hgo, Hbad. reflexivity. }
  rewrite E. repeat split.
Qed.

Lemma corrupt_snapshot_moves_cursor_only_witness :
  handleVideoRedo corruptAbove = Thrown (setVideoHistoryIndex 1 corruptAbove)
  /\ videoTracks (stateOf (handleVideoRedo corruptAbove)) = videoTracks corruptAbove.
Proof.
  destruct (corrupt_snapshot_moves_cursor_only Redo corruptAbove eq_refl eq_refl)
    as (H1 & H2 & _).
  split; [exact H1 | exact H2].
Defined.

(** On such a history, built by hand, an undo throws with the cursor moved
    from 1 to 0. *)
Lemma undo_corrupt_moves_cursor :
  videoHistoryIndex corruptBelow = 1%Z
  /\ JSON_parse (at_index (videoHistory corruptBelow) 0) = None
  /\ handleVideoUndo corruptBelow = Thrown (setVideoHistoryIndex 0 corruptBelow)
  /\ videoHistoryIndex (stateOf (handleVideoUndo corruptBelow)) = 0%Z
  /\ videoHistoryIndex (stateOf (handleVideoUndo corruptBelow))
     <> videoHistoryIndex corruptBelow.
Proof. repeat split. discriminate. Qed.

(** ** History discipline *)

Lemma at_index_last {A} (xs : list A) (x : A) :
  at_index (xs ++ [x]) (Z.of_nat (List.length (xs ++ [x])) - 1) = Some x.
Proof.
  unfold at_index. rewrite length_app. simpl.
  replace (Z.of_nat (List.length xs + 1) - 1)%Z with (Z.of_nat (List.length xs)) by lia.
  destruct (Z.ltb_spec (Z.of_nat (List.length xs)) 0); [lia|].
  rewrite Nat2Z.id, nth_error_app2 by lia.
  now rewrite Nat.sub_diag.
Qed.

Lemma tl_snoc {A} (xs : list A) (x : A) :
  xs <> [] -> tl (xs ++ [x]) = tl xs ++ [x].
Proof. destruct xs; [congruence | reflexivity]. Qed.

Lemma pushVideoHistory_cursor (st : State) :
  cursorSnapshot (pushVideoHistory st) = Some (snapshotOf st).
Proof.
  unfold cursorSnapshot, pushVideoHistory, snapshotOf. cbn [videoHistory videoHistoryIndex setVideoHistory setVideoHistoryIndex].
  set (kept := slice0 (videoHistory st) (videoHistoryIndex st + 1)).
  set (s := JSON_stringify _ _).
  destruct (Z.ltb_spec 20 (Z.of_nat (List.length (kept ++ [s])))) as [Hlong|Hshort].
  - assert (Hne : kept <> []).
    { intro E. rewrite E in Hlong. simpl in Hlong. lia. }
    rewrite (tl_snoc kept s Hne). apply at_index_last.
  - apply at_index_last.
Qed.

Lemma pushedFrom_cursor (st st' : State) :
  pushedFrom st st' -> cursorSnapshot st' = Some (snapshotOf st).
Proof.
  intros [Hh Hi]. unfold cursorSnapshot. rewrite Hh, Hi.
  apply pushVideoHistory_cursor.
Qed.

Lemma performSplit_pushes (now : Z) (c : VideoClip.t) (trackId : string)
    (isAudio : bool) (relative : Q) (st : State) :
  performSplit now c trackId isAudio relative st = st
  \/ pushedFrom st (performSplit now c trackId isAudio relative st).
Proof.
  unfold performSplit. destruct (splitRejected c relative); [now left|].
  right. destruct isAudio; split; reflexivity.
Qed.

Lemma runEdit_pushes (op : PushingEdit) (st : State) :
  runEdit op st = st
  \/ (timelineUntouched st (runEdit op st) /\ historyUntouched st (runEdit op st))
  \/ pushedFrom st (runEdit op st).
Proof.
  destruct op as [now e trackId isAudio|now|now e c trackId isAudio| |trackId isAudio];
    simpl.
  - unfold handleTrackDrop. destruct (clipData e); [now left | | now left].
    right; right. destruct isAudio; split; reflexivity.
  - unfold handleSplitAtPlayhead.
    destruct (negb (truthy (selectedClipId st))); [now left|].
    destruct (findSelected st) as [[[c trackId] isAudio]|]; [|now left].
    destruct (performSplit_pushes now c trackId isAudio
                (Double.roundTime
                   (Double.sub (currentVideoTime st) (VideoClip.startTime c))) st)
      as [H|H]; [left | right; right]; exact H.
  - unfold handleClipMouseDown. destruct (videoEditTool st).
    + right; left. destruct (VideoClip.type c); repeat split.
    + destruct (performSplit_pushes now c trackId isAudio
                  (Double.roundTime
                     (Double.sub (DoublePointer.getTimelineTimeFromEvent st e)
                        (VideoClip.startTime c))) st)
        as [H|H]; [left | right; right]; exact H.
  - unfold handleDeleteClip.
    destruct (negb (truthy (selectedClipId st))); [now left|].
    right; right. split; reflexivity.
  - right; right. unfold toggleTrackMute. destruct isAudio; split; reflexivity.
Qed.

(** C2, as the code has it.  Drop on a track, split (playhead and razor),
    delete and mute toggle either leave the timeline and the history as they
    were or call [pushVideoHistory] before their updates, so that the
    snapshot under the cursor afterwards is the timeline the operation
    started from.  A property update never touches the history; a move
    leaves it alone while the pointer moves and pushes, at mouse-up, the
    timeline as the move left it. *)
Theorem history_discipline (st : State) :
  (forall op,
      (timelineUntouched st (runEdit op st) /\ historyUntouched st (runEdit op st))
      \/ (pushedFrom st (runEdit op st)
          /\ cursorSnapshot (runEdit op st) = Some (snapshotOf st)))
  /\ (forall updates, historyUntouched st (updateSelectedClip updates st))
  /\ (forall e, historyUntouched st (handleTimelineMouseMove e st))
  /\ (timelineUntouched st (handleTimelineMouseUp st)
      /\ (truthy (draggingClipId st) = false ->
          historyUntouched st (handleTimelineMouseUp st))
      /\ (truthy (draggingClipId st) = true ->
          pushedFrom st (handleTimelineMouseUp st)
          /\ cursorSnapshot (handleTimelineMouseUp st) = Some (snapshotOf st))).
Proof.
  split.
  { intro op. destruct (runEdit_pushes op st) as [H|[H|H]].
    - left. rewrite H. repeat split.
    - left. exact H.
    - right. split; [exact H | now apply pushedFrom_cursor]. }
  split.
  { intro u. unfold updateSelectedClip.
    destruct (negb (truthy (selectedClipId st))); split; reflexivity. }
  split.
  { intro e. unfold handleTimelineMouseMove.
    destruct (isScrubbing st); [split; reflexivity|].
    destruct (negb (truthy (draggingClipId st))); [split; reflexivity|].
    destruct (videoEditTool st); split; reflexivity. }
  unfold handleTimelineMouseUp.
  destruct (truthy (draggingClipId st)).
  - split; [split; reflexivity|]. split; [discriminate|].
    intros _. assert (P : pushedFrom st
                            (setIsScrubbing false (setDraggingClipId None (pushVideoHistory st))))
      by (split; reflexivity).
    split; [exact P | now apply pushedFrom_cursor].
  - split; [split; reflexivity|]. split; [intros _; split; reflexivity | discriminate].
Qed.

(** What [pushVideoHistory] leaves below the new cursor is the snapshot that
    was under the old one. *)
Lemma pushVideoHistory_below_cursor (st : State) :
  (0 <= videoHistoryIndex st < Z.of_nat (List.length (videoHistory st)))%Z ->
  (0 <? videoHistoryIndex (pushVideoHistory st))%Z = true
  /\ at_index (videoHistory (pushVideoHistory st))
       (videoHistoryIndex (pushVideoHistory st) - 1)
     = cursorSnapshot st.
Proof.
  intros Hcur. unfold cursorSnapshot, pushVideoHistory.
  cbn [videoHistory videoHistoryIndex setVideoHistory setVideoHistoryIndex].
  set (h := videoHistory st) in *. set (i := videoHistoryIndex st) in *.
  set (s := JSON_stringify _ _).
  assert (Hkept : slice0 h (i + 1) = firstn (S (Z.to_nat i)) h).
  { unfold slice0. destruct (Z.ltb_spec (i + 1) 0); [lia|].
    f_equal. lia. }
  rewrite Hkept. set (n := Z.to_nat i). set (kept := firstn (S n) h).
  assert (Hn : (n < List.length h)%nat) by (unfold n; lia).
  assert (Hlen : List.length kept = S n) by (apply firstn_length_le; lia).
  assert (Hat : at_index h i = nth_error h n).
  { unfold at_index. destruct (Z.ltb_spec i 0); [lia | reflexivity]. }
  assert (Hk : nth_error kept n = nth_error h n).
  { unfold kept. rewrite nth_error_firstn.
    destruct (Nat.ltb_spec n (S n)); [reflexivity | lia]. }
  rewrite Hat.
  destruct (Z.ltb_spec 20 (Z.of_nat (List.length (kept ++ [s])))) as [Hlong|Hshort].
  - assert (Hne : kept <> []) by (intro E; rewrite E in Hlen; discriminate).
    rewrite (tl_snoc kept s Hne).
    rewrite length_app in Hlong |- *. cbn [List.length] in Hlong |- *.
    assert (Htl : List.length (tl kept) = n) by (destruct kept; simpl in *; lia).
    rewrite Htl. rewrite Hlen in Hlong.
    split; [apply Z.ltb_lt; lia|].
    unfold at_index. destruct (Z.ltb_spec (Z.of_nat (n + 1) - 1 - 1) 0); [lia|].
    replace (Z.to_nat (Z.of_nat (n + 1) - 1 - 1)) with (n - 1)%nat by lia.
    rewrite nth_error_app1 by lia.
    rewrite <- Hk. destruct kept as [|x xs]; [congruence|].
    simpl. destruct n as [|n']; [lia|]. simpl. now rewrite Nat.sub_0_r.
  - rewrite length_app. cbn [List.length]. rewrite Hlen.
    split; [apply Z.ltb_lt; lia|].
    unfold at_index. destruct (Z.ltb_spec (Z.of_nat (S n + 1) - 1 - 1) 0); [lia|].
    replace (Z.to_nat (Z.of_nat (S n + 1) - 1 - 1)) with n by lia.
    rewrite nth_error_app1 by lia. exact Hk.
Qed.

(** An undo right after an operation that pushed restores the snapshot that
    was under the cursor when the operation began, whatever the timeline was
    at that moment. *)
Lemma undo_after_push_restores_cursor_snapshot (st st' : State)
    (v a : list VideoTrack.t) :
  (0 <= videoHistoryIndex st < Z.of_nat (List.length (videoHistory st)))%Z ->
  cursorSnapshot st = Some (Stringified v a) ->
  pushedFrom st st' ->
  exists st'', handleVideoUndo st' = Returned st''
               /\ videoTracks st'' = v /\ timelineAudioTracks st'' = a.
Proof.
  intros Hcur Hsnap [Hh Hi].
  destruct (pushVideoHistory_below_cursor st Hcur) as [Hpos Hbelow].
  unfold handleVideoUndo. rewrite Hh, Hi, Hpos, Hbelow, Hsnap. simpl.
  eexists. repeat split.
Qed.

(** C2 as stated fails.  After two mute toggles a single undo restores the
    timeline of the mount, not the timeline the second toggle started from;
    and a property update pushes nothing, so that the undo after it restores
    the empty timeline of the mount instead of the timeline with the clip. *)
Lemma undo_does_not_restore_pre_state :
  mutedTwice = runEdit (ToggleMute "v2" false) mutedOnce
  /\ (exists st,
        handleVideoUndo mutedTwice = Returned st
        /\ videoTracks st = videoTracks mounted
        /\ videoTracks st <> videoTracks mutedOnce)
  /\ historyUntouched selectedOne dimmed
  /\ videoTracks dimmed <> videoTracks selectedOne
  /\ (exists st,
        handleVideoUndo dimmed = Returned st
        /\ videoTracks st = videoTracks mounted
        /\ videoTracks st <> videoTracks selectedOne).
Proof.
  split; [reflexivity|].
  split.
  { eexists. split; [reflexivity|]. split; [reflexivity|].
    intro H. vm_compute in H. discriminate H. }
  split; [split; reflexivity|].
  split; [intro H; vm_compute in H; discriminate H|].
  eexists. split; [reflexivity|]. split; [reflexivity|].
  intro H. vm_compute in H. discriminate H.
Qed.

(** ** The lock flag *)

Lemma relockTracks_clips (f : VideoTrack.t -> bool) (tracks : list VideoTrack.t) :
  flat_map VideoTrack.clips (relockTracks f tracks) = flat_map VideoTrack.clips tracks.
Proof.
  unfold relockTracks. induction tracks as [|t ts IH]; simpl; [reflexivity|].
  now rewrite IH.
Qed.

Lemma relock_allClips (f : VideoTrack.t -> bool) (st : State) :
  allClips (relock f st) = allClips st.
Proof.
  unfold allClips. cbn [relock videoTracks timelineAudioTracks setVideoTracks
                          setTimelineAudioTracks].
  rewrite !flat_map_app, !relockTracks_clips. reflexivity.
Qed.

Lemma relock_dragStartTime (f : VideoTrack.t -> bool) (st : State) (e : MouseEvent) :
  dragStartTime (relock f st) e = dragStartTime st e.
Proof.
  unfold dragStartTime. rewrite relock_allClips. reflexivity.
Qed.

Lemma relock_find (f : VideoTrack.t -> bool) (trackId : string)
    (tracks : list VideoTrack.t) :
  find (fun t => String.eqb (VideoTrack.id t) trackId) (relockTracks f tracks)
  = option_map (fun t => VideoTrack.with_isLocked (f t) t)
      (find (fun t => String.eqb (VideoTrack.id t) trackId) tracks).
Proof.
  unfold relockTracks. induction tracks as [|t ts IH]; simpl; [reflexivity|].
  destruct (String.eqb (VideoTrack.id t) trackId); [reflexivity | exact IH].
Qed.

(** A track-wise rewrite that reads only the id and the clips of a track
    gives the same clips whatever the lock flags. *)
Lemma map_clips_relock (f : VideoTrack.t -> bool) (h : VideoTrack.t -> VideoTrack.t)
    (tracks : list VideoTrack.t) :
  (forall t b, VideoTrack.clips (h (VideoTrack.with_isLocked b t)) = VideoTrack.clips (h t)) ->
  map VideoTrack.clips (map h (relockTracks f tracks))
  = map VideoTrack.clips (map h tracks).
Proof.
  intro Hh. unfold relockTracks. rewrite !map_map. apply map_ext. intro t. apply Hh.
Qed.

Lemma map_clips_relockTracks (f : VideoTrack.t -> bool) (tracks : list VideoTrack.t) :
  map VideoTrack.clips (relockTracks f tracks) = map VideoTrack.clips tracks.
Proof. unfold relockTracks. rewrite map_map. reflexivity. Qed.

Lemma map_isLocked_keep (h : VideoTrack.t -> VideoTrack.t) (tracks : list VideoTrack.t) :
  (forall t, VideoTrack.isLocked (h t) = VideoTrack.isLocked t) ->
  map VideoTrack.isLocked (map h tracks) = map VideoTrack.isLocked tracks.
Proof. intro Hh. rewrite map_map. apply map_ext. exact Hh. Qed.

Lemma performSplit_relock (f : VideoTrack.t -> bool) (now : Z) (c : VideoClip.t)
    (trackId : string) (isAudio : bool) (relative : Q) (st : State) (which : bool) :
  map VideoTrack.clips
    (collection which (performSplit now c trackId isAudio relative (relock f st)))
  = map VideoTrack.clips
      (collection which (performSplit now c trackId isAudio relative st)).
Proof.
  unfold performSplit. destruct (splitRejected c relative).
  - destruct which; apply map_clips_relockTracks.
  - destruct isAudio, which; cbn [collection timelineAudioTracks videoTracks
      setTimelineAudioTracks setVideoTracks pushVideoHistory relock setVideoHistory setVideoHistoryIndex];
      try apply map_clips_relockTracks;
      unfold updateTracks; apply map_clips_relock; intros t b; cbn [VideoTrack.id VideoTrack.with_isLocked];
      destruct (negb (String.eqb (VideoTrack.id t) trackId)); reflexivity.
Qed.

Lemma performSplit_isLocked (now : Z) (c : VideoClip.t)
    (trackId : string) (isAudio : bool) (relative : Q) (st : State) (which : bool) :
  map VideoTrack.isLocked
    (collection which (performSplit now c trackId isAudio relative st))
  = map VideoTrack.isLocked (collection which st).
Proof.
  unfold performSplit. destruct (splitRejected c relative); [reflexivity|].
  destruct isAudio, which; cbn [collection timelineAudioTracks videoTracks
      setTimelineAudioTracks setVideoTracks pushVideoHistory setVideoHistory setVideoHistoryIndex];
    try reflexivity;
    unfold updateTracks; apply map_isLocked_keep; intro t;
    destruct (negb (String.eqb (VideoTrack.id t) trackId)); reflexivity.
Qed.

Lemma runTrackEdit_relock (f : VideoTrack.t -> bool) (ed : TrackEdit) (st : State)
    (which : bool) :
  map VideoTrack.clips (collection which (runTrackEdit ed (relock f st)))
  = map VideoTrack.clips (collection which (runTrackEdit ed st)).
Proof.
  destruct ed as [e|now e c trackId isAudio|now e trackId isAudio];
    cbn [runTrackEdit].
  - unfold handleTimelineMouseMove.
    rewrite relock_dragStartTime.
    change (isScrubbing (relock f st)) with (isScrubbing st).
    change (draggingClipId (relock f st)) with (draggingClipId st).
    change (videoEditTool (relock f st)) with (videoEditTool st).
    destruct (isScrubbing st).
    { destruct which; apply map_clips_relockTracks. }
    destruct (negb (truthy (draggingClipId st))).
    { destruct which; apply map_clips_relockTracks. }
    destruct (videoEditTool st).
    + destruct which; cbn [collection timelineAudioTracks videoTracks
        setTimelineAudioTracks setVideoTracks relock];
        apply map_clips_relock; intros t b; reflexivity.
    + destruct which; apply map_clips_relockTracks.
  - unfold handleClipMouseDown.
    change (videoEditTool (relock f st)) with (videoEditTool st).
    change (getTimelineTimeFromEvent (relock f st) e) with (getTimelineTimeFromEvent st e).
    destruct (videoEditTool st).
    + destruct (VideoClip.type c); destruct which; apply map_clips_relockTracks.
    + apply performSplit_relock.
  - unfold handleTrackDrop. destruct (clipData e) as [|src|bad].
    + destruct which; apply map_clips_relockTracks.
    + change (getTimelineTimeFromEvent (relock f st) (mouse e))
        with (getTimelineTimeFromEvent st (mouse e)).
      assert (Hempty :
        match find (fun t => String.eqb (VideoTrack.id t) trackId)
                (if isAudio then timelineAudioTracks (relock f st)
                 else videoTracks (relock f st)) with
        | Some track => Nat.eqb (List.length (VideoTrack.clips track)) 0
        | None => false
        end
        = match find (fun t => String.eqb (VideoTrack.id t) trackId)
                  (if isAudio then timelineAudioTracks st else videoTracks st) with
          | Some track => Nat.eqb (List.length (VideoTrack.clips track)) 0
          | None => false
          end).
      { destruct isAudio; cbn [relock timelineAudioTracks videoTracks
          setTimelineAudioTracks setVideoTracks];
          rewrite relock_find;
          match goal with |- context [find ?p ?l] => destruct (find p l) end;
          reflexivity. }
      rewrite Hempty.
      destruct isAudio, which; cbn [stateOf collection timelineAudioTracks videoTracks
        setTimelineAudioTracks setVideoTracks pushVideoHistory relock
        setVideoHistory setVideoHistoryIndex];
        try apply map_clips_relockTracks;
        apply map_clips_relock; intros t b; cbn [VideoTrack.id VideoTrack.with_isLocked];
        destruct (String.eqb (VideoTrack.id t) trackId); reflexivity.
    + destruct which; apply map_clips_relockTracks.
Qed.

Lemma runTrackEdit_isLocked (ed : TrackEdit) (st : State) (which : bool) :
  map VideoTrack.isLocked (collection which (runTrackEdit ed st))
  = map VideoTrack.isLocked (collection which st).
Proof.
  destruct ed as [e|now e c trackId isAudio|now e trackId isAudio];
    cbn [runTrackEdit].
  - unfold handleTimelineMouseMove.
    destruct (isScrubbing st); [destruct which; reflexivity|].
    destruct (negb (truthy (draggingClipId st))); [reflexivity|].
    destruct (videoEditTool st); [|reflexivity].
    destruct which; cbn [collection timelineAudioTracks videoTracks
      setTimelineAudioTracks setVideoTracks];
      apply map_isLocked_keep; intro t; reflexivity.
  - unfold handleClipMouseDown. destruct (videoEditTool st).
    + destruct (VideoClip.type c); destruct which; reflexivity.
    + apply performSplit_isLocked.
  - unfold handleTrackDrop. destruct (clipData e) as [|src|bad]; try reflexivity.
    destruct isAudio, which; cbn [stateOf collection timelineAudioTracks videoTracks
      setTimelineAudioTracks setVideoTracks pushVideoHistory
      setVideoHistory setVideoHistoryIndex];
      try reflexivity;
      apply map_isLocked_keep; intro t;
      destruct (String.eqb (VideoTrack.id t) trackId); reflexivity.
Qed.

(** C3, as the code has it.  No handler reads the lock flag: a move drag, a
    razor split and a drop leave in every track the clips they would leave
    had the lock flags been any others, and they hand the lock flag of every
    track on unchanged. *)
Theorem lock_flag_is_not_consulted (ed : TrackEdit) (st : State) (isAudioTrack : bool) :
  (forall f,
      map VideoTrack.clips (collection isAudioTrack (runTrackEdit ed (relock f st)))
      = map VideoTrack.clips (collection isAudioTrack (runTrackEdit ed st)))
  /\ map VideoTrack.isLocked (collection isAudioTrack (runTrackEdit ed st))
     = map VideoTrack.isLocked (collection isAudioTrack st).
Proof.
  split.
  - intro f. apply runTrackEdit_relock.
  - apply runTrackEdit_isLocked.
Qed.

(** C3 as stated fails: on a timeline whose video tracks are all locked, a
    drop on the locked track adds a clip to it, the razor cuts its clip in
    two, and a drag of 40 pixels moves its clip from 0 to 2. *)
Lemma locked_track_is_edited :
  forallb VideoTrack.isLocked (videoTracks lockedOne) = true
  /\ clipsOf "v1" (videoTracks lockedOne) = [placedClip]
  /\ List.length
       (clipsOf "v1"
          (videoTracks (runTrackEdit (DropClip 7 (dragTo 220 poolClip) "v1" false)
                          lockedOne))) = 2%nat
  /\ List.length
       (clipsOf "v1"
          (videoTracks (runTrackEdit (RazorSplit 7 (mkMouseEvent 160) placedClip "v1" false)
                          (setVideoEditTool razor lockedOne)))) = 2%nat
  /\ (exists moved,
        clipsOf "v1"
          (videoTracks (runTrackEdit (MoveDrag (mkMouseEvent 160)) lockedGrabbed))
        = [moved]
        /\ VideoClip.startTime moved == 2
        /\ moved <> placedClip).
Proof.
  split; [reflexivity|]. split; [reflexivity|]. split; [reflexivity|].
  split; [reflexivity|].
  eexists. split; [reflexivity|]. split; [reflexivity|].
  intro H. vm_compute in H. discriminate H.
Qed.

(** ** Active clips *)

Lemma find_first {A} (p : A -> bool) (xs : list A) (x : A) :
  find p xs = Some x ->
  exists pre post, xs = pre ++ x :: post /\ p x = true
                   /\ forall y, In y pre -> p y = false.
Proof.
  induction xs as [|y ys IH]; simpl; [discriminate|].
  destruct (p y) eqn:E.
  - intros [= ->]. exists [], ys. repeat split; trivial. intros ? [].
  - intro H. destruct (IH H) as (pre & post & -> & Hp & Hpre).
    exists (y :: pre), post. repeat split; trivial.
    intros z [<-|Hz]; [exact E | now apply Hpre].
Qed.




Lemma insertByTrackIndex_last (x : VisibleClip) (xs : list VisibleClip) :
  Forall (fun y => (trackIndex y <= trackIndex x)%nat) xs ->
  insertByTrackIndex x xs = xs ++ [x].
Proof.
  induction 1 as [|y ys Hy _ IH]; simpl; [reflexivity|].
  destruct (Nat.ltb_spec (trackIndex x) (trackIndex y)); [lia|].
  now rewrite IH.
Qed.

(** The sort after [forEach] finds its input in order already. *)
Lemma sortByTrackIndex_sorted (xs : list VisibleClip) :
  StronglySorted Nat.lt (map trackIndex xs) -> sortByTrackIndex xs = xs.
Proof.
  unfold sortByTrackIndex.
  enough (G : forall acc,
             StronglySorted Nat.lt (map trackIndex (acc ++ xs)) ->
             fold_left (fun a x => insertByTrackIndex x a) xs acc = acc ++ xs)
    by (intro H; apply (G [] H)).
  induction xs as [|x xs IH]; intros acc Hs; simpl.
  - now rewrite app_nil_r.
  - rewrite insertByTrackIndex_last.
    + rewrite IH; rewrite <- app_assoc; [reflexivity | exact Hs].
    + rewrite map_app in Hs. simpl in Hs.
      apply Forall_forall. intros y Hy.
      assert (Hlt : (trackIndex y < trackIndex x)%nat); [|lia].
      clear IH. induction acc as [|a acc IHa]; [destruct Hy|].
      simpl in Hs. inversion Hs as [|? ? Hrest Hall]; subst.
      destruct Hy as [<-|Hy].
      * rewrite Forall_forall in Hall. apply Hall.
        apply in_or_app. right. now left.
      * now apply IHa.
Qed.







(** Two clips of one track overlap at the playhead: one of them is listed. *)
Example overlapping_one_visible :
  List.length (clipsOf "v1" (videoTracks overlapping)) = 2%nat
  /\ forallb (visibleAt (currentVideoTime overlapping))
       (clipsOf "v1" (videoTracks overlapping)) = true
  /\ map clip (visibleClips (getAllActiveClips overlapping)) = [placedClip].
Proof. repeat split. Qed.

(** ** Magnet snap *)


Lemma snapStep_miss (d : option string) (thr v : Q) (c : VideoClip.t) :
  snapsOn d thr v c = false -> snapStep d thr v c = v.
Proof.
  unfold snapsOn, snapStep, VideoClip.endTime.
  destruct (eq_id (VideoClip.id c) d); cbn [negb andb]; [reflexivity|].
  intro H. apply orb_false_iff in H. destruct H as [He Hs].
  now rewrite He, Hs.
Qed.

Lemma snapStep_hit (d : option string) (thr v : Q) (c : VideoClip.t) :
  snapsOn d thr v c = true ->
  snapStep d thr v c = VideoClip.startTime c
  \/ snapStep d thr v c = VideoClip.endTime c.
Proof.
  unfold snapsOn, snapStep, VideoClip.endTime.
  destruct (eq_id (VideoClip.id c) d); cbn [negb andb]; [discriminate|].
  destruct (Qltb (Qabs (v - (VideoClip.startTime c + VideoClip.duration c))) thr);
    cbn [orb].
  - intros _.
    match goal with |- context [if ?b then _ else _] => destruct b end;
      [now left | now right].
  - intros ->. now left.
Qed.

Lemma snapLoop_all_miss (d : option string) (thr : Q) (post : list VideoClip.t) (v : Q) :
  Forall (fun o => snapsOn d thr v o = false) post -> snapLoop d thr post v = v.
Proof.
  unfold snapLoop. induction 1 as [|o post Ho _ IH]; simpl; [reflexivity|].
  now rewrite (snapStep_miss _ _ _ _ Ho).
Qed.

Lemma snapLoop_last_hit (d : option string) (thr : Q) (pre post : list VideoClip.t)
    (c : VideoClip.t) (v : Q) :
  snapsOn d thr (snapLoop d thr pre v) c = true ->
  Forall (fun o => snapsOn d thr (snapStep d thr (snapLoop d thr pre v) c) o = false)
         post ->
  snapLoop d thr (pre ++ c :: post) v = snapStep d thr (snapLoop d thr pre v) c
  /\ (snapLoop d thr (pre ++ c :: post) v = VideoClip.startTime c
      \/ snapLoop d thr (pre ++ c :: post) v = VideoClip.endTime c).
Proof.
  intros Hhit Hpost.
  assert (E : snapLoop d thr (pre ++ c :: post) v
              = snapStep d thr (snapLoop d thr pre v) c).
  { unfold snapLoop at 1. rewrite fold_left_app. simpl.
    apply (snapLoop_all_miss d thr post _ Hpost). }
  split; [exact E|]. rewrite E. now apply snapStep_hit.
Qed.

Lemma dragStartTime_magnet (st : State) (e : MouseEvent) :
  dragStartTime st e
  = if isMagnetEnabled st
    then magnetSnap (draggingClipId st) (15 / timelineScale st) (allClips st)
           (dragCandidate st e)
    else dragCandidate st e.
Proof. reflexivity. Qed.


(** The last-hit lemma on the sample drag: X snaps first, Y is the last clip
    on which a test succeeds, the dragged clip D is skipped. *)
Example snap_last_hit_example :
  snapLoop (Some "D"%string) (3 # 4)
    ([clipAt "X" (101 # 10) 5] ++ clipAt "Y" 9 (3 # 2) :: [clipAt "D" 10 1]) 10
  = VideoClip.endTime (clipAt "Y" 9 (3 # 2)).
Proof.
  destruct (snapLoop_last_hit (Some "D"%string) (3 # 4)
              [clipAt "X" (101 # 10) 5] [clipAt "D" 10 1] (clipAt "Y" 9 (3 # 2)) 10)
    as [E _].
  - reflexivity.
  - repeat constructor.
  - rewrite E. reflexivity.
Qed.

(** ** The history over a session *)

Lemma slice0_length {A} (xs : list A) (e : Z) :
  (List.length (slice0 xs e) <= List.length xs)%nat.
Proof. unfold slice0. rewrite length_firstn. lia. Qed.

Lemma pushVideoHistory_length (st : State) :
  (List.length (videoHistory st) <= 20)%nat ->
  (1 <= List.length (videoHistory (pushVideoHistory st)) <= 20)%nat
  /\ videoHistoryIndex (pushVideoHistory st)
     = (Z.of_nat (List.length (videoHistory (pushVideoHistory st))) - 1)%Z.
Proof.
  intro H. unfold pushVideoHistory.
  cbn [videoHistory videoHistoryIndex setVideoHistory setVideoHistoryIndex].
  set (kept := slice0 (videoHistory st) (videoHistoryIndex st + 1)).
  set (s := JSON_stringify _ _).
  pose proof (slice0_length (videoHistory st) (videoHistoryIndex st + 1)) as Hk.
  fold kept in Hk.
  destruct (Z.ltb_spec 20 (Z.of_nat (List.length (kept ++ [s])))) as [Hlong|Hshort];
    rewrite length_app in *; cbn [List.length] in *.
  - destruct kept as [|x xs]; cbn [List.length app tl] in *; [lia|].
    rewrite length_app. cbn [List.length]. split; [lia | reflexivity].
  - split; [lia | reflexivity].
Qed.

Lemma pushVideoHistory_wellFormed (st : State) :
  historyWellFormed st -> historyWellFormed (pushVideoHistory st).
Proof.
  intros (Hlen & _ & Hp).
  destruct (pushVideoHistory_length st Hlen) as [Hl Hi].
  split; [lia|]. split; [lia|]. now apply pushVideoHistory_parses.
Qed.

Lemma historyWellFormed_ext (st st' : State) :
  videoHistory st' = videoHistory st -> videoHistoryIndex st' = videoHistoryIndex st ->
  historyWellFormed st -> historyWellFormed st'.
Proof. unfold historyWellFormed. intros -> ->. trivial. Qed.

Lemma at_index_parses (h : list Snapshot) (i : Z) :
  Forall (fun s => parses s = true) h -> (0 <= i < Z.of_nat (List.length h))%Z ->
  exists v a, at_index h i = Some (Stringified v a).
Proof.
  intros Hp Hi. unfold at_index. destruct (Z.ltb_spec i 0); [lia|].
  destruct (nth_error h (Z.to_nat i)) as [s|] eqn:E.
  - rewrite Forall_forall in Hp. specialize (Hp s (nth_error_In _ _ E)).
    destruct s; [eauto | discriminate].
  - apply nth_error_None in E. lia.
Qed.

Lemma handleVideoUndo_wellFormed (st : State) :
  historyWellFormed st ->
  historyWellFormed (stateOf (handleVideoUndo st))
  /\ exists st', handleVideoUndo st = Returned st'.
Proof.
  intros (Hlen & Hi & Hp). unfold handleVideoUndo.
  destruct (Z.ltb_spec 0 (videoHistoryIndex st)) as [Hpos|Hnot].
  - destruct (at_index_parses (videoHistory st) (videoHistoryIndex st - 1) Hp)
      as (v & a & E); [lia|].
    rewrite E. cbn [JSON_parse stateOf]. split; [|eauto].
    unfold historyWellFormed.
    cbn [videoHistory videoHistoryIndex setVideoHistoryIndex setVideoTracks
           setTimelineAudioTracks].
    split; [exact Hlen|]. split; [lia | exact Hp].
  - split; [now repeat split | eauto].
Qed.

Lemma handleVideoRedo_wellFormed (st : State) :
  historyWellFormed st ->
  historyWellFormed (stateOf (handleVideoRedo st))
  /\ exists st', handleVideoRedo st = Returned st'.
Proof.
  intros (Hlen & Hi & Hp). unfold handleVideoRedo.
  destruct (Z.ltb_spec (videoHistoryIndex st)
              (Z.of_nat (List.length (videoHistory st)) - 1)) as [Hlt|Hnot].
  - destruct (at_index_parses (videoHistory st) (videoHistoryIndex st + 1) Hp)
      as (v & a & E); [lia|].
    rewrite E. cbn [JSON_parse stateOf]. split; [|eauto].
    unfold historyWellFormed.
    cbn [videoHistory videoHistoryIndex setVideoHistoryIndex setVideoTracks
           setTimelineAudioTracks].
    split; [exact Hlen|]. split; [lia | exact Hp].
  - split; [now repeat split | eauto].
Qed.

Lemma pushedFrom_wellFormed (st st' : State) :
  historyWellFormed st -> pushedFrom st st' -> historyWellFormed st'.
Proof.
  intros H [Hh Hi].
  apply (historyWellFormed_ext (pushVideoHistory st) st' Hh Hi).
  now apply pushVideoHistory_wellFormed.
Qed.

Lemma runEdit_wellFormed (op : PushingEdit) (st : State) :
  historyWellFormed st -> historyWellFormed (runEdit op st).
Proof.
  intro H. destruct (runEdit_pushes op st) as [E|[[_ [Hh Hi]]|P]].
  - now rewrite E.
  - exact (historyWellFormed_ext st _ Hh Hi H).
  - exact (pushedFrom_wellFormed st _ H P).
Qed.

Lemma perform_wellFormed (a : Action) (st : State) :
  historyWellFormed st -> historyWellFormed (perform a st).
Proof.
  intro H.
  destruct a as [|now e trackId isAudioTrack|now|now e c trackId isAudioTrack|
                 |trackId isAudioTrack|u|e| |e| | |tool|scale|recording time lastTime];
    cbn [perform].
  - unfold mountEffect. destruct (Nat.eqb _ 0); [now apply pushVideoHistory_wellFormed | exact H].
  - exact (runEdit_wellFormed (DropOnTrack now e trackId isAudioTrack) st H).
  - exact (runEdit_wellFormed (SplitAtPlayhead now) st H).
  - exact (runEdit_wellFormed (ClipMouseDown now e c trackId isAudioTrack) st H).
  - exact (runEdit_wellFormed DeleteSelected st H).
  - exact (runEdit_wellFormed (ToggleMute trackId isAudioTrack) st H).
  - unfold updateSelectedClip. destruct (negb _); exact H.
  - unfold handleTimelineMouseMove. destruct (isScrubbing st); [exact H|].
    destruct (negb _); [exact H|]. destruct (videoEditTool st); exact H.
  - unfold handleTimelineMouseUp. destruct (truthy _); [|exact H].
    apply (historyWellFormed_ext (pushVideoHistory st)); try reflexivity.
    now apply pushVideoHistory_wellFormed.
  - exact H.
  - now apply handleVideoUndo_wellFormed.
  - now apply handleVideoRedo_wellFormed.
  - exact H.
  - exact H.
  - unfold animate. destruct (Qgeb _ _); exact H.
Qed.

(** X1. Whatever the events of a session from the first render, the history
    holds at most 20 snapshots, the cursor is on one of them (or is -1 while
    there is none), every snapshot parses, and so neither undo nor redo
    throws. *)
Theorem session_history_well_formed (actions : list Action) :
  historyWellFormed (run actions initialState)
  /\ (exists st', handleVideoUndo (run actions initialState) = Returned st')
  /\ (exists st', handleVideoRedo (run actions initialState) = Returned st').
Proof.
  assert (G : forall st, historyWellFormed st -> historyWellFormed (run actions st)).
  { unfold run. induction actions as [|a rest IH]; intros st H; simpl; [exact H|].
    apply IH. now apply perform_wellFormed. }
  assert (H0 : historyWellFormed initialState).
  { split; [simpl; lia|]. split; [simpl; lia | constructor]. }
  specialize (G initialState H0).
  split; [exact G|].
  split; [apply handleVideoUndo_wellFormed | apply handleVideoRedo_wellFormed]; exact G.
Qed.

(** ** Shape of the history after a push *)

Lemma slice0_firstn {A} (xs : list A) (i : Z) :
  (-1 <= i)%Z -> slice0 xs (i + 1) = firstn (Z.to_nat (i + 1)) xs.
Proof.
  intro H. unfold slice0. destruct (Z.ltb_spec (i + 1) 0); [lia|].
  destruct (Z.min_spec (i + 1) (Z.of_nat (List.length xs))) as [[_ ->]|[Hle ->]];
    [reflexivity|].
  rewrite Nat2Z.id. rewrite firstn_all. symmetry. apply firstn_all2. lia.
Qed.

(** X2. A push keeps the snapshots up to the cursor, drops the ones above it
    (the redo entries) and appends the snapshot of the current timeline;
    a redo right after a push does nothing. *)
Theorem push_discards_redo (st : State)
    (Hcur : (-1 <= videoHistoryIndex st < 19)%Z) :
  videoHistory (pushVideoHistory st)
  = firstn (Z.to_nat (videoHistoryIndex st + 1)) (videoHistory st) ++ [snapshotOf st]
  /\ handleVideoRedo (pushVideoHistory st) = Returned (pushVideoHistory st).
Proof.
  split.
  - unfold pushVideoHistory.
    cbn [videoHistory setVideoHistory setVideoHistoryIndex].
    rewrite slice0_firstn by lia.
    set (kept := firstn _ _).
    assert (Hk : (List.length kept <= Z.to_nat (videoHistoryIndex st + 1))%nat)
      by apply firstn_le_length.
    destruct (Z.ltb_spec 20 (Z.of_nat (List.length (kept ++ [JSON_stringify (videoTracks st) (timelineAudioTracks st)]))))
      as [Hlong|_]; [|reflexivity].
    rewrite length_app in Hlong. cbn [List.length] in Hlong. lia.
  - unfold handleVideoRedo, pushVideoHistory.
    cbn [videoHistory videoHistoryIndex setVideoHistory setVideoHistoryIndex].
    rewrite Z.ltb_irrefl. reflexivity.
Qed.

Lemma push_discards_redo_witness :
  List.length (videoHistory undoneOnce) = 3%nat
  /\ videoHistoryIndex undoneOnce = 1%Z
  /\ List.length (videoHistory (pushVideoHistory undoneOnce)) = 3%nat
  /\ handleVideoRedo (pushVideoHistory undoneOnce) = Returned (pushVideoHistory undoneOnce).
Proof.
  assert (Hcur : (-1 <= videoHistoryIndex undoneOnce < 19)%Z) by (change (videoHistoryIndex undoneOnce) with 1%Z; lia).
  destruct (push_discards_redo undoneOnce Hcur) as [Hh Hr].
  split; [reflexivity|]. split; [reflexivity|].
  split; [rewrite Hh; reflexivity | exact Hr].
Defined.

(** X3. A push on a full history (20 snapshots, the cursor on the last) drops
    the oldest snapshot and appends the new one: 20 snapshots again, the
    cursor on the last. *)
Theorem push_on_full_history_drops_oldest (st : State)
    (Hfull : List.length (videoHistory st) = 20%nat)
    (Hcur : videoHistoryIndex st = 19%Z) :
  videoHistory (pushVideoHistory st) = tl (videoHistory st) ++ [snapshotOf st]
  /\ List.length (videoHistory (pushVideoHistory st)) = 20%nat
  /\ videoHistoryIndex (pushVideoHistory st) = 19%Z.
Proof.
  assert (E : videoHistory (pushVideoHistory st) = tl (videoHistory st) ++ [snapshotOf st]).
  { unfold pushVideoHistory.
    cbn [videoHistory setVideoHistory setVideoHistoryIndex].
    rewrite slice0_firstn by lia. rewrite Hcur.
    change (Z.to_nat (19 + 1)) with 20%nat. rewrite <- Hfull, firstn_all.
    rewrite length_app, Hfull. cbn [List.length Nat.add Z.of_nat Z.ltb Z.compare
      Pos.of_succ_nat Pos.succ Pos.compare Pos.compare_cont].
    apply tl_snoc. intro E. rewrite E in Hfull. discriminate. }
  split; [exact E|].
  assert (L : List.length (videoHistory (pushVideoHistory st)) = 20%nat).
  { rewrite E, length_app. cbn [List.length].
    destruct (videoHistory st); simpl in *; lia. }
  split; [exact L|].
  unfold pushVideoHistory in *.
  cbn [videoHistory videoHistoryIndex setVideoHistory setVideoHistoryIndex] in *.
  rewrite L. reflexivity.
Qed.

Lemma push_on_full_history_drops_oldest_witness :
  videoHistory (pushVideoHistory fullHistory)
  = tl (videoHistory fullHistory) ++ [snapshotOf fullHistory]
  /\ videoHistoryIndex (pushVideoHistory fullHistory) = 19%Z.
Proof.
  destruct (push_on_full_history_drops_oldest fullHistory eq_refl eq_refl)
    as (H1 & _ & H3).
  split; [exact H1 | exact H3].
Defined.

(** ** Undo and redo in turn *)

(** X4. With the cursor on a snapshot of a history whose entries parse, an
    undo followed by a redo, and a redo followed by an undo, both end with
    the cursor where it was and the timeline of the snapshot under it: the
    state of the start with its timeline replaced by that snapshot. *)
Theorem undo_redo_round_trip (st : State) (v a : list VideoTrack.t)
    (Hp : Forall (fun s => parses s = true) (videoHistory st))
    (Hcur : (0 <= videoHistoryIndex st < Z.of_nat (List.length (videoHistory st)))%Z)
    (Hsnap : cursorSnapshot st = Some (Stringified v a)) :
  ((0 < videoHistoryIndex st)%Z ->
   exists st1, handleVideoUndo st = Returned st1
               /\ handleVideoRedo st1
                  = Returned (setTimelineAudioTracks a (setVideoTracks v st)))
  /\ ((videoHistoryIndex st < Z.of_nat (List.length (videoHistory st)) - 1)%Z ->
      exists st1, handleVideoRedo st = Returned st1
                  /\ handleVideoUndo st1
                     = Returned (setTimelineAudioTracks a (setVideoTracks v st))).
Proof.
  unfold cursorSnapshot in Hsnap. split; intro H.
  - destruct (at_index_parses (videoHistory st) (videoHistoryIndex st - 1) Hp)
      as (v' & a' & E); [lia|].
    unfold handleVideoUndo. apply Z.ltb_lt in H. rewrite H, E. cbn [JSON_parse].
    eexists. split; [reflexivity|].
    unfold handleVideoRedo.
    cbn [videoHistory videoHistoryIndex setVideoHistoryIndex setVideoTracks
           setTimelineAudioTracks].
    replace (videoHistoryIndex st - 1 <? Z.of_nat (List.length (videoHistory st)) - 1)%Z
      with true by (symmetry; apply Z.ltb_lt; lia).
    replace (videoHistoryIndex st - 1 + 1)%Z with (videoHistoryIndex st) by lia.
    rewrite Hsnap. cbn [JSON_parse]. reflexivity.
  - destruct (at_index_parses (videoHistory st) (videoHistoryIndex st + 1) Hp)
      as (v' & a' & E); [lia|].
    unfold handleVideoRedo. apply Z.ltb_lt in H. rewrite H, E. cbn [JSON_parse].
    eexists. split; [reflexivity|].
    unfold handleVideoUndo.
    cbn [videoHistory videoHistoryIndex setVideoHistoryIndex setVideoTracks
           setTimelineAudioTracks].
    replace (0 <? videoHistoryIndex st + 1)%Z with true
      by (symmetry; apply Z.ltb_lt; lia).
    replace (videoHistoryIndex st + 1 - 1)%Z with (videoHistoryIndex st) by lia.
    rewrite Hsnap. cbn [JSON_parse]. reflexivity.
Qed.

Lemma undo_redo_round_trip_witness :
  exists st1,
    handleVideoUndo undoneOnce = Returned st1
    /\ handleVideoRedo st1
       = Returned (setTimelineAudioTracks (timelineAudioTracks mounted)
                     (setVideoTracks (videoTracks mounted) undoneOnce)).
Proof.
  assert (Hp : Forall (fun s => parses s = true) (videoHistory undoneOnce))
    by (repeat constructor).
  assert (Hcur : (0 <= videoHistoryIndex undoneOnce
                  < Z.of_nat (List.length (videoHistory undoneOnce)))%Z)
    by (change (videoHistoryIndex undoneOnce) with 1%Z;
        change (List.length (videoHistory undoneOnce)) with 3%nat; lia).
  destruct (undo_redo_round_trip undoneOnce (videoTracks mounted)
              (timelineAudioTracks mounted) Hp Hcur eq_refl) as [H _].
  apply H. reflexivity.
Defined.

(** ** The time grid *)




(** X5. [roundTime] in double precision, on times within 2^32 seconds:
    the result is the double nearest to a multiple of 0.0001; it is within
    0.000052 of the time (half a grid step and the rounding of the product
    and of the quotient); a second [roundTime] changes nothing; a time that
    is not negative stays so.  Half a grid step is not a bound: the double
    0.00035 goes to 0.0004, further than half a step away. *)
Theorem roundTime_grid :
  (forall x, exists k : Z, Double.roundTime x = Double.literal (Qmake k 10000))
  /\ (forall x, - (4294967296 # 1) <= x -> x <= 4294967296 ->
        Qabs (Double.roundTime x - x) <= 52 # 1000000)
  /\ (forall x, - (4294967296 # 1) <= x -> x <= 4294967296 ->
        Double.roundTime (Double.roundTime x) = Double.roundTime x)
  /\ (forall x, 0 <= x -> 0 <= Double.roundTime x)
  /\ Double.roundTime (Double.literal (35 # 100000)) = Double.literal (4 # 10000)
  /\ 1 # 20000 < Double.literal (4 # 10000) - Double.literal (35 # 100000).
Proof.
  split.
  { intro x. exists (Math_round (Double.mul x 10000)).
    unfold Double.roundTime, Double.div, Double.literal. f_equal.
    unfold Qdiv, Qmult, Qinv, inject_Z. cbn [Qnum Qden]. f_equal. apply Z.mul_1_r. }
  split; [intros x H0 H1; apply Double_roundTime_near; lra|].
  split; [exact Double_roundTime_fixed|].
  split; [exact Double_roundTime_nonneg|].
  split; vm_compute; reflexivity.
Qed.

(** ** Pointer position on the timeline *)




(** ** Delete *)

Lemma Forall2_map_self {A B} (R : A -> B -> Prop) (f : A -> B) (l : list A) :
  (forall x, R x (f x)) -> Forall2 R l (map f l).
Proof. intro H. induction l; cbn [map]; constructor; auto. Qed.

Lemma in_allClips (st : State) (c : VideoClip.t) :
  In c (allClips st) <->
  exists t, (In t (videoTracks st) \/ In t (timelineAudioTracks st))
            /\ In c (VideoTrack.clips t).
Proof.
  unfold allClips. rewrite in_flat_map. split.
  - intros (t & Ht & Hc). exists t. split; [now apply in_app_or | exact Hc].
  - intros (t & Ht & Hc). exists t. split; [now apply in_or_app | exact Hc].
Qed.

(** X7. Deleting with a clip selected clears the selection and takes the
    clips of the selected id out of every track of both collections: the
    tracks are the same tracks in the same order, each with its other
    clips in the order they had.  A snapshot of the timeline it started
    from is pushed, and nothing else of the state changes. *)
Theorem delete_removes_selected (st : State) (sel : string)
    (Hsel : selectedClipId st = Some sel) (Hne : sel <> ""%string) :
  let st' := handleDeleteClip st in
  selectedClipId st' = None
  /\ (forall isAudioTrack,
        Forall2 (fun t t' =>
                   VideoTrack.with_clips (VideoTrack.clips t) t' = t
                   /\ VideoTrack.clips t'
                      = filter (fun c => negb (String.eqb (VideoClip.id c) sel))
                               (VideoTrack.clips t))
                (collection isAudioTrack st) (collection isAudioTrack st'))
  /\ (forall c, In c (allClips st') <-> In c (allClips st) /\ VideoClip.id c <> sel)
  /\ pushedFrom st st'
  /\ cursorSnapshot st' = Some (snapshotOf st)
  /\ elsewhereUntouched st (setSelectedClipId (Some sel) st').
Proof.
  intro st'.
  assert (Ht : truthy (selectedClipId st) = true).
  { rewrite Hsel. simpl. destruct (String.eqb_spec sel ""); [contradiction | reflexivity]. }
  assert (E : st' = setSelectedClipId None
                      (setTimelineAudioTracks
                         (map (fun t => VideoTrack.with_clips
                                 (filter (fun c => negb (eq_id (VideoClip.id c) (Some sel)))
                                         (VideoTrack.clips t)) t)
                              (timelineAudioTracks st))
                         (setVideoTracks
                            (map (fun t => VideoTrack.with_clips
                                    (filter (fun c => negb (eq_id (VideoClip.id c) (Some sel)))
                                            (VideoTrack.clips t)) t)
                                 (videoTracks st))
                            (pushVideoHistory st)))).
  { unfold st', handleDeleteClip. rewrite Ht, Hsel. reflexivity. }
  rewrite E. split; [reflexivity|].
  split.
  { intro isAudioTrack.
    destruct isAudioTrack;
      cbn [collection videoTracks timelineAudioTracks setSelectedClipId
             setTimelineAudioTracks setVideoTracks pushVideoHistory setVideoHistory
             setVideoHistoryIndex];
      apply Forall2_map_self; intro t; split; [now destruct t | reflexivity
                                                | now destruct t | reflexivity]. }
  split.
  { intro c. rewrite !in_allClips.
    cbn [videoTracks timelineAudioTracks setSelectedClipId setTimelineAudioTracks
           setVideoTracks pushVideoHistory setVideoHistory setVideoHistoryIndex].
    split.
    - intros (t & Hin & Hc).
      assert (G : exists t0, (In t0 (videoTracks st) \/ In t0 (timelineAudioTracks st))
                /\ In c (filter (fun c => negb (eq_id (VideoClip.id c) (Some sel)))
                           (VideoTrack.clips t0))).
      { destruct Hin as [Hin|Hin]; apply in_map_iff in Hin;
          destruct Hin as (t0 & <- & Ht0); exists t0; (split; [|exact Hc]); tauto. }
      destruct G as (t0 & Ht0 & Hf). apply filter_In in Hf. destruct Hf as [Hc0 Hp].
      split; [now exists t0|].
      intro Hid. simpl in Hp. rewrite Hid, String.eqb_refl in Hp. discriminate.
    - intros [(t & Hin & Hc) Hid].
      exists (VideoTrack.with_clips
                (filter (fun c => negb (eq_id (VideoClip.id c) (Some sel)))
                        (VideoTrack.clips t)) t).
      split.
      + destruct Hin as [Hin|Hin]; [left | right]; apply in_map_iff; now exists t.
      + cbn [VideoTrack.clips VideoTrack.with_clips]. apply filter_In.
        split; [exact Hc|]. simpl.
        destruct (String.eqb_spec (VideoClip.id c) sel); [contradiction | reflexivity]. }
  split; [split; reflexivity|].
  split; [apply pushedFrom_cursor; split; reflexivity|].
  unfold elsewhereUntouched. destruct st. cbn in Hsel. subst. reflexivity.
Qed.

(** The sample timeline: its one clip goes, its three video tracks stay. *)
Lemma delete_removes_selected_witness :
  selectedClipId (handleDeleteClip selectedOne) = None
  /\ videoTracks (handleDeleteClip selectedOne)
     = [ emptyTrack "v1" "فيديو 1"; emptyTrack "v2" "فيديو 2";
         emptyTrack "v3" "نصوص/FX" ]
  /\ forall isAudioTrack,
       Forall2 (fun t t' =>
                  VideoTrack.with_clips (VideoTrack.clips t) t' = t
                  /\ VideoTrack.clips t'
                     = filter (fun c => negb (String.eqb (VideoClip.id c) (toString 2)))
                              (VideoTrack.clips t))
               (collection isAudioTrack selectedOne)
               (collection isAudioTrack (handleDeleteClip selectedOne)).
Proof.
  assert (Hne : toString 2 <> ""%string) by discriminate.
  destruct (delete_removes_selected selectedOne (toString 2) eq_refl Hne) as (H1 & H2 & _).
  split; [exact H1|]. split; [reflexivity | exact H2].
Defined.

(** ** Fragments of a split *)

(** What the guard gives in exact terms: the relative time lies strictly
    inside the clip. *)
Lemma guard_inside (c : VideoClip.t) (relative : Q) :
  Double.literal (1 # 10) <= relative ->
  Double.literal (1 # 10) <= Double.sub (VideoClip.duration c) relative ->
  (1 # 10) < relative /\ 0 < VideoClip.duration c - relative.
Proof.
  intros Hlo Hhi. pose proof tenth_positive as P. split.
  - eapply Qlt_le_trans; [|exact Hlo]. vm_compute. reflexivity.
  - apply Qnot_le_lt. intro Hle. pose proof (rnd_nonpos _ Hle) as Hn.
    unfold Double.sub in Hhi. lra.
Qed.

(** X8. The two fragments of a split that passes the guard tile the clip:
    the end of A, as the double sum of its start and duration, is the start
    of B; A is at least 0.1 long and so is B after its duration has been
    quantised; on a timeline within 2^32 seconds B ends within 0.00006 of
    the end of the clip.  The fragments differ from the clip the handler
    holds in nothing but the fields the split sets: restoring those gives
    that clip back, and when it is the playhead's copy of a stored clip,
    restoring the two properties of the copy as well gives the stored
    clip. *)
Theorem split_fragments_tile (now : Z) (c : VideoClip.t) (relative : Q)
    (Hlo : Double.literal (1 # 10) <= relative)
    (Hhi : Double.literal (1 # 10) <= Double.sub (VideoClip.duration c) relative) :
  let a := clipA c relative in
  let b := clipB now c relative in
  let restoreA x :=
    VideoClip.with_trimEnd (VideoClip.trimEnd c)
      (VideoClip.with_duration (VideoClip.duration c) x) in
  let restoreB x :=
    VideoClip.with_id (VideoClip.id c)
      (VideoClip.with_duration (VideoClip.duration c)
         (VideoClip.with_trimStart (VideoClip.trimStart c)
            (VideoClip.with_startTime (VideoClip.startTime c) x))) in
  Double.add (VideoClip.startTime a) (VideoClip.duration a) = VideoClip.startTime b
  /\ Double.literal (1 # 10) <= VideoClip.duration a
  /\ (VideoClip.duration c <= 4294967296 ->
      Double.literal (1 # 10) <= VideoClip.duration b)
  /\ (0 <= VideoClip.startTime c -> VideoClip.startTime c <= 4294967296 ->
      VideoClip.duration c <= 4294967296 ->
      Qabs (VideoClip.endTime b - VideoClip.endTime c) <= 6 # 100000)
  /\ restoreA a = c
  /\ restoreB b = c
  /\ (forall trackId isAudio c0,
        c = tagged trackId isAudio c0 ->
        VideoClip.with_isAudio (VideoClip.isAudio c0)
          (VideoClip.with_trackId (VideoClip.trackId c0) (restoreA a)) = c0
        /\ VideoClip.with_isAudio (VideoClip.isAudio c0)
             (VideoClip.with_trackId (VideoClip.trackId c0) (restoreB b)) = c0).
Proof.
  intros a b restoreA restoreB.
  destruct (guard_inside c relative Hlo Hhi) as [Hr Hd].
  set (d := VideoClip.duration c) in *.
  assert (Hsub : d <= 4294967296 ->
                 - (1 # 2097152) <= Double.sub d relative - (d - relative)
                 /\ Double.sub d relative - (d - relative) <= 1 # 2097152).
  { intro Hbig.
    destruct (rnd_error_within (d - relative) 4294967296 32) as [X1 X2];
      [lra | lra | vm_compute; discriminate | lia |].
    split; assumption. }
  split; [reflexivity|]. split; [exact Hlo|].
  split.
  { intro Hbig. destruct (Hsub Hbig) as [X1 X2].
    change (VideoClip.duration b) with (Double.roundTime (Double.sub d relative)).
    apply Double_roundTime_ge_tenth; [exact Hhi | lra]. }
  split.
  { intros Hs0 Hs1 Hbig. destruct (Hsub Hbig) as [X1 X2].
    unfold VideoClip.endTime.
    change (VideoClip.duration b) with (Double.roundTime (Double.sub d relative)).
    change (VideoClip.startTime b) with (Double.add (VideoClip.startTime c) relative).
    fold d. set (s := VideoClip.startTime c) in *.
    pose proof (Double_roundTime_near (Double.sub d relative) ltac:(lra) ltac:(lra)) as Hn.
    apply Qabs_Qle_condition in Hn. destruct Hn as [Hn1 Hn2].
    destruct (rnd_error_within (s + relative) 8589934592 33) as [S1 S2];
      [lra | lra | vm_compute; discriminate | lia |].
    fold (Double.add s relative) in S1, S2.
    change (Double.pow2 (33 - 53)) with (1 # 1048576) in S1, S2.
    apply Qabs_Qle_condition. split; lra. }
  split; [now destruct c|]. split; [now destruct c|].
  intros trackId isAudio c0 ->. split; now destruct c0.
Qed.

Lemma split_fragments_tile_witness :
  Double.add (VideoClip.startTime (clipA placedClip 2)) (VideoClip.duration (clipA placedClip 2))
  = VideoClip.startTime (clipB 3 placedClip 2)
  /\ Double.literal (1 # 10) <= VideoClip.duration (clipB 3 placedClip 2)
  /\ Qabs (VideoClip.endTime (clipB 3 placedClip 2) - VideoClip.endTime placedClip)
     <= 6 # 100000.
Proof.
  assert (Hlo : Double.literal (1 # 10) <= 2) by (vm_compute; discriminate).
  assert (Hhi : Double.literal (1 # 10) <= Double.sub (VideoClip.duration placedClip) 2)
    by (vm_compute; discriminate).
  pose proof (split_fragments_tile 3 placedClip 2 Hlo Hhi) as T.
  cbv zeta in T. destruct T as (H1 & _ & H3 & H4 & _).
  split; [exact H1|]. split; [apply H3 | apply H4]; vm_compute; discriminate.
Defined.

(** X9. On a timeline within 2^32 seconds, a clip whose trim window is as
    long as its duration ([trimEnd = trimStart + duration], as import and
    creation make it) is split into fragments whose trim windows agree
    with their durations: for A, [trimEnd] is the double sum of [trimStart]
    and [duration]; for B the two differ by at most 0.00006, and they can
    differ (0.1 + 0.2 is not the double 0.3). *)
Theorem split_keeps_trim_window (now : Z) (c : VideoClip.t) (relative : Q)
    (Hlo : Double.literal (1 # 10) <= relative)
    (Hhi : Double.literal (1 # 10) <= Double.sub (VideoClip.duration c) relative)
    (Hwin : VideoClip.trimEnd c == VideoClip.trimStart c + VideoClip.duration c)
    (Hts0 : 0 <= VideoClip.trimStart c) (Hts1 : VideoClip.trimStart c <= 4294967296)
    (Hbig : VideoClip.duration c <= 4294967296) :
  let a := clipA c relative in
  let b := clipB now c relative in
  VideoClip.trimEnd a = Double.add (VideoClip.trimStart a) (VideoClip.duration a)
  /\ Qabs (VideoClip.trimStart b + VideoClip.duration b - VideoClip.trimEnd b)
     <= 6 # 100000.
Proof.
  intros a b. split; [reflexivity|].
  destruct (guard_inside c relative Hlo Hhi) as [Hr Hd].
  change (VideoClip.duration b)
    with (Double.roundTime (Double.sub (VideoClip.duration c) relative)).
  change (VideoClip.trimStart b) with (Double.add (VideoClip.trimStart c) relative).
  change (VideoClip.trimEnd b) with (VideoClip.trimEnd c).
  set (d := VideoClip.duration c) in *. set (s := VideoClip.trimStart c) in *.
  destruct (rnd_error_within (d - relative) 4294967296 32) as [X1 X2];
    [lra | lra | vm_compute; discriminate | lia |].
  fold (Double.sub d relative) in X1, X2.
  change (Double.pow2 (32 - 53)) with (1 # 2097152) in X1, X2.
  pose proof (Double_roundTime_near (Double.sub d relative) ltac:(lra) ltac:(lra)) as Hn.
  apply Qabs_Qle_condition in Hn. destruct Hn as [Hn1 Hn2].
  destruct (rnd_error_within (s + relative) 8589934592 33) as [S1 S2];
    [lra | lra | vm_compute; discriminate | lia |].
  fold (Double.add s relative) in S1, S2.
  change (Double.pow2 (33 - 53)) with (1 # 1048576) in S1, S2.
  apply Qabs_Qle_condition. split; lra.
Qed.

(** A clip 0.3 s long split at 0.1: B has the trim start 0.1, the duration
    0.2 and the trim end 0.3, and the double sum of the first two is not
    the third. *)
Lemma split_keeps_trim_window_witness :
  VideoClip.trimEnd (clipA shortClip (Double.literal (1 # 10)))
  = Double.add (VideoClip.trimStart (clipA shortClip (Double.literal (1 # 10))))
      (VideoClip.duration (clipA shortClip (Double.literal (1 # 10))))
  /\ Qabs (VideoClip.trimStart (clipB 3 shortClip (Double.literal (1 # 10)))
           + VideoClip.duration (clipB 3 shortClip (Double.literal (1 # 10)))
           - VideoClip.trimEnd (clipB 3 shortClip (Double.literal (1 # 10))))
     <= 6 # 100000
  /\ VideoClip.trimStart (clipB 3 shortClip (Double.literal (1 # 10)))
     = Double.literal (1 # 10)
  /\ VideoClip.duration (clipB 3 shortClip (Double.literal (1 # 10)))
     = Double.literal (2 # 10)
  /\ VideoClip.trimEnd (clipB 3 shortClip (Double.literal (1 # 10)))
     = Double.literal (3 # 10)
  /\ Double.literal (3 # 10)
     < Double.add (Double.literal (1 # 10)) (Double.literal (2 # 10)).
Proof.
  assert (Hlo : Double.literal (1 # 10) <= Double.literal (1 # 10)) by apply Qle_refl.
  assert (Hhi : Double.literal (1 # 10)
                <= Double.sub (VideoClip.duration shortClip) (Double.literal (1 # 10)))
    by (vm_compute; discriminate).
  assert (Hwin : VideoClip.trimEnd shortClip
                 == VideoClip.trimStart shortClip + VideoClip.duration shortClip)
    by (vm_compute; reflexivity).
  assert (H0 : 0 <= VideoClip.trimStart shortClip) by (vm_compute; discriminate).
  assert (H1 : VideoClip.trimStart shortClip <= 4294967296) by (vm_compute; discriminate).
  assert (H2 : VideoClip.duration shortClip <= 4294967296) by (vm_compute; discriminate).
  pose proof (split_keeps_trim_window 3 shortClip (Double.literal (1 # 10))
                Hlo Hhi Hwin H0 H1 H2) as T.
  cbv zeta in T. destruct T as [TA TB].
  split; [exact TA|]. split; [exact TB|].
  repeat split; vm_compute; reflexivity.
Defined.

(** ** Move *)



Lemma snapStep_nonneg (d : option string) (thr v : Q) (o : VideoClip.t) :
  0 <= v -> 0 <= VideoClip.startTime o -> 0 <= VideoClip.duration o ->
  0 <= snapStep d thr v o.
Proof.
  intros Hv Hs Hd. unfold snapStep.
  destruct (eq_id _ _); [exact Hv|].
  repeat match goal with |- context [if ?b then _ else _] => destruct b end;
    try assumption; lra.
Qed.

(** X11. On a timeline whose clips start at or after 0 and have durations that
    are not negative, the start time a drag computes is never negative,
    magnet on or off. *)
Theorem move_start_never_negative (st : State) (e : MouseEvent)
    (Hclips : forall c, In c (allClips st) ->
                0 <= VideoClip.startTime c /\ 0 <= VideoClip.duration c) :
  0 <= dragStartTime st e.
Proof.
  rewrite dragStartTime_magnet.
  assert (Hc : 0 <= dragCandidate st e).
  { unfold dragCandidate.
    match goal with |- context [Qltb ?r 0] => destruct (Qltb r 0) eqn:E end;
      [apply Qle_refl | now apply Qltb_ge]. }
  destruct (isMagnetEnabled st); [|exact Hc].
  unfold magnetSnap. match goal with |- context [Qltb ?r ?t] => destruct (Qltb r t) end;
    [apply Qle_refl|].
  unfold snapLoop. revert Hc. generalize (dragCandidate st e).
  induction (allClips st) as [|o rest IH]; intros v Hv; simpl; [exact Hv|].
  apply IH.
  - intros c Hin. apply Hclips. now right.
  - destruct (Hclips o (or_introl eq_refl)) as [Hs Hd]. now apply snapStep_nonneg.
Qed.

Lemma move_start_never_negative_witness :
  0 <= dragStartTime snapGrabbed (mkMouseEvent 0).
Proof.
  apply move_start_never_negative.
  intros c [<-|[<-|[<-|[]]]]; split; vm_compute; discriminate.
Defined.

(** ** Magnet: exact landing and no landing *)

Lemma DoubleMagnet_snapStep_miss (d : option string) (thr v : Q) (c : VideoClip.t) :
  snapsOnDouble d thr v c = false -> DoubleMagnet.snapStep d thr v c = v.
Proof.
  unfold snapsOnDouble, DoubleMagnet.snapStep.
  destruct (eq_id (VideoClip.id c) d); cbn [negb andb]; [reflexivity|].
  intro H. apply orb_false_iff in H. destruct H as [He Hs].
  cbv zeta. now rewrite He, Hs.
Qed.

Lemma DoubleMagnet_snapLoop_all_miss (d : option string) (thr : Q)
    (post : list VideoClip.t) (v : Q) :
  Forall (fun o => snapsOnDouble d thr v o = false) post ->
  DoubleMagnet.snapLoop d thr post v = v.
Proof.
  unfold DoubleMagnet.snapLoop. induction 1 as [|o post Ho _ IH]; simpl; [reflexivity|].
  now rewrite (DoubleMagnet_snapStep_miss _ _ _ _ Ho).
Qed.

(** X12. The magnet in double precision lands exactly on the end of a clip
    (the double sum of its start and duration) when the test on that end
    succeeds at the position asked for, the test on the clip's start fails
    at that end, the end is not below the threshold, and no test succeeds
    on the clips before it (at the position asked for) nor on the clips
    after it (at that end).  Each test is the comparison the loop makes,
    rounded as the loop rounds it. *)
Theorem magnet_lands_on_end (d : option string) (thr v : Q)
    (pre post : list VideoClip.t) (o : VideoClip.t)
    (Hother : eq_id (VideoClip.id o) d = false)
    (Hnear : Qabs (Double.sub v
                     (Double.add (VideoClip.startTime o) (VideoClip.duration o))) < thr)
    (Hstay : thr <= Qabs (Double.sub
                            (Double.add (VideoClip.startTime o) (VideoClip.duration o))
                            (VideoClip.startTime o)))
    (Hfar0 : thr <= Double.add (VideoClip.startTime o) (VideoClip.duration o))
    (Hpre : Forall (fun x => snapsOnDouble d thr v x = false) pre)
    (Hpost : Forall (fun x =>
                       snapsOnDouble d thr
                         (Double.add (VideoClip.startTime o) (VideoClip.duration o)) x
                       = false) post) :
  DoubleMagnet.magnetSnap d thr (pre ++ o :: post) v
  = Double.add (VideoClip.startTime o) (VideoClip.duration o).
Proof.
  set (oEnd := Double.add (VideoClip.startTime o) (VideoClip.duration o)) in *.
  assert (Hstep : DoubleMagnet.snapStep d thr v o = oEnd).
  { unfold DoubleMagnet.snapStep. rewrite Hother. cbv zeta. fold oEnd.
    replace (Qltb (Qabs (Double.sub v oEnd)) thr) with true
      by (symmetry; now apply Qltb_lt).
    replace (Qltb (Qabs (Double.sub oEnd (VideoClip.startTime o))) thr) with false;
      [reflexivity|].
    symmetry. now apply Qltb_ge. }
  assert (Hloop : DoubleMagnet.snapLoop d thr (pre ++ o :: post) v = oEnd).
  { unfold DoubleMagnet.snapLoop. rewrite fold_left_app. cbn [fold_left].
    change (fold_left (DoubleMagnet.snapStep d thr) pre v)
      with (DoubleMagnet.snapLoop d thr pre v).
    rewrite (DoubleMagnet_snapLoop_all_miss d thr pre v Hpre), Hstep.
    apply (DoubleMagnet_snapLoop_all_miss d thr post _ Hpost). }
  unfold DoubleMagnet.magnetSnap. rewrite Hloop.
  replace (Qltb oEnd thr) with false; [reflexivity|].
  symmetry. now apply Qltb_ge.
Qed.

(** Asked for 10 with a clip over [9, 10.5) and a threshold of 0.75, the
    magnet lands on 10.5. *)
Lemma magnet_lands_on_end_witness :
  DoubleMagnet.magnetSnap (Some "D"%string) (3 # 4)
    [clipAt "Y" 9 (3 # 2); clipAt "D" 10 1] 10
  = 21 # 2.
Proof.
  apply (magnet_lands_on_end (Some "D"%string) (3 # 4) 10 [] [clipAt "D" 10 1]
           (clipAt "Y" 9 (3 # 2))).
  - reflexivity.
  - vm_compute. reflexivity.
  - vm_compute. discriminate.
  - vm_compute. discriminate.
  - constructor.
  - repeat constructor.
Defined.

(** A clip exactly one threshold long: asked for its end 2.05, the magnet
    takes the end and then, since [2.05 - 1.3] is a double below 0.75, goes
    on to the start 1.3. *)
Example magnet_threshold_long_clip :
  Double.add (VideoClip.startTime thresholdLong) (VideoClip.duration thresholdLong)
  = Double.literal (205 # 100)
  /\ Qabs (Double.sub (Double.literal (205 # 100)) (VideoClip.startTime thresholdLong))
     < 3 # 4
  /\ DoubleMagnet.magnetSnap (Some "D"%string) (3 # 4) [thresholdLong]
       (Double.literal (205 # 100))
     = Double.literal (13 # 10).
Proof. repeat split; vm_compute; reflexivity. Qed.

(** X13. When no test of the loop succeeds at the position asked for (each
    test being the comparison the loop makes, in double precision), the
    magnet changes the position only by the snap to 0: a position below
    the threshold becomes 0, any other position is returned as it is. *)
Theorem magnet_without_neighbour (d : option string) (thr v : Q)
    (clips : list VideoClip.t)
    (Hmiss : Forall (fun x => snapsOnDouble d thr v x = false) clips) :
  DoubleMagnet.magnetSnap d thr clips v = if Qltb v thr then 0 else v.
Proof.
  unfold DoubleMagnet.magnetSnap.
  now rewrite (DoubleMagnet_snapLoop_all_miss d thr clips v Hmiss).
Qed.

Lemma magnet_without_neighbour_witness :
  DoubleMagnet.magnetSnap (Some "D"%string) (3 # 4)
    [clipAt "Y" 9 (3 # 2); clipAt "D" 10 1] 20 = 20
  /\ DoubleMagnet.magnetSnap (Some "D"%string) (3 # 4)
       [clipAt "Y" 9 (3 # 2); clipAt "D" 10 1] (1 # 2) = 0.
Proof.
  split.
  - apply (magnet_without_neighbour (Some "D"%string) (3 # 4) 20). repeat constructor.
  - apply (magnet_without_neighbour (Some "D"%string) (3 # 4) (1 # 2)). repeat constructor.
Defined.

(** ** Drop: the edges *)

Lemma map_no_hit (trackId : string) (f : VideoTrack.t -> VideoTrack.t)
    (tracks : list VideoTrack.t) :
  find (fun t => String.eqb (VideoTrack.id t) trackId) tracks = None ->
  map (fun t => if String.eqb (VideoTrack.id t) trackId then f t else t) tracks = tracks.
Proof.
  intro H. induction tracks as [|t ts IH]; simpl in *; [reflexivity|].
  destruct (String.eqb (VideoTrack.id t) trackId); [discriminate|].
  now rewrite IH.
Qed.

(** X14. A drop that carries no clip returns with the state as it was; one
    whose payload does not parse throws before any update; one that names a
    track id absent from its collection leaves the timeline as it was and
    still pushes a history snapshot; and no drop removes or alters a clip
    that was on the timeline. *)
Theorem drop_edges (now : Z) (e : DragEvent) (trackId : string) (isAudioTrack : bool)
    (st : State) :
  (clipData e = NoData -> handleTrackDrop now e trackId isAudioTrack st = Returned st)
  /\ (forall text, clipData e = BadJSON text ->
        handleTrackDrop now e trackId isAudioTrack st = Thrown st)
  /\ (forall src,
        clipData e = ClipJSON src ->
        find (fun t => String.eqb (VideoTrack.id t) trackId)
             (collection isAudioTrack st) = None ->
        exists st', handleTrackDrop now e trackId isAudioTrack st = Returned st'
                    /\ timelineUntouched st st'
                    /\ pushedFrom st st')
  /\ (forall c, In c (allClips st) ->
        In c (allClips (stateOf (handleTrackDrop now e trackId isAudioTrack st)))).
Proof.
  split; [intro E; unfold handleTrackDrop; now rewrite E|].
  split; [intros text E; unfold handleTrackDrop; now rewrite E|].
  split.
  - intros src E Hnone. unfold handleTrackDrop. rewrite E.
    destruct isAudioTrack; cbn [collection] in Hnone; eexists;
      (split; [reflexivity|]);
      (split; [|split; reflexivity]);
      split;
      cbn [videoTracks timelineAudioTracks setVideoTracks setTimelineAudioTracks
             pushVideoHistory setVideoHistory setVideoHistoryIndex];
      try reflexivity; now apply map_no_hit.
  - intros c Hc. unfold handleTrackDrop.
    destruct (clipData e) as [|src|text]; cbn [stateOf]; try exact Hc.
    apply in_allClips in Hc. destruct Hc as (t & Ht & Hc). apply in_allClips.
    set (newClip := VideoClip.with_startTime _ _).
    assert (Hkeep : In c (VideoTrack.clips
                            (if String.eqb (VideoTrack.id t) trackId
                             then VideoTrack.with_clips (VideoTrack.clips t ++ [newClip]) t
                             else t))).
    { destruct (String.eqb (VideoTrack.id t) trackId); [|exact Hc].
      cbn [VideoTrack.clips VideoTrack.with_clips]. apply in_or_app. now left. }
    destruct isAudioTrack, Ht as [Ht|Ht];
      cbn [stateOf videoTracks timelineAudioTracks setVideoTracks setTimelineAudioTracks
             pushVideoHistory setVideoHistory setVideoHistoryIndex].
    + exists t. split; [now left | exact Hc].
    + eexists. split; [right; apply in_map_iff; exists t; split; [reflexivity | exact Ht]|].
      exact Hkeep.
    + eexists. split; [left; apply in_map_iff; exists t; split; [reflexivity | exact Ht]|].
      exact Hkeep.
    + exists t. split; [now right | exact Hc].
Qed.

(** ** Mute toggle *)

Lemma toggle_twice (trackId : string) (tracks : list VideoTrack.t) :
  let toggle :=
    map (fun t => if String.eqb (VideoTrack.id t) trackId
                  then VideoTrack.with_isMuted (negb (VideoTrack.isMuted t)) t
                  else t) in
  toggle (toggle tracks) = tracks.
Proof.
  intro toggle. unfold toggle. rewrite map_map.
  rewrite <- (map_id tracks) at 2. apply map_ext. intro t.
  destruct (String.eqb (VideoTrack.id t) trackId) eqn:E; [|now rewrite E].
  cbn [VideoTrack.id VideoTrack.with_isMuted]. rewrite E.
  destruct t as [i n c m l]. unfold VideoTrack.with_isMuted.
  cbn [VideoTrack.id VideoTrack.name VideoTrack.clips VideoTrack.isMuted
         VideoTrack.isLocked].
  now rewrite negb_involutive.
Qed.

(** X15. A mute toggle negates the mute flag of the tracks of the given id
    in the given collection and changes nothing else: every track is the
    track it was but for that flag, the other collection and the rest of
    the state are as they were, and a snapshot of the timeline before the
    toggle is pushed.  Toggling the same track twice gives the timeline
    back, with two snapshots pushed on the way. *)
Theorem mute_toggle_twice (trackId : string) (isAudioTrack : bool) (st : State) :
  let once := toggleTrackMute trackId isAudioTrack st in
  let twice := toggleTrackMute trackId isAudioTrack once in
  timelineUntouched st twice
  /\ Forall2 (fun t t' =>
                t' = VideoTrack.with_isMuted
                       (if String.eqb (VideoTrack.id t) trackId
                        then negb (VideoTrack.isMuted t) else VideoTrack.isMuted t) t)
             (collection isAudioTrack st) (collection isAudioTrack once)
  /\ collection (negb isAudioTrack) once = collection (negb isAudioTrack) st
  /\ pushedFrom st once
  /\ elsewhereUntouched st once
  /\ cursorSnapshot once = Some (snapshotOf st)
  /\ cursorSnapshot twice = Some (snapshotOf once).
Proof.
  intros once twice.
  split.
  { unfold twice, once, toggleTrackMute, timelineUntouched.
    destruct isAudioTrack;
      cbn [videoTracks timelineAudioTracks setVideoTracks setTimelineAudioTracks
             pushVideoHistory setVideoHistory setVideoHistoryIndex];
      split; try reflexivity; apply toggle_twice. }
  split.
  { unfold once, toggleTrackMute. destruct isAudioTrack;
      cbn [collection videoTracks timelineAudioTracks setVideoTracks
             setTimelineAudioTracks pushVideoHistory setVideoHistory setVideoHistoryIndex];
      apply Forall2_map_self; intro t;
      destruct (String.eqb (VideoTrack.id t) trackId); trivial; now destruct t. }
  split.
  { unfold once, toggleTrackMute. destruct isAudioTrack; reflexivity. }
  split.
  { unfold once, toggleTrackMute. destruct isAudioTrack; split; reflexivity. }
  split.
  { unfold once, toggleTrackMute, elsewhereUntouched.
    destruct isAudioTrack; now destruct st. }
  split; apply pushedFrom_cursor; unfold twice, once, toggleTrackMute;
    destruct isAudioTrack; split; reflexivity.
Qed.

(** ** Property update *)

Lemma over_twice {A} (u : option A) (v : A) :
  VideoClip.over u (VideoClip.over u v) = VideoClip.over u v.
Proof. now destruct u. Qed.

Lemma over_opt_twice {A} (u v : option A) :
  VideoClip.over_opt u (VideoClip.over_opt u v) = VideoClip.over_opt u v.
Proof. now destruct u. Qed.

Lemma merge_twice (c : VideoClip.t) (u : VideoClip.partial) :
  VideoClip.merge (VideoClip.merge c u) u = VideoClip.merge c u.
Proof.
  unfold VideoClip.merge at 1.
  assert (P : forall x, VideoClip.merge c u = x ->
            VideoClip.mk
              (VideoClip.over (VideoClip.p_id u) (VideoClip.id x))
              (VideoClip.over (VideoClip.p_name u) (VideoClip.name x))
              (VideoClip.over (VideoClip.p_url u) (VideoClip.url x))
              (VideoClip.over (VideoClip.p_type u) (VideoClip.type x))
              (VideoClip.over (VideoClip.p_originalDuration u) (VideoClip.originalDuration x))
              (VideoClip.over (VideoClip.p_width u) (VideoClip.width x))
              (VideoClip.over (VideoClip.p_height u) (VideoClip.height x))
              (VideoClip.over (VideoClip.p_duration u) (VideoClip.duration x))
              (VideoClip.over (VideoClip.p_startTime u) (VideoClip.startTime x))
              (VideoClip.over (VideoClip.p_trimStart u) (VideoClip.trimStart x))
              (VideoClip.over (VideoClip.p_trimEnd u) (VideoClip.trimEnd x))
              (VideoClip.over (VideoClip.p_opacity u) (VideoClip.opacity x))
              (VideoClip.over (VideoClip.p_scale u) (VideoClip.scale x))
              (VideoClip.over (VideoClip.p_rotation u) (VideoClip.rotation x))
              (VideoClip.over (VideoClip.p_positionX u) (VideoClip.positionX x))
              (VideoClip.over (VideoClip.p_positionY u) (VideoClip.positionY x))
              (VideoClip.over (VideoClip.p_blendMode u) (VideoClip.blendMode x))
              (VideoClip.over (VideoClip.p_brightness u) (VideoClip.brightness x))
              (VideoClip.over (VideoClip.p_contrast u) (VideoClip.contrast x))
              (VideoClip.over (VideoClip.p_saturation u) (VideoClip.saturation x))
              (VideoClip.over (VideoClip.p_hueRotate u) (VideoClip.hueRotate x))
              (VideoClip.over (VideoClip.p_blur u) (VideoClip.blur x))
              (VideoClip.over (VideoClip.p_filterPreset u) (VideoClip.filterPreset x))
              (VideoClip.over (VideoClip.p_fadeIn u) (VideoClip.fadeIn x))
              (VideoClip.over (VideoClip.p_fadeOut u) (VideoClip.fadeOut x))
              (VideoClip.over (VideoClip.p_fadeCurve u) (VideoClip.fadeCurve x))
              (VideoClip.over_opt (VideoClip.p_textContent u) (VideoClip.textContent x))
              (VideoClip.over_opt (VideoClip.p_fontSize u) (VideoClip.fontSize x))
              (VideoClip.over_opt (VideoClip.p_textColor u) (VideoClip.textColor x))
              (VideoClip.over_opt (VideoClip.p_fontFamily u) (VideoClip.fontFamily x))
              (VideoClip.over_opt (VideoClip.p_backgroundColor u) (VideoClip.backgroundColor x))
              (VideoClip.over (VideoClip.p_volume u) (VideoClip.volume x))
              (VideoClip.over (VideoClip.p_speed u) (VideoClip.speed x))
              (VideoClip.trackId x) (VideoClip.isAudio x) = x).
  { intros x <-. unfold VideoClip.merge.
    cbn [VideoClip.id VideoClip.name VideoClip.url VideoClip.type
           VideoClip.originalDuration VideoClip.width VideoClip.height
           VideoClip.duration VideoClip.startTime VideoClip.trimStart VideoClip.trimEnd
           VideoClip.opacity VideoClip.scale VideoClip.rotation VideoClip.positionX
           VideoClip.positionY VideoClip.blendMode VideoClip.brightness
           VideoClip.contrast VideoClip.saturation VideoClip.hueRotate VideoClip.blur
           VideoClip.filterPreset VideoClip.fadeIn VideoClip.fadeOut VideoClip.fadeCurve
           VideoClip.textContent VideoClip.fontSize VideoClip.textColor
           VideoClip.fontFamily VideoClip.backgroundColor VideoClip.volume
           VideoClip.speed VideoClip.trackId VideoClip.isAudio].
    rewrite !over_twice, !over_opt_twice. reflexivity. }
  now apply P.
Qed.

Lemma merge_noUpdates (c : VideoClip.t) : VideoClip.merge c VideoClip.noUpdates = c.
Proof. now destruct c. Qed.

Lemma applyUpdate_twice (sel : option string) (u : VideoClip.partial)
    (tracks : list VideoTrack.t) :
  VideoClip.p_id u = None ->
  let applyUpdate :=
    map (fun t => VideoTrack.with_clips
                    (map (fun c => if eq_id (VideoClip.id c) sel
                                   then VideoClip.merge c u else c)
                         (VideoTrack.clips t)) t) in
  applyUpdate (applyUpdate tracks) = applyUpdate tracks.
Proof.
  intros Hid applyUpdate. unfold applyUpdate. rewrite map_map. apply map_ext. intro t.
  unfold VideoTrack.with_clips.
  cbn [VideoTrack.id VideoTrack.name VideoTrack.clips VideoTrack.isMuted
         VideoTrack.isLocked].
  f_equal. rewrite map_map. apply map_ext. intro c.
  destruct (eq_id (VideoClip.id c) sel) eqn:E; [|now rewrite E].
  assert (Ei : VideoClip.id (VideoClip.merge c u) = VideoClip.id c).
  { unfold VideoClip.merge. cbn [VideoClip.id]. now rewrite Hid. }
  rewrite Ei, E. apply merge_twice.
Qed.

Lemma applyUpdate_nothing (sel : option string) (tracks : list VideoTrack.t) :
  map (fun t => VideoTrack.with_clips
                  (map (fun c => if eq_id (VideoClip.id c) sel
                                 then VideoClip.merge c VideoClip.noUpdates else c)
                       (VideoTrack.clips t)) t) tracks
  = tracks.
Proof.
  rewrite <- (map_id tracks) at 2. apply map_ext. intro t.
  assert (E : map (fun c => if eq_id (VideoClip.id c) sel
                            then VideoClip.merge c VideoClip.noUpdates else c)
                  (VideoTrack.clips t) = VideoTrack.clips t).
  { rewrite <- (map_id (VideoTrack.clips t)) at 2. apply map_ext. intro c.
    destruct (eq_id _ _); [apply merge_noUpdates | reflexivity]. }
  rewrite E. now destruct t.
Qed.

(** X16. With a clip selected, a property update leaves every track the
    track it was and every clip the clip it was, place by place, except
    that a clip of the selected id becomes [{...clip, ...updates}] (for the
    opacity slider: the opacity is the new value, and putting the old value
    back gives the clip back).  With no clip selected it changes nothing.
    It pushes no snapshot and touches nothing else of the state; an update
    that sets no field changes nothing; and an update that does not set
    the id, applied a second time, changes nothing more. *)
Theorem update_is_local_and_idempotent (updates : VideoClip.partial) (st : State) :
  let st' := updateSelectedClip updates st in
  (truthy (selectedClipId st) = true ->
   forall isAudioTrack,
     Forall2 (fun t t' =>
                VideoTrack.with_clips (VideoTrack.clips t) t' = t
                /\ Forall2 (fun c c' =>
                              c' = if eq_id (VideoClip.id c) (selectedClipId st)
                                   then VideoClip.merge c updates else c)
                           (VideoTrack.clips t) (VideoTrack.clips t'))
             (collection isAudioTrack st) (collection isAudioTrack st'))
  /\ (truthy (selectedClipId st) = false -> st' = st)
  /\ (forall c v,
        VideoClip.opacity (VideoClip.merge c (VideoClip.onlyOpacity v)) = v
        /\ VideoClip.merge (VideoClip.merge c (VideoClip.onlyOpacity v))
             (VideoClip.onlyOpacity (VideoClip.opacity c)) = c)
  /\ historyUntouched st st'
  /\ elsewhereUntouched st st'
  /\ updateSelectedClip VideoClip.noUpdates st = st
  /\ (VideoClip.p_id updates = None -> updateSelectedClip updates st' = st').
Proof.
  intro st'. unfold st', updateSelectedClip.
  split; [|split; [intros ->; reflexivity|]].
  { intros Et isAudioTrack. rewrite Et. cbn [negb].
    destruct isAudioTrack;
      cbn [collection videoTracks timelineAudioTracks setVideoTracks setTimelineAudioTracks];
      apply Forall2_map_self; intro t; (split; [now destruct t|]);
      cbn [VideoTrack.clips VideoTrack.with_clips];
      apply Forall2_map_self; reflexivity. }
  split; [intros c v; split; [reflexivity | now destruct c]|].
  destruct (truthy (selectedClipId st)) eqn:Et; cbn [negb].
  2:{ rewrite Et. cbn [negb].
      split; [split; reflexivity|]. split; [apply state_eta|]. split; trivial. }
  split; [split; reflexivity|].
  split; [unfold elsewhereUntouched; now destruct st|].
  split.
  { cbn [videoTracks timelineAudioTracks setVideoTracks setTimelineAudioTracks].
    rewrite !applyUpdate_nothing. now destruct st. }
  intro Hid.
  cbn [selectedClipId videoTracks timelineAudioTracks setVideoTracks
         setTimelineAudioTracks].
  rewrite Et. cbn [negb].
  rewrite !(applyUpdate_twice (selectedClipId st) updates _ Hid). reflexivity.
Qed.

(** ** The clock *)


(** ** The resolver leaves no track out *)

Lemma DoubleResolver_entries (t : Q) (tracks : list VideoTrack.t) (idx : nat) :
  StronglySorted Nat.lt (map trackIndex (DoubleResolver.collectVisible t idx tracks)).
Proof.
  assert (G : forall idx,
            StronglySorted Nat.lt (map trackIndex (DoubleResolver.collectVisible t idx tracks))
            /\ forall v, In v (DoubleResolver.collectVisible t idx tracks) ->
                 (idx <= trackIndex v)%nat); [|apply G].
  clear idx. induction tracks as [|tr rest IH]; intro idx; simpl.
  - split; [constructor | intros ? []].
  - destruct (IH (S idx)) as [Hs He].
    assert (Hshift : forall v, In v (DoubleResolver.collectVisible t (S idx) rest) ->
              (idx <= trackIndex v)%nat).
    { intros v Hv. specialize (He v Hv). lia. }
    destruct (VideoTrack.isMuted tr); [now split|].
    destruct (find (DoubleResolver.visibleAt t) (VideoTrack.clips tr)); [|now split].
    split.
    + simpl. constructor; [exact Hs|].
      apply Forall_forall. intros i Hi. apply in_map_iff in Hi.
      destruct Hi as (v & <- & Hv). specialize (He v Hv). simpl. lia.
    + intros v [<-|Hv]; [simpl; lia | now apply Hshift].
Qed.

Lemma DoubleResolver_complete (t : Q) (tracks : list VideoTrack.t) (idx i : nat)
    (tr : VideoTrack.t) (c : VideoClip.t) :
  nth_error tracks i = Some tr -> VideoTrack.isMuted tr = false ->
  find (DoubleResolver.visibleAt t) (VideoTrack.clips tr) = Some c ->
  In (mkVisibleClip c tr (idx + i)) (DoubleResolver.collectVisible t idx tracks).
Proof.
  revert idx i. induction tracks as [|x rest IH]; intros idx i Hn Hm Hf.
  - destruct i; discriminate.
  - destruct i as [|i]; simpl in Hn.
    + injection Hn as ->. simpl. rewrite Hm, Hf, Nat.add_0_r. now left.
    + specialize (IH (S idx) i Hn Hm Hf).
      replace (idx + S i)%nat with (S idx + i)%nat by lia.
      simpl. destruct (VideoTrack.isMuted x); [exact IH|].
      destruct (find (DoubleResolver.visibleAt t) (VideoTrack.clips x));
        [now right | exact IH].
Qed.

Lemma DoubleResolver_listed (t : Q) (tracks : list VideoTrack.t) (idx : nat)
    (v : VisibleClip) :
  In v (DoubleResolver.collectVisible t idx tracks) ->
  (idx <= trackIndex v)%nat
  /\ nth_error tracks (trackIndex v - idx) = Some (track v)
  /\ VideoTrack.isMuted (track v) = false
  /\ find (DoubleResolver.visibleAt t) (VideoTrack.clips (track v)) = Some (clip v).
Proof.
  revert idx. induction tracks as [|tr rest IH]; intro idx; simpl; [intros []|].
  assert (Hshift : In v (DoubleResolver.collectVisible t (S idx) rest) ->
            (idx <= trackIndex v)%nat
            /\ nth_error (tr :: rest) (trackIndex v - idx) = Some (track v)
            /\ VideoTrack.isMuted (track v) = false
            /\ find (DoubleResolver.visibleAt t) (VideoTrack.clips (track v))
               = Some (clip v)).
  { intro Hv. destruct (IH (S idx) Hv) as (Hle & Hn & Hm & Hf).
    split; [lia|]. split; [|now split].
    replace (trackIndex v - idx)%nat with (S (trackIndex v - S idx)) by lia.
    exact Hn. }
  destruct (VideoTrack.isMuted tr) eqn:Em; [exact Hshift|].
  destruct (find (DoubleResolver.visibleAt t) (VideoTrack.clips tr)) as [c|] eqn:Ef;
    [|exact Hshift].
  intros [<-|Hv]; [|now apply Hshift].
  simpl. rewrite Nat.sub_diag. simpl. repeat split; trivial.
Qed.

Lemma DoubleResolver_length (t : Q) (tracks : list VideoTrack.t) (idx : nat) :
  (List.length (DoubleResolver.collectVisible t idx tracks)
   <= List.length (filter (fun tr => negb (VideoTrack.isMuted tr)) tracks))%nat.
Proof.
  revert idx. induction tracks as [|x rest IH]; intro idx; simpl; [lia|].
  specialize (IH (S idx)).
  destruct (VideoTrack.isMuted x); simpl; [exact IH|].
  destruct (find (DoubleResolver.visibleAt t) (VideoTrack.clips x)); simpl; lia.
Qed.

(** X19. The resolver in double precision lists every unmuted video track
    that has a clip passing its test at the current time (the clip starts
    no later than the double sum of the time and 0.05, and the time is
    below the double sum of its start and duration), with the first such
    clip of the track; every entry it lists is such a track with its first
    such clip; the list is in track order as collected (the sort changes
    nothing) and is no longer than the number of unmuted video tracks. *)
Theorem resolver_lists_every_visible_track (st : State) :
  let t := currentVideoTime st in
  let r := DoubleResolver.getAllActiveClips st in
  let passes c :=
    VideoClip.startTime c <= Double.add t (Double.literal (5 # 100))
    /\ t < Double.add (VideoClip.startTime c) (VideoClip.duration c) in
  (forall i tr c,
      nth_error (videoTracks st) i = Some tr -> VideoTrack.isMuted tr = false ->
      In c (VideoTrack.clips tr) -> passes c ->
      exists c1 pre post,
        VideoTrack.clips tr = pre ++ c1 :: post
        /\ passes c1 /\ (forall y, In y pre -> ~ passes y)
        /\ In (mkVisibleClip c1 tr i) (visibleClips r))
  /\ (forall v, In v (visibleClips r) ->
        nth_error (videoTracks st) (trackIndex v) = Some (track v)
        /\ VideoTrack.isMuted (track v) = false
        /\ In (clip v) (VideoTrack.clips (track v)) /\ passes (clip v))
  /\ StronglySorted Nat.lt (map trackIndex (visibleClips r))
  /\ (List.length (visibleClips r)
      <= List.length (filter (fun tr => negb (VideoTrack.isMuted tr)) (videoTracks st)))%nat.
Proof.
  intros t r passes.
  assert (Hp : forall c, DoubleResolver.visibleAt t c = true <-> passes c).
  { intro c. unfold DoubleResolver.visibleAt, passes, DoubleResolver.lookAhead.
    now rewrite andb_true_iff, Qgeb_ge, Qltb_lt. }
  assert (Hvis : visibleClips r = DoubleResolver.collectVisible t 0 (videoTracks st)).
  { unfold r, DoubleResolver.getAllActiveClips. fold t.
    rewrite (sortByTrackIndex_sorted _ (DoubleResolver_entries t (videoTracks st) 0)).
    destruct (DoubleResolver.firstAudible t (timelineAudioTracks st)) as [[? ?]|];
      reflexivity. }
  split; [|split; [|split]].
  - intros i tr c Hn Hm Hc Hv.
    destruct (find (DoubleResolver.visibleAt t) (VideoTrack.clips tr)) as [c1|] eqn:Ef.
    + destruct (find_first _ _ _ Ef) as (pre & post & E & Hc1 & Hpre).
      exists c1, pre, post. split; [exact E|]. split; [now apply Hp|].
      split.
      * intros y Hy Hpy. apply Hp in Hpy. rewrite (Hpre y Hy) in Hpy. discriminate.
      * rewrite Hvis.
        apply (DoubleResolver_complete t (videoTracks st) 0 i tr c1 Hn Hm Ef).
    + pose proof (find_none _ _ Ef c Hc) as Hnone.
      apply Hp in Hv. congruence.
  - intros v Hv. rewrite Hvis in Hv.
    destruct (DoubleResolver_listed t (videoTracks st) 0 v Hv) as (_ & Hn & Hm & Hf).
    rewrite Nat.sub_0_r in Hn. split; [exact Hn|]. split; [exact Hm|].
    apply find_some in Hf. destruct Hf as [Hin Hpc]. split; [exact Hin | now apply Hp].
  - rewrite Hvis. apply DoubleResolver_entries.
  - rewrite Hvis. apply DoubleResolver_length.
Qed.

(** The playhead at 0.35 and a clip that starts at 0.4: the double sum
    [0.35 + 0.05] is below 0.4, and the resolver lists nothing. *)
Example resolver_look_ahead_boundary :
  Double.add (Double.literal (35 # 100)) (Double.literal (5 # 100))
  < Double.literal (4 # 10)
  /\ visibleClips
       (DoubleResolver.getAllActiveClips
          (setCurrentVideoTime (Double.literal (35 # 100))
             (setVideoTracks [VideoTrack.mk "v1" "فيديو 1" [startsLate] false false]
                mounted)))
     = [].
Proof. split; vm_compute; reflexivity. Qed.

(** ** Media synchroniser *)

Lemma clamp01_range (x : Q) : 0 <= clamp01 x /\ clamp01 x <= 1.
Proof.
  unfold clamp01. split; [apply Q.le_max_l|].
  apply Q.max_lub; [lra | apply Q.le_min_l].
Qed.

Lemma Qabs_self (x : Q) : Qabs (x - x) == 0.
Proof.
  assert (E : x - x == 0) by ring. rewrite E. reflexivity.
Qed.

(** X20. For a video clip whose element has metadata, one pass of the
    synchroniser leaves the element within the tolerance (0.4 s playing,
    0.05 s paused) of the clip's media time, at the clip's rate, with a
    volume between 0 and 1, and a second pass changes nothing more; a clip
    volume of 0 is played like a volume of 100; an element without metadata
    and the element of a clip that is not a video are left alone. *)
Theorem media_sync_reconciles (playAllowed : bool) (st : State) (c : VideoClip.t)
    (tr : VideoTrack.t) (el : MediaElement) :
  let el' := syncVideoElement playAllowed st c tr el in
  (VideoClip.type c = video -> (1 <= el_readyState el)%nat ->
   Qabs (el_currentTime el'
         - ((currentVideoTime st - VideoClip.startTime c) + VideoClip.trimStart c))
   <= (if isVideoPlaying st then 4 # 10 else 5 # 100)
   /\ el_playbackRate el' == orNumber (VideoClip.speed c) 100 / 100
   /\ 0 <= el_volume el' /\ el_volume el' <= 1
   /\ el_muted el' = VideoTrack.isMuted tr)
  /\ syncVideoElement playAllowed st c tr el' = el'
  /\ syncVideoElement playAllowed st (VideoClip.merge c (volumeUpdate 0)) tr el
     = syncVideoElement playAllowed st (VideoClip.merge c (volumeUpdate 100)) tr el
  /\ ((VideoClip.type c <> video \/ el_readyState el = 0%nat) -> el' = el).
Proof.
  intro el'. unfold el', syncVideoElement.
  set (clipTime := currentVideoTime st - VideoClip.startTime c + VideoClip.trimStart c).
  set (tol := if isVideoPlaying st then 4 # 10 else 5 # 100).
  assert (Htol : 0 <= tol) by (unfold tol; destruct (isVideoPlaying st); vm_compute; discriminate).
  set (rate := orNumber (VideoClip.speed c) 100 / 100).
  split.
  { intros Hty Hready. rewrite Hty.
    replace (Nat.leb 1 (el_readyState el)) with true by (symmetry; now apply Nat.leb_le).
    cbn [el_currentTime el_playbackRate el_volume el_muted].
    split.
    { destruct (Qltb tol (Qabs (el_currentTime el - clipTime))) eqn:E.
      - rewrite Qabs_self. exact Htol.
      - now apply Qltb_ge. }
    split.
    { destruct (Qeq_bool (el_playbackRate el) rate) eqn:E; cbn [negb].
      - now apply Qeq_bool_iff.
      - reflexivity. }
    split; [apply clamp01_range|]. split; [apply clamp01_range | reflexivity]. }
  split.
  { destruct (VideoClip.type c); try reflexivity.
    destruct (Nat.leb 1 (el_readyState el)) eqn:Er; [|now rewrite Er].
    cbn [el_readyState el_currentTime el_playbackRate el_paused el_muted el_volume].
    rewrite Er. fold clipTime tol rate.
    f_equal.
    - destruct (Qltb tol (Qabs (el_currentTime el - clipTime))) eqn:E.
      + replace (Qltb tol (Qabs (clipTime - clipTime))) with false; [reflexivity|].
        symmetry. apply Qltb_ge. rewrite Qabs_self. exact Htol.
      + now rewrite E.
    - destruct (Qeq_bool (el_playbackRate el) rate) eqn:E; cbn [negb].
      + now rewrite E.
      + replace (Qeq_bool rate rate) with true; [reflexivity|].
        symmetry. apply Qeq_bool_iff. reflexivity.
    - destruct (isVideoPlaying st), (el_paused el), playAllowed; reflexivity. }
  split.
  { unfold volumeUpdate, VideoClip.merge, VideoClip.over, VideoClip.over_opt, fadeFactor.
    cbn [VideoClip.type VideoClip.startTime VideoClip.trimStart VideoClip.speed
           VideoClip.volume VideoClip.duration VideoClip.fadeIn VideoClip.fadeOut
           VideoClip.fadeCurve VideoClip.p_type VideoClip.p_startTime
           VideoClip.p_trimStart VideoClip.p_speed VideoClip.p_volume
           VideoClip.p_duration VideoClip.p_fadeIn VideoClip.p_fadeOut
           VideoClip.p_fadeCurve].
    reflexivity. }
  intros [Hty|Hr].
  - destruct (VideoClip.type c); [congruence | reflexivity | reflexivity].
  - rewrite Hr. destruct (VideoClip.type c); reflexivity.
Qed.

(** ** Audio graph *)

Lemma map_get_set {V} (m : JsMap V) (k k' : string) (v : V) :
  map_get (map_set m k v) k' = if String.eqb k k' then Some v else map_get m k'.
Proof.
  unfold map_get. induction m as [|[k0 v0] rest IH]; simpl.
  - destruct (String.eqb k k'); reflexivity.
  - destruct (String.eqb_spec k0 k) as [->|Hne]; simpl.
    + destruct (String.eqb k k'); reflexivity.
    + destruct (String.eqb_spec k0 k') as [->|Hne'].
      * destruct (String.eqb_spec k k'); [congruence | reflexivity].
      * exact IH.
Qed.

Lemma map_get_delete {V} (m : JsMap V) (k k' : string) :
  map_get (map_delete m k) k' = if String.eqb k k' then None else map_get m k'.
Proof.
  unfold map_get, map_delete. induction m as [|[k0 v0] rest IH]; simpl.
  - destruct (String.eqb k k'); reflexivity.
  - destruct (String.eqb_spec k0 k) as [->|Hne]; simpl.
    + rewrite IH. destruct (String.eqb k k'); reflexivity.
    + destruct (String.eqb_spec k0 k') as [->|Hne'].
      * destruct (String.eqb_spec k k'); [congruence | reflexivity].
      * exact IH.
Qed.

Lemma map_has_set {V} (m : JsMap V) (k k' : string) (v : V) :
  map_has (map_set m k v) k' = String.eqb k k' || map_has m k'.
Proof.
  unfold map_has. rewrite map_get_set. destruct (String.eqb k k'); reflexivity.
Qed.

Lemma map_has_delete {V} (m : JsMap V) (k k' : string) :
  map_has (map_delete m k) k' = negb (String.eqb k k') && map_has m k'.
Proof.
  unfold map_has. rewrite map_get_delete. destruct (String.eqb k k'); reflexivity.
Qed.

Lemma map_delete_set_fresh {V} (m : JsMap V) (k : string) (v : V) :
  map_has m k = false -> map_delete (map_set m k v) k = m.
Proof.
  unfold map_has, map_get, map_delete. induction m as [|[k0 v0] rest IH]; simpl.
  - rewrite String.eqb_refl. reflexivity.
  - destruct (String.eqb k0 k) eqn:E; simpl; [discriminate|].
    intro H. rewrite E. simpl. now rewrite IH.
Qed.

Lemma map_delete_absent {V} (m : JsMap V) (k : string) :
  map_has m k = false -> map_delete m k = m.
Proof.
  unfold map_has, map_get, map_delete. induction m as [|[k0 v0] rest IH]; simpl.
  - reflexivity.
  - destruct (String.eqb k0 k) eqn:E; simpl; [discriminate|].
    intro H. now rewrite IH.
Qed.

Lemma map_set_same {V} (m : JsMap V) (k : string) (v w : V) :
  map_set (map_set m k v) k w = map_set m k w.
Proof.
  induction m as [|[k0 v0] rest IH]; simpl.
  - now rewrite String.eqb_refl.
  - destruct (String.eqb k0 k) eqn:E; simpl.
    + now rewrite String.eqb_refl.
    + now rewrite E, IH.
Qed.

Lemma addTrack_fresh (id element : string) (g : AudioGraph) :
  map_has (sources g) id = false ->
  addTrack id element g
  = mkAudioGraph
      (map_set (sources g) id (mkSource element [LowOf id]))
      (map_set (gains g) id (mkGain 1 [MasterGain]))
      (map_set (eqs g) id
         (mkEqNodes (mkBiquad lowshelf 320 1 0 [MidOf id])
                    (mkBiquad peaking 1000 (1 # 2) 0 [HighOf id])
                    (mkBiquad highshelf 3200 1 0 [PanOf id])))
      (map_set (pans g) id (mkPanner 0 [GainOf id]))
      (masterGain g).
Proof. intro H. unfold addTrack. now rewrite H. Qed.

Lemma addTrack_wires_once_other (id element : string) (g : AudioGraph) (id' : string) :
  id' <> id ->
  map_get (sources (addTrack id element g)) id' = map_get (sources g) id'
  /\ map_get (gains (addTrack id element g)) id' = map_get (gains g) id'
  /\ map_get (eqs (addTrack id element g)) id' = map_get (eqs g) id'
  /\ map_get (pans (addTrack id element g)) id' = map_get (pans g) id'.
Proof.
  intro Hne. unfold addTrack. destruct (map_has (sources g) id); [repeat split|].
  cbn [sources gains eqs pans]. rewrite !map_get_set.
  destruct (String.eqb_spec id id'); [congruence | repeat split].
Qed.

Lemma updateTrack_other (id : string) (params : AudioTrack.t) (g : AudioGraph)
    (id' : string) :
  id' <> id ->
  map_get (sources (updateTrack id params g)) id' = map_get (sources g) id'
  /\ map_get (gains (updateTrack id params g)) id' = map_get (gains g) id'
  /\ map_get (eqs (updateTrack id params g)) id' = map_get (eqs g) id'
  /\ map_get (pans (updateTrack id params g)) id' = map_get (pans g) id'.
Proof.
  intro Hne. unfold updateTrack. cbn [sources gains eqs pans].
  destruct (map_get (gains g) id), (map_get (eqs g) id), (map_get (pans g) id);
    rewrite ?map_get_set;
    destruct (String.eqb_spec id id'); try congruence; repeat split.
Qed.

(** X21. [addTrack] wires a track once: on a graph without a source for the
    id it enters the chain source, low shelf (320 Hz), peaking (1000 Hz,
    Q 0.5), high shelf (3200 Hz), panner, gain, master, with unit gain and
    centred pan; on a graph that has a source for the id it changes nothing,
    whatever the element; and it never touches the entries of another
    track. *)
Theorem addTrack_wires_once (id element : string) (g : AudioGraph) :
  (forall element', addTrack id element' (addTrack id element g) = addTrack id element g)
  /\ (map_has (sources g) id = true -> addTrack id element g = g)
  /\ (map_has (sources g) id = false ->
      wired (addTrack id element g) id
      /\ map_get (sources (addTrack id element g)) id = Some (mkSource element [LowOf id])
      /\ map_get (eqs (addTrack id element g)) id
         = Some (mkEqNodes (mkBiquad lowshelf 320 1 0 [MidOf id])
                           (mkBiquad peaking 1000 (1 # 2) 0 [HighOf id])
                           (mkBiquad highshelf 3200 1 0 [PanOf id]))
      /\ map_get (pans (addTrack id element g)) id = Some (mkPanner 0 [GainOf id])
      /\ map_get (gains (addTrack id element g)) id = Some (mkGain 1 [MasterGain]))
  /\ (forall id', id' <> id ->
        map_get (sources (addTrack id element g)) id' = map_get (sources g) id'
        /\ map_get (gains (addTrack id element g)) id' = map_get (gains g) id'
        /\ map_get (eqs (addTrack id element g)) id' = map_get (eqs g) id'
        /\ map_get (pans (addTrack id element g)) id' = map_get (pans g) id').
Proof.
  split.
  { intro element'. destruct (map_has (sources g) id) eqn:E.
    - unfold addTrack. rewrite E. now rewrite E.
    - rewrite (addTrack_fresh id element g E). unfold addTrack at 1.
      cbn [sources]. rewrite map_has_set, String.eqb_refl. reflexivity. }
  split; [intro E; unfold addTrack; now rewrite E|].
  split.
  { intro E. rewrite (addTrack_fresh id element g E).
    cbn [sources gains eqs pans]. unfold wired. cbn [sources gains eqs pans].
    rewrite !map_has_set, !map_get_set, String.eqb_refl. repeat split. }
  intros id' Hne. now apply addTrack_wires_once_other.
Qed.

(** X22. [removeTrack] leaves no entry for the id in any table and no other
    entry changed; on a graph with no entry for the id it changes nothing;
    and removing a track right after adding it to such a graph gives the
    graph back. *)
Theorem removeTrack_undoes_addTrack (id : string) (g : AudioGraph) :
  unwired (removeTrack id g) id
  /\ (forall id', id' <> id ->
        map_get (sources (removeTrack id g)) id' = map_get (sources g) id'
        /\ map_get (gains (removeTrack id g)) id' = map_get (gains g) id'
        /\ map_get (eqs (removeTrack id g)) id' = map_get (eqs g) id'
        /\ map_get (pans (removeTrack id g)) id' = map_get (pans g) id')
  /\ (unwired g id ->
      removeTrack id g = g
      /\ forall element, removeTrack id (addTrack id element g) = g).
Proof.
  split.
  { unfold unwired, removeTrack. cbn [sources gains eqs pans].
    rewrite !map_has_delete, String.eqb_refl. repeat split. }
  split.
  { intros id' Hne. unfold removeTrack. cbn [sources gains eqs pans].
    rewrite !map_get_delete.
    destruct (String.eqb_spec id id'); [congruence | repeat split]. }
  intros (Hs & Hg & He & Hp). split.
  - unfold removeTrack. rewrite !map_delete_absent by assumption. now destruct g.
  - intro element. rewrite (addTrack_fresh id element g Hs).
    unfold removeTrack. cbn [sources gains eqs pans masterGain].
    rewrite !map_delete_set_fresh by assumption. now destruct g.
Qed.

Lemma removeTrack_undoes_addTrack_witness :
  removeTrack "t1" (addTrack "t1" "el1" newAudioGraph) = newAudioGraph.
Proof.
  assert (U : unwired newAudioGraph "t1") by (repeat split).
  exact (proj2 (proj2 (proj2 (removeTrack_undoes_addTrack "t1" newAudioGraph)) U) "el1"%string).
Defined.

Lemma map_has_get {V} (m : JsMap V) (k : string) :
  map_has m k = true -> exists v, map_get m k = Some v.
Proof. unfold map_has. destruct (map_get m k); [eauto | discriminate]. Qed.

Lemma map_has_none {V} (m : JsMap V) (k : string) :
  map_has m k = false -> map_get m k = None.
Proof. unfold map_has. destruct (map_get m k); [discriminate | reflexivity]. Qed.

Lemma update_table_twice {V} (m : JsMap V) (k : string) (f : V -> V) :
  (forall v, f (f v) = f v) ->
  let upd t := match map_get t k with Some v => map_set t k (f v) | None => t end in
  upd (upd m) = upd m.
Proof.
  intros Hf upd. unfold upd. destruct (map_get m k) as [v|] eqn:E.
  - rewrite map_get_set, String.eqb_refl, map_set_same. now rewrite Hf.
  - now rewrite E.
Qed.

(** X23. [updateTrack] on a wired track changes the [gain.value] of the
    three filters, the [pan.value] of the panner and the [gain.value] of
    the gain node, the last being 0 when the track is muted and volume/100
    otherwise, and nothing else of these nodes: the type, frequency and Q
    of each filter and the connections of every node are those it had.
    The solo flag plays no part; a second call with the same parameters
    changes nothing; the sources, a track that is not wired and the
    entries of other tracks are left as they are; a volume between 0 and
    100 gives a gain between 0 and 1. *)
Theorem updateTrack_sets_parameters (id : string) (params : AudioTrack.t)
    (g : AudioGraph) :
  let g' := updateTrack id params g in
  (wired g id ->
   exists gn pn en,
     map_get (gains g) id = Some gn
     /\ map_get (pans g) id = Some pn
     /\ map_get (eqs g) id = Some en
     /\ map_get (gains g') id
        = Some (mkGain (if AudioTrack.isMuted params then 0
                        else AudioTrack.volume params / 100) (gain_outputs gn))
     /\ map_get (pans g') id = Some (mkPanner (AudioTrack.pan params) (panner_outputs pn))
     /\ map_get (eqs g') id
        = Some (mkEqNodes
                  (mkBiquad (biquad_type (eq_low en)) (frequency (eq_low en))
                     (Q_value (eq_low en)) (AudioTrack.low (AudioTrack.eq params))
                     (biquad_outputs (eq_low en)))
                  (mkBiquad (biquad_type (eq_mid en)) (frequency (eq_mid en))
                     (Q_value (eq_mid en)) (AudioTrack.mid (AudioTrack.eq params))
                     (biquad_outputs (eq_mid en)))
                  (mkBiquad (biquad_type (eq_high en)) (frequency (eq_high en))
                     (Q_value (eq_high en)) (AudioTrack.high (AudioTrack.eq params))
                     (biquad_outputs (eq_high en)))))
  /\ updateTrack id params g' = g'
  /\ (unwired g id -> g' = g)
  /\ sources g' = sources g
  /\ masterGain g' = masterGain g
  /\ (forall id', id' <> id ->
        map_get (gains g') id' = map_get (gains g) id'
        /\ map_get (eqs g') id' = map_get (eqs g) id'
        /\ map_get (pans g') id' = map_get (pans g) id')
  /\ (forall solo,
        updateTrack id
          (AudioTrack.mk (AudioTrack.id params) (AudioTrack.name params)
             (AudioTrack.url params) (AudioTrack.duration params)
             (AudioTrack.volume params) (AudioTrack.pan params)
             (AudioTrack.isMuted params) solo (AudioTrack.eq params)
             (AudioTrack.reverb params)) g = g')
  /\ (0 <= AudioTrack.volume params -> AudioTrack.volume params <= 100 ->
      0 <= (if AudioTrack.isMuted params then 0 else AudioTrack.volume params / 100)
      /\ (if AudioTrack.isMuted params then 0 else AudioTrack.volume params / 100) <= 1).
Proof.
  intro g'. unfold g'.
  split.
  { intros (_ & Hg & He & Hp).
    destruct (map_has_get _ _ Hg) as (gn & Eg).
    destruct (map_has_get _ _ He) as (en & Ee).
    destruct (map_has_get _ _ Hp) as (pn & Ep).
    exists gn, pn, en.
    unfold updateTrack. rewrite Eg, Ee, Ep. cbn [gains eqs pans].
    rewrite !map_get_set, String.eqb_refl. repeat split. }
  split.
  { unfold updateTrack. cbn [sources gains eqs pans masterGain].
    f_equal.
    - apply (update_table_twice (gains g) id
               (fun gn => mkGain (if AudioTrack.isMuted params then 0
                                  else AudioTrack.volume params / 100) (gain_outputs gn))).
      reflexivity.
    - apply (update_table_twice (eqs g) id
               (fun eq => mkEqNodes
                  (setBiquadGain (AudioTrack.low (AudioTrack.eq params)) (eq_low eq))
                  (setBiquadGain (AudioTrack.mid (AudioTrack.eq params)) (eq_mid eq))
                  (setBiquadGain (AudioTrack.high (AudioTrack.eq params)) (eq_high eq)))).
      reflexivity.
    - apply (update_table_twice (pans g) id
               (fun pn => mkPanner (AudioTrack.pan params) (panner_outputs pn))).
      reflexivity. }
  split.
  { intros (_ & Hg & He & Hp). unfold updateTrack.
    rewrite (map_has_none _ _ Hg), (map_has_none _ _ He), (map_has_none _ _ Hp).
    now destruct g. }
  split; [reflexivity|]. split; [reflexivity|].
  split.
  { intros id' Hne. destruct (updateTrack_other id params g id' Hne) as (_ & H2 & H3 & H4).
    now repeat split. }
  split; [intro solo; reflexivity|].
  intros H0 H1. destruct (AudioTrack.isMuted params); [split; lra|].
  unfold Qdiv. change (/ 100) with (1 # 100). split; lra.
Qed.

Lemma update_table_has {V} (m : JsMap V) (id k : string) (f : V -> V) :
  map_has (match map_get m id with Some v => map_set m id (f v) | None => m end) k
  = map_has m k.
Proof.
  destruct (map_get m id) as [v|] eqn:E; [|reflexivity].
  rewrite map_has_set. destruct (String.eqb_spec id k) as [<-|_]; [|reflexivity].
  unfold map_has. now rewrite E.
Qed.

Lemma call_tablesAgree (c : GraphCall) (g : AudioGraph) :
  tablesAgree g -> tablesAgree (call c g).
Proof.
  intros H k. destruct c as [id element|id params|id]; cbn [call].
  - unfold addTrack. destruct (map_has (sources g) id) eqn:E; [apply H|].
    unfold wired, unwired. cbn [sources gains eqs pans]. rewrite !map_has_set.
    destruct (String.eqb id k); [left; repeat split|]. cbn [orb]. apply H.
  - unfold wired, unwired, updateTrack. cbn [sources gains eqs pans].
    rewrite !update_table_has. apply H.
  - unfold wired, unwired, removeTrack. cbn [sources gains eqs pans].
    rewrite !map_has_delete.
    destruct (String.eqb id k); cbn [negb andb]; [right; repeat split | apply H].
Qed.

(** X24. Whatever calls are made on a new graph, its four tables have the same
    keys: a track has a source, a gain, an equaliser and a panner, or none
    of them. *)
Theorem graph_tables_agree (calls : list GraphCall) :
  tablesAgree (fold_left (fun g c => call c g) calls newAudioGraph).
Proof.
  assert (G : forall g, tablesAgree g ->
                        tablesAgree (fold_left (fun g c => call c g) calls g)).
  { induction calls as [|c rest IH]; intros g H; simpl; [exact H|].
    apply IH. now apply call_tablesAgree. }
  apply G. intro k. right. repeat split.
Qed.

Lemma sync_step_other (refs : string -> option string) (t : AudioTrack.t)
    (g : AudioGraph) (k : string) :
  k <> AudioTrack.id t ->
  let g' := match refs (AudioTrack.id t) with
            | Some el => updateTrack (AudioTrack.id t) t (addTrack (AudioTrack.id t) el g)
            | None => g
            end in
  map_get (sources g') k = map_get (sources g) k
  /\ map_get (gains g') k = map_get (gains g) k
  /\ map_get (eqs g') k = map_get (eqs g) k
  /\ map_get (pans g') k = map_get (pans g) k.
Proof.
  intros Hne g'. unfold g'. destruct (refs (AudioTrack.id t)) as [el|]; [|repeat split].
  destruct (addTrack_wires_once_other (AudioTrack.id t) el g k Hne) as (A1 & A2 & A3 & A4).
  destruct (updateTrack_other (AudioTrack.id t) t (addTrack (AudioTrack.id t) el g) k Hne)
    as (U1 & U2 & U3 & U4).
  rewrite U1, U2, U3, U4. repeat split; assumption.
Qed.

Lemma sync_rest_keeps (refs : string -> option string) (rest : list AudioTrack.t)
    (k : string) (g : AudioGraph) :
  ~ In k (map AudioTrack.id rest) ->
  let g' := syncAudioEngine refs rest g in
  map_get (sources g') k = map_get (sources g) k
  /\ map_get (gains g') k = map_get (gains g) k
  /\ map_get (eqs g') k = map_get (eqs g) k
  /\ map_get (pans g') k = map_get (pans g) k.
Proof.
  unfold syncAudioEngine. revert g.
  induction rest as [|y ys IH]; intros g Hnotin; cbn [fold_left]; [repeat split|].
  assert (Hne : k <> AudioTrack.id y) by (intro E; apply Hnotin; left; now symmetry).
  destruct (sync_step_other refs y g k Hne) as (S1 & S2 & S3 & S4).
  destruct (IH (match refs (AudioTrack.id y) with
                | Some el0 => updateTrack (AudioTrack.id y) y
                                (addTrack (AudioTrack.id y) el0 g)
                | None => g
                end) (fun H => Hnotin (or_intror H))) as (K1 & K2 & K3 & K4).
  rewrite K1, K2, K3, K4. repeat split; assumption.
Qed.

Lemma addTrack_wired (id element : string) (g : AudioGraph) :
  tablesAgree g -> wired (addTrack id element g) id.
Proof.
  intro Hagree. unfold addTrack. destruct (map_has (sources g) id) eqn:Es.
  - destruct (Hagree id) as [W|(U & _)]; [exact W | congruence].
  - unfold wired. cbn [sources gains eqs pans].
    rewrite !map_has_set, String.eqb_refl. repeat split.
Qed.

Lemma updateTrack_wired_gain (id : string) (params : AudioTrack.t) (g : AudioGraph) :
  wired g id ->
  wired (updateTrack id params g) id
  /\ exists outs,
       map_get (gains (updateTrack id params g)) id
       = Some (mkGain (if AudioTrack.isMuted params then 0
                       else AudioTrack.volume params / 100) outs).
Proof.
  intros (Hs & Hg & He & Hp). split.
  - unfold wired, updateTrack. cbn [sources gains eqs pans].
    rewrite !update_table_has. now repeat split.
  - destruct (map_has_get _ _ Hg) as (gn & Eg).
    unfold updateTrack. cbn [gains]. rewrite Eg, map_get_set, String.eqb_refl.
    now exists (gain_outputs gn).
Qed.

(** X25. After the effect that keeps the graph in step with the studio
    tracks, on a graph whose tables agree and for tracks with distinct ids,
    the tables still agree, and every track that has an audio element is
    wired with a gain node that holds 0 when the track is muted and
    volume/100 otherwise. *)
Theorem syncAudioEngine_wires_every_track (refs : string -> option string)
    (tracks : list AudioTrack.t) (g : AudioGraph)
    (Hagree : tablesAgree g)
    (Hids : NoDup (map AudioTrack.id tracks)) :
  let g' := syncAudioEngine refs tracks g in
  tablesAgree g'
  /\ forall t el, In t tracks -> refs (AudioTrack.id t) = Some el ->
       wired g' (AudioTrack.id t)
       /\ exists outs,
            map_get (gains g') (AudioTrack.id t)
            = Some (mkGain (if AudioTrack.isMuted t then 0
                            else AudioTrack.volume t / 100) outs).
Proof.
  revert g Hagree Hids.
  induction tracks as [|x rest IH]; intros g Hagree Hids.
  - split; [exact Hagree | intros t el []].
  - inversion Hids as [|? ? Hnotin Hrest]; subst.
    set (g1 := match refs (AudioTrack.id x) with
               | Some el => updateTrack (AudioTrack.id x) x (addTrack (AudioTrack.id x) el g)
               | None => g
               end).
    assert (Hagree1 : tablesAgree g1).
    { unfold g1. destruct (refs (AudioTrack.id x)) as [el|]; [|exact Hagree].
      apply (call_tablesAgree (UpdateTrack (AudioTrack.id x) x)).
      now apply (call_tablesAgree (AddTrack (AudioTrack.id x) el)). }
    change (syncAudioEngine refs (x :: rest) g) with (syncAudioEngine refs rest g1).
    destruct (IH g1 Hagree1 Hrest) as [Hag Hall].
    split; [exact Hag|].
    intros t el [<-|Hin] Href; [|now apply (Hall t el)].
    destruct (sync_rest_keeps refs rest (AudioTrack.id x) g1 Hnotin) as (K1 & K2 & K3 & K4).
    unfold wired, map_has. rewrite K1, K2, K3, K4.
    unfold g1. rewrite Href.
    destruct (updateTrack_wired_gain (AudioTrack.id x) x _
                (addTrack_wired (AudioTrack.id x) el g Hagree)) as [Hw Hgain].
    split; [exact Hw | exact Hgain].
Qed.

Lemma syncAudioEngine_wires_every_track_witness :
  wired (syncAudioEngine (fun _ => Some "el"%string) [uploadedTrack 1 "a.mp3" "blob:a"]
           newAudioGraph) (toString 1).
Proof.
  assert (Hagree : tablesAgree newAudioGraph) by (intro k; right; repeat split).
  assert (Hids : NoDup (map AudioTrack.id [uploadedTrack 1 "a.mp3" "blob:a"]))
    by (repeat constructor; intros []).
  destruct (syncAudioEngine_wires_every_track (fun _ => Some "el"%string) _ newAudioGraph
              Hagree Hids) as [_ H].
  destruct (H (uploadedTrack 1 "a.mp3" "blob:a") "el"%string (or_introl eq_refl) eq_refl)
    as [W _].
  exact W.
Defined.

(** ** Image history *)

Lemma at_index_some {A} (xs : list A) (i : Z) :
  (0 <= i < Z.of_nat (List.length xs))%Z -> at_index xs i <> None.
Proof.
  intros H E. unfold at_index in E. destruct (Z.ltb_spec i 0); [lia|].
  apply nth_error_None in E. lia.
Qed.

Lemma recordResult_wellFormed (result : string) (img : GalleryImage.t) :
  (List.length (GalleryImage.history img) <= 10)%nat ->
  imageWellFormed (recordResult result img).
Proof.
  intro Hlen. unfold imageWellFormed, recordResult, MAX_HISTORY_STACK.
  cbn [GalleryImage.history GalleryImage.historyIndex GalleryImage.currentData].
  set (kept := slice0 (GalleryImage.history img) (GalleryImage.historyIndex img + 1)).
  pose proof (slice0_length (GalleryImage.history img)
                (GalleryImage.historyIndex img + 1)) as Hk. fold kept in Hk.
  destruct (Z.ltb_spec 10 (Z.of_nat (List.length (kept ++ [result])))) as [Hlong|Hshort].
  - assert (Hne : kept <> []).
    { intro E. rewrite E in Hlong. simpl in Hlong. lia. }
    rewrite (tl_snoc kept result Hne).
    rewrite length_app in Hlong. cbn [List.length] in Hlong.
    assert (Htl : (List.length (tl kept ++ [result]) <= 10)%nat).
    { rewrite length_app. cbn [List.length]. destruct kept; simpl in *; lia. }
    split; [exact Htl|].
    split; [rewrite length_app; cbn [List.length]; lia|].
    split; [now rewrite at_index_last | discriminate].
  - pose proof (length_app kept [result]) as Hl. cbn [List.length] in Hl.
    split; [lia|]. split; [lia|].
    split; [now rewrite at_index_last | discriminate].
Qed.

Lemma history_below_new_cursor {A} (h : list A) (i cap : Z) (x : A) :
  (0 <= i < Z.of_nat (List.length h))%Z -> (2 <= cap)%Z ->
  let nh := slice0 h (i + 1) ++ [x] in
  let nh' := if (cap <? Z.of_nat (List.length nh))%Z then tl nh else nh in
  (0 < Z.of_nat (List.length nh') - 1)%Z
  /\ at_index nh' (Z.of_nat (List.length nh') - 1 - 1) = at_index h i.
Proof.
  intros Hi Hcap nh nh'. unfold nh', nh.
  rewrite slice0_firstn by lia.
  replace (Z.to_nat (i + 1)) with (S (Z.to_nat i)) by lia.
  set (n := Z.to_nat i). set (kept := firstn (S n) h).
  assert (Hn : (n < List.length h)%nat) by (unfold n; lia).
  assert (Hlen : List.length kept = S n) by (apply firstn_length_le; lia).
  assert (Hat : at_index h i = nth_error h n).
  { unfold at_index. destruct (Z.ltb_spec i 0); [lia | reflexivity]. }
  assert (Hk : nth_error kept n = nth_error h n).
  { unfold kept. rewrite nth_error_firstn.
    destruct (Nat.ltb_spec n (S n)); [reflexivity | lia]. }
  rewrite Hat.
  destruct (Z.ltb_spec cap (Z.of_nat (List.length (kept ++ [x])))) as [Hlong|Hshort].
  - assert (Hne : kept <> []) by (intro E; rewrite E in Hlen; discriminate).
    rewrite (tl_snoc kept x Hne).
    rewrite length_app in Hlong |- *. cbn [List.length] in Hlong |- *.
    assert (Htl : List.length (tl kept) = n) by (destruct kept; simpl in *; lia).
    rewrite Htl. rewrite Hlen in Hlong.
    split; [lia|].
    unfold at_index. destruct (Z.ltb_spec (Z.of_nat (n + 1) - 1 - 1) 0); [lia|].
    replace (Z.to_nat (Z.of_nat (n + 1) - 1 - 1)) with (n - 1)%nat by lia.
    rewrite nth_error_app1 by lia.
    rewrite <- Hk. destruct kept as [|y ys]; [congruence|].
    simpl. destruct n as [|n']; [lia|]. simpl. now rewrite Nat.sub_0_r.
  - rewrite length_app. cbn [List.length]. rewrite Hlen.
    split; [lia|].
    unfold at_index. destruct (Z.ltb_spec (Z.of_nat (S n + 1) - 1 - 1) 0); [lia|].
    replace (Z.to_nat (Z.of_nat (S n + 1) - 1 - 1)) with n by lia.
    rewrite nth_error_app1 by lia. exact Hk.
Qed.

Lemma NoDup_snoc {A} (l : list A) (x : A) :
  NoDup l -> ~ In x l -> NoDup (l ++ [x]).
Proof.
  induction l as [|y ys IH]; simpl; intros Hnd Hx.
  - constructor; [intros [] | constructor].
  - inversion Hnd as [|? ? Hy Hys]; subst. constructor.
    + rewrite in_app_iff. intros [H|[H|[]]]; [now apply Hy | subst; tauto].
    + apply IH; tauto.
Qed.

Lemma unique_by_id (l : list GalleryImage.t) (a b : GalleryImage.t) :
  NoDup (map GalleryImage.id l) -> In a l -> In b l ->
  GalleryImage.id a = GalleryImage.id b -> a = b.
Proof.
  induction l as [|x xs IH]; simpl; [intros _ []|].
  intros Hnd Ha Hb E. inversion Hnd as [|? ? Hnotin Hnd']; subst.
  destruct Ha as [<-|Ha], Hb as [<-|Hb]; trivial.
  - exfalso. apply Hnotin. rewrite E. now apply in_map.
  - exfalso. apply Hnotin. rewrite <- E. now apply in_map.
  - now apply IH.
Qed.

Lemma activeImage_in (st : ImageState) (img : GalleryImage.t) :
  activeImage st = Some img ->
  In img (gallery st) /\ activeImageId st = Some (GalleryImage.id img).
Proof.
  unfold activeImage. intro H. apply find_some in H. destruct H as [Hin Hid].
  split; [exact Hin|]. unfold eq_id in Hid.
  destruct (activeImageId st) as [s|]; [|discriminate].
  apply String.eqb_eq in Hid. now rewrite Hid.
Qed.

(** On a gallery of distinct ids, a rewrite of the images of one id is a
    rewrite of that one image. *)
Lemma map_on_id (l : list GalleryImage.t) (active : GalleryImage.t)
    (f : GalleryImage.t -> GalleryImage.t) :
  NoDup (map GalleryImage.id l) -> In active l ->
  map (fun img => if negb (String.eqb (GalleryImage.id img) (GalleryImage.id active))
                  then img else f img) l
  = map (fun img => if String.eqb (GalleryImage.id img) (GalleryImage.id active)
                    then f active else img) l.
Proof.
  intros Hnd Hin. apply map_ext_in. intros img Himg.
  destruct (String.eqb_spec (GalleryImage.id img) (GalleryImage.id active)) as [E|_];
    cbn [negb]; [|reflexivity].
  now rewrite (unique_by_id l img active Hnd Himg Hin E).
Qed.

Lemma map_keep_ids (l : list GalleryImage.t) (k : string) (x : GalleryImage.t) :
  GalleryImage.id x = k ->
  map GalleryImage.id
      (map (fun img => if String.eqb (GalleryImage.id img) k then x else img) l)
  = map GalleryImage.id l.
Proof.
  intro Hx. rewrite map_map. apply map_ext. intro img.
  destruct (String.eqb_spec (GalleryImage.id img) k); [congruence | reflexivity].
Qed.

Lemma Forall_replace (l : list GalleryImage.t) (k : string) (x : GalleryImage.t)
    (P : GalleryImage.t -> Prop) :
  Forall P l -> P x ->
  Forall P (map (fun img => if String.eqb (GalleryImage.id img) k then x else img) l).
Proof.
  intros Hl Hx. apply Forall_forall. intros y Hy. apply in_map_iff in Hy.
  destruct Hy as (img & <- & Himg).
  destruct (String.eqb (GalleryImage.id img) k); [exact Hx|].
  rewrite Forall_forall in Hl. now apply Hl.
Qed.

Lemma goTo_wellFormed (img : GalleryImage.t) (i : Z) :
  (List.length (GalleryImage.history img) <= 10)%nat ->
  (0 <= i < Z.of_nat (List.length (GalleryImage.history img)))%Z ->
  imageWellFormed (goTo i img).
Proof.
  intros Hlen Hi. unfold imageWellFormed, goTo.
  cbn [GalleryImage.history GalleryImage.historyIndex GalleryImage.currentData].
  split; [exact Hlen|]. split; [exact Hi|]. split; [reflexivity|].
  now apply at_index_some.
Qed.

Lemma flag_wellFormed (b : bool) (img : GalleryImage.t) :
  imageWellFormed img -> imageWellFormed (GalleryImage.with_isProcessing b img).
Proof. trivial. Qed.

(** X26. The gallery handlers keep every image well formed (at most 10 history
    entries, the cursor on one of them, the current data equal to it) and
    the ids distinct: an upload under a new id, the start, the success and
    the failure of a processing run, undo and redo. *)
Theorem gallery_stays_well_formed (st : ImageState) (Hwf : galleryWellFormed st) :
  (forall seen newId result, ~ In newId (map GalleryImage.id (gallery st)) ->
     galleryWellFormed (uploadImage seen newId result st))
  /\ (forall image, galleryWellFormed (startProcessing image st))
  /\ (forall image result, galleryWellFormed (finishProcessing image result st))
  /\ (forall image, galleryWellFormed (failProcessing image st))
  /\ galleryWellFormed (handleUndo st)
  /\ galleryWellFormed (handleRedo st).
Proof.
  destruct Hwf as [Hnd Hall].
  assert (Hwf_of : forall img, In img (gallery st) -> imageWellFormed img)
    by (now apply Forall_forall).
  split.
  { intros seen newId result Hfresh. split; cbn [gallery uploadImage].
    - rewrite map_app. cbn [map newImage GalleryImage.id].
      now apply NoDup_snoc.
    - apply Forall_app. split; [exact Hall|]. constructor; [|constructor].
      unfold imageWellFormed, newImage.
      cbn [GalleryImage.history GalleryImage.historyIndex GalleryImage.currentData].
      repeat split; try (cbn; lia); discriminate. }
  split.
  { intros image. unfold startProcessing.
    destruct (GalleryImage.isProcessing image); [now split|].
    split; cbn [gallery].
    - rewrite map_map. erewrite map_ext; [exact Hnd|].
      intro img. now destruct (String.eqb _ _).
    - apply Forall_forall. intros y Hy. apply in_map_iff in Hy.
      destruct Hy as (img & <- & Himg).
      destruct (String.eqb _ _); [apply flag_wellFormed|]; now apply Hwf_of. }
  split.
  { intros image result. unfold finishProcessing. split; cbn [gallery].
    - rewrite map_map. erewrite map_ext; [exact Hnd|].
      intro img. now destruct (negb _).
    - apply Forall_forall. intros y Hy. apply in_map_iff in Hy.
      destruct Hy as (img & <- & Himg).
      destruct (negb _); [now apply Hwf_of|].
      apply recordResult_wellFormed. now destruct (Hwf_of img Himg). }
  split.
  { intros image. unfold failProcessing. split; cbn [gallery].
    - rewrite map_map. erewrite map_ext; [exact Hnd|].
      intro img. now destruct (String.eqb _ _).
    - apply Forall_forall. intros y Hy. apply in_map_iff in Hy.
      destruct Hy as (img & <- & Himg).
      destruct (String.eqb _ _); [apply flag_wellFormed|]; now apply Hwf_of. }
  split.
  { unfold handleUndo. destruct (activeImage st) as [active|] eqn:Ea; [|now split].
    destruct (Z.leb_spec (GalleryImage.historyIndex active) 0); [now split|].
    destruct (activeImage_in st active Ea) as [Hin _].
    destruct (Hwf_of active Hin) as (Hlen & Hi & _).
    rewrite (map_on_id (gallery st) active
               (fun img => goTo (GalleryImage.historyIndex img - 1) img) Hnd Hin).
    split; cbn [gallery].
    - now rewrite map_keep_ids.
    - apply Forall_replace; [exact Hall|]. apply goTo_wellFormed; [exact Hlen | lia]. }
  unfold handleRedo. destruct (activeImage st) as [active|] eqn:Ea; [|now split].
  destruct (Z.leb_spec (Z.of_nat (List.length (GalleryImage.history active)) - 1)
              (GalleryImage.historyIndex active)); [now split|].
  destruct (activeImage_in st active Ea) as [Hin _].
  destruct (Hwf_of active Hin) as (Hlen & Hi & _).
  rewrite (map_on_id (gallery st) active
             (fun img => goTo (GalleryImage.historyIndex img + 1) img) Hnd Hin).
  split; cbn [gallery].
  - now rewrite map_keep_ids.
  - apply Forall_replace; [exact Hall|]. apply goTo_wellFormed; [exact Hlen | lia].
Qed.

Lemma activeImage_map (f : GalleryImage.t -> GalleryImage.t) (st : ImageState) :
  (forall img, GalleryImage.id (f img) = GalleryImage.id img) ->
  activeImage (mkImageState (map f (gallery st)) (activeImageId st))
  = option_map f (activeImage st).
Proof.
  intro Hid. unfold activeImage. cbn [gallery activeImageId].
  induction (gallery st) as [|x xs IH]; [reflexivity|].
  cbn [map find]. rewrite Hid.
  destruct (eq_id (GalleryImage.id x) (activeImageId st)); [reflexivity | exact IH].
Qed.

Lemma goTo_back (img : GalleryImage.t) (i : Z) :
  GalleryImage.currentData img
  = at_index (GalleryImage.history img) (GalleryImage.historyIndex img) ->
  i = GalleryImage.historyIndex img ->
  forall j, goTo i (goTo j img) = img.
Proof.
  intros Hcur -> j. destruct img. unfold goTo. cbn in *. now rewrite Hcur.
Qed.

(** X27. Undo right after a processing result on the active image shows the
    data the image had before the run; the result itself is the newest
    history entry, so redo has nothing to offer until that undo. *)
Theorem image_undo_after_result (st : ImageState) (image active : GalleryImage.t)
    (result : string)
    (Hwf : galleryWellFormed st)
    (Hactive : activeImage st = Some active)
    (Himage : GalleryImage.id image = GalleryImage.id active) :
  let st1 := finishProcessing image result st in
  exists done back,
    activeImage st1 = Some done
    /\ GalleryImage.currentData done = Some result
    /\ GalleryImage.isProcessing done = false
    /\ handleRedo st1 = st1
    /\ activeImage (handleUndo st1) = Some back
    /\ GalleryImage.currentData back = GalleryImage.currentData active
    /\ GalleryImage.history back = GalleryImage.history done.
Proof.
  intro st1. destruct Hwf as [Hnd Hall].
  destruct (activeImage_in st active Hactive) as [Hin _].
  rewrite Forall_forall in Hall.
  destruct (Hall active Hin) as (Hlen & Hi & Hcur & _).
  assert (Hdone : activeImage st1 = Some (recordResult result active)).
  { unfold st1, finishProcessing. rewrite activeImage_map.
    - rewrite Hactive. cbn [option_map]. rewrite Himage, String.eqb_refl. reflexivity.
    - intro img. now destruct (negb _). }
  pose proof (history_below_new_cursor (GalleryImage.history active)
                (GalleryImage.historyIndex active) MAX_HISTORY_STACK result Hi
                ltac:(unfold MAX_HISTORY_STACK; lia)) as Hbelow.
  cbv zeta in Hbelow. destruct Hbelow as [Hpos Hat].
  set (done := recordResult result active) in *.
  assert (Hidx : (0 < GalleryImage.historyIndex done)%Z) by exact Hpos.
  exists done, (goTo (GalleryImage.historyIndex done - 1) done).
  split; [exact Hdone|]. split; [reflexivity|]. split; [reflexivity|].
  split.
  { unfold handleRedo. rewrite Hdone.
    destruct (Z.leb_spec (Z.of_nat (List.length (GalleryImage.history done)) - 1)
                (GalleryImage.historyIndex done)) as [_|Hlt]; [reflexivity|].
    exfalso. unfold done, recordResult in Hlt.
    cbn [GalleryImage.history GalleryImage.historyIndex] in Hlt. lia. }
  split.
  { unfold handleUndo. rewrite Hdone.
    destruct (Z.leb_spec (GalleryImage.historyIndex done) 0); [lia|].
    assert (Hst1 : st1 = mkImageState (gallery st1) (activeImageId st1))
      by (now destruct st1).
    rewrite (activeImage_map
               (fun img => if negb (String.eqb (GalleryImage.id img) (GalleryImage.id done))
                           then img else goTo (GalleryImage.historyIndex img - 1) img) st1).
    - rewrite Hdone. cbn [option_map]. now rewrite String.eqb_refl.
    - intro img. now destruct (negb _). }
  split; [|reflexivity].
  unfold goTo. cbn [GalleryImage.currentData]. rewrite Hcur. exact Hat.
Qed.

(** X28. On a well-formed gallery undo and redo are inverse on the whole
    image state: redo after an undo that moved, and undo after a redo that
    moved, give back the state they started from. *)
Theorem image_undo_redo_inverse (st : ImageState) (active : GalleryImage.t)
    (Hwf : galleryWellFormed st) (Hactive : activeImage st = Some active) :
  ((0 < GalleryImage.historyIndex active)%Z -> handleRedo (handleUndo st) = st)
  /\ ((GalleryImage.historyIndex active
       < Z.of_nat (List.length (GalleryImage.history active)) - 1)%Z ->
      handleUndo (handleRedo st) = st).
Proof.
  destruct Hwf as [Hnd Hall].
  destruct (activeImage_in st active Hactive) as [Hin _].
  rewrite Forall_forall in Hall.
  destruct (Hall active Hin) as (Hlen & Hi & Hcur & _).
  assert (Hst : st = mkImageState (gallery st) (activeImageId st)) by (now destruct st).
  assert (Hround : forall d : Z,
    (0 <= GalleryImage.historyIndex active + d
     < Z.of_nat (List.length (GalleryImage.history active)))%Z ->
    map (fun img =>
           if negb (String.eqb (GalleryImage.id img)
                      (GalleryImage.id (goTo (GalleryImage.historyIndex active + d) active)))
           then img else goTo (GalleryImage.historyIndex img - d) img)
      (map (fun img =>
              if negb (String.eqb (GalleryImage.id img) (GalleryImage.id active))
              then img else goTo (GalleryImage.historyIndex img + d) img)
         (gallery st))
    = gallery st).
  { intros d Hd. rewrite map_map. rewrite <- (map_id (gallery st)) at 2.
    apply map_ext_in. intros img Himg.
    destruct (String.eqb_spec (GalleryImage.id img) (GalleryImage.id active)) as [E|N];
      cbn [negb].
    - rewrite (unique_by_id (gallery st) img active Hnd Himg Hin E).
      cbn [goTo GalleryImage.id]. rewrite String.eqb_refl. cbn [negb].
      apply goTo_back; [exact Hcur|].
      cbn [goTo GalleryImage.historyIndex]. lia.
    - cbn [goTo GalleryImage.id].
      destruct (String.eqb_spec (GalleryImage.id img) (GalleryImage.id active));
        [contradiction | reflexivity]. }
  split; intro Hmove.
  - unfold handleUndo at 1. rewrite Hactive.
    destruct (Z.leb_spec (GalleryImage.historyIndex active) 0); [lia|].
    unfold handleRedo. rewrite activeImage_map by (intro img; now destruct (negb _)).
    rewrite Hactive. cbn [option_map]. rewrite String.eqb_refl. cbn [negb].
    cbn [goTo GalleryImage.history GalleryImage.historyIndex].
    destruct (Z.leb_spec (Z.of_nat (List.length (GalleryImage.history active)) - 1)
                (GalleryImage.historyIndex active - 1)); [lia|].
    cbn [gallery activeImageId]. rewrite Hst at 3. f_equal.
    exact (Hround (-1)%Z ltac:(lia)).
  - unfold handleRedo at 1. rewrite Hactive.
    destruct (Z.leb_spec (Z.of_nat (List.length (GalleryImage.history active)) - 1)
                (GalleryImage.historyIndex active)); [lia|].
    unfold handleUndo. rewrite activeImage_map by (intro img; now destruct (negb _)).
    rewrite Hactive. cbn [option_map]. rewrite String.eqb_refl. cbn [negb].
    cbn [goTo GalleryImage.history GalleryImage.historyIndex].
    destruct (Z.leb_spec (GalleryImage.historyIndex active + 1) 0); [lia|].
    cbn [gallery activeImageId]. rewrite Hst at 3. f_equal.
    exact (Hround 1%Z ltac:(lia)).
Qed.

Lemma gallery_stays_well_formed_witness :
  galleryWellFormed editedImage /\ galleryWellFormed (handleUndo editedImage).
Proof.
  assert (W : galleryWellFormed editedImage).
  { split.
    - cbn. constructor; [intros [] | constructor].
    - cbn. constructor; [|constructor].
      unfold imageWellFormed. split; [vm_compute; lia|].
      split; [split; vm_compute; [discriminate | reflexivity]|].
      split; [reflexivity | discriminate]. }
  split; [exact W|].
  destruct (gallery_stays_well_formed editedImage W) as (_ & _ & _ & _ & U & _).
  exact U.
Defined.

Lemma image_undo_after_result_witness :
  exists done back,
    activeImage editedImage = Some done
    /\ GalleryImage.currentData done = Some "data1"%string
    /\ GalleryImage.isProcessing done = false
    /\ handleRedo editedImage = editedImage
    /\ activeImage (handleUndo editedImage) = Some back
    /\ GalleryImage.currentData back = Some "data0"%string
    /\ GalleryImage.history back = GalleryImage.history done.
Proof.
  assert (W : galleryWellFormed oneImage).
  { split.
    - cbn. constructor; [intros [] | constructor].
    - cbn. constructor; [|constructor].
      unfold imageWellFormed. split; [vm_compute; lia|].
      split; [split; vm_compute; [discriminate | reflexivity]|].
      split; [reflexivity | discriminate]. }
  exact (image_undo_after_result oneImage (newImage "img1" "data0")
           (newImage "img1" "data0") "data1" W eq_refl eq_refl).
Defined.

Lemma image_undo_redo_inverse_witness :
  handleRedo (handleUndo editedImage) = editedImage
  /\ handleUndo (handleRedo steppedBack) = steppedBack.
Proof.
  assert (W : forall st img,
            gallery st = [img] -> imageWellFormed img -> galleryWellFormed st).
  { intros st img E Hi. split; rewrite E.
    - cbn. constructor; [intros [] | constructor].
    - constructor; [exact Hi | constructor]. }
  assert (Wi : forall i,
            (0 <= i < 2)%Z ->
            imageWellFormed
              (GalleryImage.mk "img1" "data0"
                 (at_index ["data0"; "data1"]%string i) ["data0"; "data1"]%string i
                 DEFAULT_FILTERS false [])).
  { intros i Hi. unfold imageWellFormed. cbn [GalleryImage.history
      GalleryImage.historyIndex GalleryImage.currentData List.length].
    repeat split; try lia. apply at_index_some. cbn [List.length]. lia. }
  pose (at_cursor := fun i : Z =>
          GalleryImage.mk "img1" "data0" (at_index ["data0"; "data1"]%string i)
            ["data0"; "data1"]%string i DEFAULT_FILTERS false []).
  split.
  - destruct (image_undo_redo_inverse editedImage (at_cursor 1%Z)
                (W editedImage (at_cursor 1%Z) eq_refl (Wi 1%Z ltac:(lia))) eq_refl)
      as [R _].
    apply R. reflexivity.
  - destruct (image_undo_redo_inverse steppedBack (at_cursor 0%Z)
                (W steppedBack (at_cursor 0%Z) eq_refl (Wi 0%Z ltac:(lia))) eq_refl)
      as [_ U].
    apply U. reflexivity.
Defined.

(** X29. A saved project keeps each image's history cursor but none of its
    history. Once such a gallery is loaded, redo is off for the active
    image, and undo, when the cursor is above 0, moves the cursor down and
    leaves the image without current data. *)
Theorem saved_gallery_loses_history (st : ImageState) (active : GalleryImage.t)
    (Hactive : activeImage st = Some active)
    (Hmoved : (0 < GalleryImage.historyIndex active)%Z) :
  let loaded := loadGallery (savedGallery st) st in
  exists back,
    activeImage loaded = Some (GalleryImage.with_history [] active)
    /\ handleRedo loaded = loaded
    /\ activeImage (handleUndo loaded) = Some back
    /\ GalleryImage.historyIndex back = (GalleryImage.historyIndex active - 1)%Z
    /\ GalleryImage.currentData back = None.
Proof.
  intro loaded.
  assert (Hl : activeImage loaded = Some (GalleryImage.with_history [] active)).
  { unfold loaded, loadGallery, savedGallery.
    rewrite activeImage_map by reflexivity. now rewrite Hactive. }
  exists (goTo (GalleryImage.historyIndex active - 1)
            (GalleryImage.with_history [] active)).
  split; [exact Hl|]. split.
  { unfold handleRedo. rewrite Hl. cbn [GalleryImage.with_history
      GalleryImage.history GalleryImage.historyIndex List.length].
    destruct (Z.leb_spec (Z.of_nat 0 - 1) (GalleryImage.historyIndex active));
      [reflexivity | lia]. }
  split.
  { unfold handleUndo. rewrite Hl.
    cbn [GalleryImage.with_history GalleryImage.historyIndex GalleryImage.id].
    destruct (Z.leb_spec (GalleryImage.historyIndex active) 0); [lia|].
    assert (E : loaded = mkImageState (gallery loaded) (activeImageId loaded))
      by reflexivity.
    rewrite (activeImage_map
               (fun img => if negb (String.eqb (GalleryImage.id img) (GalleryImage.id active))
                           then img else goTo (GalleryImage.historyIndex img - 1) img)
               loaded) by (intro img; now destruct (negb _)).
    rewrite Hl. cbn [option_map GalleryImage.with_history GalleryImage.id].
    now rewrite String.eqb_refl. }
  split; [reflexivity|].
  unfold goTo. cbn [GalleryImage.currentData GalleryImage.with_history
    GalleryImage.history]. unfold at_index.
  destruct (GalleryImage.historyIndex active - 1 <? 0)%Z; [reflexivity|].
  now destruct (Z.to_nat _).
Qed.

Lemma saved_gallery_loses_history_witness :
  exists back,
    activeImage (loadGallery (savedGallery editedImage) editedImage)
    = Some (GalleryImage.mk "img1" "data0" (Some "data1"%string) [] 1
              DEFAULT_FILTERS false [])
    /\ handleRedo (loadGallery (savedGallery editedImage) editedImage)
       = loadGallery (savedGallery editedImage) editedImage
    /\ activeImage (handleUndo (loadGallery (savedGallery editedImage) editedImage))
       = Some back
    /\ GalleryImage.historyIndex back = 0%Z
    /\ GalleryImage.currentData back = None.
Proof.
  exact (saved_gallery_loses_history editedImage
           (GalleryImage.mk "img1" "data0" (Some "data1"%string)
              ["data0"; "data1"]%string 1 DEFAULT_FILTERS false [])
           eq_refl eq_refl).
Defined.

Lemma getFilter_setFilter (key : FilterKey) (value : Q) (f : ManualFilters.t) :
  getFilter key (setFilter key value f) = value.
Proof. now destruct key. Qed.

(** X30. Filter edits are outside the image history: undo after
    [updateFilters] still shows the new filter value, whether or not it
    moved the cursor. [applyFiltersToAll] gives every image the active
    image's filters and changes nothing else of any image. *)
Theorem filter_edits_bypass_history (st : ImageState) (active : GalleryImage.t)
    (key : FilterKey) (value : Q) (Hactive : activeImage st = Some active) :
  (exists img,
     activeImage (handleUndo (updateFilters key value st)) = Some img
     /\ getFilter key (GalleryImage.filters img) = value
     /\ GalleryImage.historyIndex img
        = if (GalleryImage.historyIndex active <=? 0)%Z
          then GalleryImage.historyIndex active
          else (GalleryImage.historyIndex active - 1)%Z)
  /\ Forall (fun img => GalleryImage.filters img = GalleryImage.filters active)
       (gallery (applyFiltersToAll st))
  /\ map withoutFilters (gallery (applyFiltersToAll st))
     = map withoutFilters (gallery st).
Proof.
  split.
  { set (edited := GalleryImage.with_filters
                     (setFilter key value (GalleryImage.filters active)) active).
    assert (H1 : activeImage (updateFilters key value st) = Some edited).
    { unfold updateFilters. rewrite Hactive.
      rewrite activeImage_map by (intro img; now destruct (String.eqb _ _)).
      rewrite Hactive. cbn [option_map]. now rewrite String.eqb_refl. }
    unfold handleUndo. rewrite H1.
    change (GalleryImage.historyIndex edited) with (GalleryImage.historyIndex active).
    destruct (GalleryImage.historyIndex active <=? 0)%Z.
    - exists edited. split; [exact H1|]. split; [apply getFilter_setFilter | reflexivity].
    - exists (goTo (GalleryImage.historyIndex edited - 1) edited).
      split; [|split; [apply getFilter_setFilter | reflexivity]].
      rewrite (activeImage_map
                 (fun img => if negb (String.eqb (GalleryImage.id img) (GalleryImage.id edited))
                             then img else goTo (GalleryImage.historyIndex img - 1) img)
                 (updateFilters key value st)) by (intro img; now destruct (negb _)).
      rewrite H1. cbn [option_map]. now rewrite String.eqb_refl. }
  unfold applyFiltersToAll. rewrite Hactive. cbn [gallery]. split.
  - apply Forall_forall. intros img Hin. apply in_map_iff in Hin.
    now destruct Hin as (x & <- & _).
  - rewrite map_map. now apply map_ext.
Qed.

Lemma filter_edits_bypass_history_witness :
  (exists img,
     activeImage (handleUndo (updateFilters key_blur 5 editedImage)) = Some img
     /\ getFilter key_blur (GalleryImage.filters img) = 5
     /\ GalleryImage.historyIndex img = 0%Z)
  /\ Forall (fun img => GalleryImage.filters img = DEFAULT_FILTERS)
       (gallery (applyFiltersToAll editedImage))
  /\ map withoutFilters (gallery (applyFiltersToAll editedImage))
     = map withoutFilters (gallery editedImage).
Proof.
  exact (filter_edits_bypass_history editedImage
           (GalleryImage.mk "img1" "data0" (Some "data1"%string)
              ["data0"; "data1"]%string 1 DEFAULT_FILTERS false [])
           key_blur 5 eq_refl).
Defined.
